(** * DCC signal generator (SignalGenerator.cpp): packet serialisation,
      the bit-by-bit interrupt routine, the packet pool, and the
      programming-track CV read.

    The C++ code is embedded shallowly: bytes and counters are [Z] with
    the [uint8_t]/[uint16_t]/[uint64_t] wrap-around written out, packets
    live in a pool addressed by slot index (the [Packet*] values the two
    std::queue objects carry), and every operation threads the generator
    state explicitly.  Operations that can index outside a vector or an
    array, follow a pointer that does not address a pool slot, or spin on
    an empty free queue return in the [res] error monad. *)

From Stdlib Require Import ZArith Lia Bool.
From stdpp Require Import base tactics option list.

Local Open Scope Z_scope.

(** ** Errors *)

Inductive fault : Type :=
| PoolEmpty      (* loadPacket spins in [while(_availablePackets.empty())] *)
| OutOfBounds    (* an index outside a vector or a fixed array *)
| BadPointer     (* a Packet pointer that addresses no pool slot *)
| DivideByZero.  (* an integer division by zero *)

Inductive res (A : Type) : Type :=
| Ok (a : A)
| Fail (f : fault).

Arguments Ok {A} a.
Arguments Fail {A} f.

Definition bind {A B : Type} (m : res A) (k : A -> res B) : res B :=
  match m with
  | Ok a => k a
  | Fail f => Fail f
  end.

Notation "'do' x <- m ; k" := (bind m (fun x => k))
  (at level 10, x name, m at level 100, k at level 200).

Definition of_option {A : Type} (f : fault) (o : option A) : res A :=
  match o with
  | Some a => Ok a
  | None => Fail f
  end.

(** ** Bytes and the Arduino bit macros *)

Definition u8 (z : Z) : Z := z mod 256.
Definition u16 (z : Z) : Z := z mod 65536.
Definition u64 (z : Z) : Z := z mod 2 ^ 64.

Definition is_u8 (z : Z) : Prop := 0 <= z < 256.

(* Arduino.h: #define bitRead(value, bit) (((value) >> (bit)) & 0x01) *)
Definition bitRead (value bit : Z) : Z := Z.land (Z.shiftr value bit) 1.
(* Arduino.h: #define bitWrite(value, bit, 1) ((value) |= (1UL << (bit))) *)
Definition bitSet (value bit : Z) : Z := Z.lor value (Z.shiftl 1 bit).
(* Arduino.h: #define lowByte(w) ((uint8_t) ((w) & 0xff)) *)
Definition lowByte (w : Z) : Z := Z.land w 0xff.
(* Arduino.h: #define highByte(w) ((uint8_t) ((w) >> 8)) *)
Definition highByte (w : Z) : Z := u8 (Z.shiftr w 8).

(** [data[k]] on a std::vector<uint8_t>: undefined outside the vector. *)
Definition vec_at (data : list Z) (k : nat) : res Z :=
  of_option OutOfBounds (data !! k).

(** [buffer[k]] read and [buffer[k] = v] on the packet's fixed array. *)
Definition load (k : Z) (buf : list Z) : res Z :=
  if decide (0 <= k) then of_option OutOfBounds (buf !! Z.to_nat k)
  else Fail OutOfBounds.

Definition store (k : nat) (v : Z) (buf : list Z) : res (list Z) :=
  if decide (k < length buf)%nat then Ok (<[k := v]> buf)
  else Fail OutOfBounds.

(** ** Packets *)

(** Modelled from the spec: the declaration of [struct Packet] lives in
    SignalGenerator.h, which is not among the sources.  The spec's data
    model gives a byte buffer of (at least) ten bytes, the number of valid
    bits, the cursor and the remaining repeats.  The three counters hold
    the integers the code assigns to them, with no wrap-around of their
    own: the bit counts are at most 76 and the callers in this file ask
    for at most 20 repeats. *)
Record Packet : Type := mkPacket {
  buffer : list Z;
  numberOfBits : Z;
  numberOfRepeats : Z;
  currentBit : Z
}.

(** Modelled from the spec: the size of [buffer], a constant of the same
    header; loadPacket writes [buffer[0]] to [buffer[9]]. *)
Definition MAX_BYTES_IN_PACKET : nat := 10.

(** [new Packet()] value-initialises the structure. *)
Definition newPacket : Packet :=
  mkPacket (replicate MAX_BYTES_IN_PACKET 0) 0 0 0.

(** [memset(p, 0, sizeof(Packet))] *)
Definition memset0 (p : Packet) : Packet :=
  mkPacket (replicate (length (buffer p)) 0) 0 0 0.

Definition set_buffer (b : list Z) (p : Packet) : Packet :=
  mkPacket b (numberOfBits p) (numberOfRepeats p) (currentBit p).
Definition set_numberOfBits (n : Z) (p : Packet) : Packet :=
  mkPacket (buffer p) n (numberOfRepeats p) (currentBit p).
Definition set_numberOfRepeats (n : Z) (p : Packet) : Packet :=
  mkPacket (buffer p) (numberOfBits p) n (currentBit p).
Definition set_currentBit (n : Z) (p : Packet) : Packet :=
  mkPacket (buffer p) (numberOfBits p) (numberOfRepeats p) n.

Definition bitMask : list Z := [0x80; 0x40; 0x20; 0x10; 0x08; 0x04; 0x02; 0x01].

(** The bit the interrupt routine extracts at cursor [k]:
    [buffer[k / 8] & bitMask[k % 8]] converted to bool. *)
Definition bitAt (p : Packet) (k : Z) : res bool :=
  do byte <- load (k / 8) (buffer p);
  do mask <- load (k mod 8) bitMask;
  Ok (negb (Z.land byte mask =? 0)).

(** ** The signal generator *)

Inductive PacketRef : Type :=
| IdleRef                (* &_idlePacket *)
| PoolRef (i : nat).     (* a packet created by configureSignal *)

Record SignalGenerator : Type := mkGen {
  _pool : list Packet;               (* the heap cells behind the pointers *)
  _idlePacket : Packet;
  _availablePackets : list nat;      (* front of the queue = head *)
  _toSend : list nat;
  _currentPacket : option PacketRef  (* None = NULL *)
}.

Definition set_pool (v : list Packet) (g : SignalGenerator) : SignalGenerator :=
  mkGen v (_idlePacket g) (_availablePackets g) (_toSend g) (_currentPacket g).
Definition set_idlePacket (v : Packet) (g : SignalGenerator) : SignalGenerator :=
  mkGen (_pool g) v (_availablePackets g) (_toSend g) (_currentPacket g).
Definition set_availablePackets (v : list nat) (g : SignalGenerator) : SignalGenerator :=
  mkGen (_pool g) (_idlePacket g) v (_toSend g) (_currentPacket g).
Definition set_toSend (v : list nat) (g : SignalGenerator) : SignalGenerator :=
  mkGen (_pool g) (_idlePacket g) (_availablePackets g) v (_currentPacket g).
Definition set_currentPacket (v : option PacketRef) (g : SignalGenerator) : SignalGenerator :=
  mkGen (_pool g) (_idlePacket g) (_availablePackets g) (_toSend g) v.

(** Reading and writing through a [Packet*]. *)
Definition deref (g : SignalGenerator) (r : PacketRef) : res Packet :=
  match r with
  | IdleRef => Ok (_idlePacket g)
  | PoolRef i => of_option BadPointer (_pool g !! i)
  end.

Definition assign (r : PacketRef) (p : Packet) (g : SignalGenerator) : SignalGenerator :=
  match r with
  | IdleRef => set_idlePacket p g
  | PoolRef i => set_pool (<[i := p]> (_pool g)) g
  end.

(** *** loadPacket *)

(** Lines 123-125: [checksum = data[0]; for (i = 1..) checksum ^= data[i]]. *)
Definition checksum (data : list Z) : res Z :=
  do d0 <- vec_at data 0;
  Ok (fold_left Z.lxor (drop 1 data) d0).

(** Lines 129-156: the preamble and the frame bytes, written into the
    packet's buffer; [data] is the vector after [push_back(checksum)]. *)
Definition fillBuffer (data : list Z) (p : Packet) : res Packet :=
  let b := buffer p in
  do b <- store 0 0xFF b;
  do b <- store 1 0xFF b;
  do d0 <- vec_at data 0;
  do b <- store 2 (u8 (0xFC + bitRead d0 7)) b;
  do b <- store 3 (u8 (Z.shiftl d0 1)) b;
  do d1 <- vec_at data 1;
  do b <- store 4 d1 b;
  do d2 <- vec_at data 2;
  do b <- store 5 (u8 (Z.shiftr d2 1)) b;
  do b <- store 6 (u8 (Z.shiftl d2 7)) b;
  if decide (length data = 3%nat) then
    Ok (set_numberOfBits 49 (set_buffer b p))
  else
    do d3 <- vec_at data 3;
    do b6 <- load 6 b;
    do b <- store 6 (u8 (b6 + Z.shiftr d3 2)) b;
    do b <- store 7 (u8 (Z.shiftl d3 6)) b;
    if decide (length data = 4%nat) then
      Ok (set_numberOfBits 58 (set_buffer b p))
    else
      do d4 <- vec_at data 4;
      do b7 <- load 7 b;
      do b <- store 7 (u8 (b7 + Z.shiftr d4 3)) b;
      do b <- store 8 (u8 (Z.shiftl d4 5)) b;
      if decide (length data = 5%nat) then
        Ok (set_numberOfBits 67 (set_buffer b p))
      else
        do d5 <- vec_at data 5;
        do b8 <- load 8 b;
        do b <- store 8 (u8 (b8 + Z.shiftr d5 4)) b;
        do b <- store 9 (u8 (Z.shiftl d5 4)) b;
        Ok (set_numberOfBits 76 (set_buffer b p)).

(** The vector [data] as it is after line 126. *)
Definition frame (data : list Z) : res (list Z) :=
  do c <- checksum data;
  Ok (data ++ [c]).

Definition loadPacket (data : list Z) (repeats : Z) (g : SignalGenerator)
  : res SignalGenerator :=
  match _availablePackets g with
  | [] => Fail PoolEmpty
  | i :: available =>
    do packet <- deref g (PoolRef i);
    let packet := set_currentBit 0 (set_numberOfRepeats repeats packet) in
    do data <- frame data;
    do packet <- fillBuffer data packet;
    Ok (set_toSend (_toSend g ++ [i])
         (set_availablePackets available
           (assign (PoolRef i) packet g)))
  end.

(** loadBytePacket copies [length] bytes of the array into a vector. *)
Definition loadBytePacket (data : list Z) (length : nat) (repeatCount : Z)
  (g : SignalGenerator) : res SignalGenerator :=
  if decide (length <= List.length data)%nat
  then loadPacket (take length data) repeatCount g
  else Fail OutOfBounds.

Definition idlePacket : list Z := [0xFF; 0x00].
Definition resetPacket : list Z := [0x00; 0x00].

(** *** getNextBitToSend *)

(** Lines 75-88: a packet whose cursor reached [numberOfBits] is either
    rewound for another repeat or given up (and, unless it is the idle
    packet, pushed onto the free queue). *)
Definition releaseFinished (g : SignalGenerator) : res SignalGenerator :=
  match _currentPacket g with
  | None => Ok g
  | Some r =>
    do p <- deref g r;
    if decide (currentBit p = numberOfBits p) then
      if decide (numberOfRepeats p > 0) then
        Ok (assign r (set_currentBit 0
                       (set_numberOfRepeats (numberOfRepeats p - 1) p)) g)
      else
        let g := match r with
                 | PoolRef i =>
                   set_availablePackets (_availablePackets g ++ [i]) g
                 | IdleRef => g
                 end in
        Ok (set_currentPacket None g)
    else Ok g
  end.

(** Lines 91-99: with no current packet, take the front of the pending
    queue, or fall back to the idle packet with its cursor rewound. *)
Definition selectPacket (g : SignalGenerator) : SignalGenerator :=
  match _currentPacket g with
  | Some _ => g
  | None =>
    match _toSend g with
    | i :: rest => set_toSend rest (set_currentPacket (Some (PoolRef i)) g)
    | [] =>
      set_idlePacket (set_currentBit 0 (_idlePacket g))
        (set_currentPacket (Some IdleRef) g)
    end
  end.

(** Lines 101-105: read the bit under the cursor and advance the cursor. *)
Definition extractBit (g : SignalGenerator) : res (bool * SignalGenerator) :=
  match _currentPacket g with
  | None => Ok (false, g)
  | Some r =>
    do p <- deref g r;
    do result <- bitAt p (currentBit p);
    Ok (result, assign r (set_currentBit (currentBit p + 1) p) g)
  end.

Definition getNextBitToSend (g : SignalGenerator) : res (bool * SignalGenerator) :=
  do g <- releaseFinished g;
  extractBit (selectPacket g).

(** [n] successive timer interrupts; the bits are listed in the order sent. *)
Fixpoint sendBits (n : nat) (g : SignalGenerator) : res (list bool * SignalGenerator) :=
  match n with
  | O => Ok ([], g)
  | S n =>
    do bg <- getNextBitToSend g;
    do bsg <- sendBits n (snd bg);
    Ok (fst bg :: fst bsg, snd bsg)
  end.

(** *** configureSignal, startSignal, stopSignal *)

(** Lines 218-220 of startSignal: the reset and idle packets queued before
    the timers are armed. *)
Definition startSignal (g : SignalGenerator) : res SignalGenerator :=
  do g <- loadBytePacket resetPacket 2 20 g;
  loadBytePacket idlePacket 2 10 g.

(** Lines 196-202 of configureSignal: [maxPackets] fresh packets on the
    free queue, no current packet.  The initial contents of [_idlePacket]
    come from the class declaration and are a parameter here. *)
Definition allocatePackets (maxPackets : nat) (idle : Packet) : SignalGenerator :=
  mkGen (replicate maxPackets newPacket) idle (seq 0 maxPackets) [] None.

Definition configureSignal (maxPackets : nat) (idle : Packet) : res SignalGenerator :=
  startSignal (allocatePackets maxPackets idle).

(** Lines 273-279: the drain loop, which uses the member [_currentPacket]
    as its loop variable. *)
Fixpoint drain (pending : list nat) (g : SignalGenerator) : res SignalGenerator :=
  match pending with
  | [] => Ok g
  | i :: rest =>
    let g := set_toSend rest (set_currentPacket (Some (PoolRef i)) g) in
    do p <- deref g (PoolRef i);
    let g := assign (PoolRef i) (memset0 p) g in
    drain rest (set_availablePackets (_availablePackets g ++ [i]) g)
  end.

(** Lines 266-279 of stopSignal (after the timers are shut down). *)
Definition stopSignal (g : SignalGenerator) : res SignalGenerator :=
  let g := match _currentPacket g with
           | Some (PoolRef i) =>
             set_currentPacket None
               (set_availablePackets (_availablePackets g ++ [i]) g)
           | _ => g
           end in
  drain (_toSend g) g.

Definition isQueueEmpty (g : SignalGenerator) : bool :=
  match _toSend g with [] => true | _ => false end.

(** ** Service mode: ADC sampling and readCV *)

Definition s16 (z : Z) : Z := (z + 32768) mod 65536 - 32768.

Definition is_int (z : Z) : Prop := - 2 ^ 31 <= z < 2 ^ 31.

(** What readCV does to the world outside it: the packets it hands to the
    programming-track generator (bytes and repeat count, in order) and
    the number of ADC conversions it has consumed.  The interrupt routine
    that empties the pending queue runs concurrently with readCV, so
    [waitForQueueEmpty] leaves no trace of its own here. *)
Record World : Type := mkWorld {
  sent : list (list Z * Z);
  conversions : nat
}.

Definition emit (data : list Z) (length : nat) (repeatCount : Z) (w : World) : World :=
  mkWorld (sent w ++ [(take length data, repeatCount)]) (conversions w).

Definition waitForQueueEmpty (w : World) : World := w.

Definition CVSampleCount : nat := 250.

Section ServiceMode.

(** [adc1_get_raw k]: the raw value of the [k]-th conversion. *)
Variable adc1_get_raw : nat -> Z.
(** [getMaxMilliAmps()] of the programming-track motor board, an
    unsigned quantity. *)
Variable maxMilliAmps : Z.

(** Lines 296-303: the sampling loop. *)
Fixpoint sampleLoop (count : nat) (current successfulReads : Z) (t : nat)
  : Z * Z * nat :=
  match count with
  | O => (current, successfulReads, t)
  | S count =>
    let reading := adc1_get_raw t in
    if decide (reading > 0)
    then sampleLoop count (u64 (current + reading)) (successfulReads + 1) (S t)
    else sampleLoop count current successfulReads (S t)
  end.

Definition sampleADCChannel (sampleCount : nat) (t : nat) : Z * nat :=
  let '(current, successfulReads, t) := sampleLoop sampleCount 0 0 t in
  if decide (successfulReads <> 0)
  then (u64 (current / successfulReads), t)
  else (current, t).

Definition sample (sampleCount : nat) (w : World) : Z * World :=
  let '(v, t) := sampleADCChannel sampleCount (conversions w) in
  (v, mkWorld (sent w) t).

(** Lines 315, 356 and 389:
    [const uint16_t milliAmpAck = 4096 * 60 / getMaxMilliAmps()];
    the integer division traps for a board that reports 0 mA. *)
Definition milliAmpAck : res Z :=
  if decide (maxMilliAmps = 0) then Fail DivideByZero
  else Ok (u16 (4096 * 60 / maxMilliAmps)).

Definition cvHeader (op cv : Z) : Z := u8 (op + Z.land (highByte (cv - 1)) 0x03).

(** Lines 322-334: one pass per bit of the CV; [ack] is the value of the
    local constant milliAmpAck. *)
Fixpoint readCVBits (ack : Z) (passes : nat) (bit : Z) (cv cvValue : Z) (w : World)
  : Z * World :=
  match passes with
  | O => (cvValue, w)
  | S passes =>
    let readCVBitPacket := [cvHeader 0x78 cv; lowByte (cv - 1); u8 (0xE8 + bit); 0x00] in
    let w := emit resetPacket 2 3 w in
    let w := emit readCVBitPacket 3 5 w in
    let w := waitForQueueEmpty w in
    let '(avg, w) := sample CVSampleCount w in
    let cvValue := if decide (avg > ack)
                   then s16 (bitSet cvValue bit) else cvValue in
    readCVBits ack passes (bit + 1) cv cvValue w
  end.

Definition readCV (cv : Z) (w : World) : res (Z * World) :=
  do ack <- milliAmpAck;
  let '(cvValue, w) := readCVBits ack 8 0 cv 0 w in
  let verifyCVBitPacket := [cvHeader 0x74 cv; lowByte (cv - 1); Z.land cvValue 0xFF; 0x00] in
  let w := emit resetPacket 2 3 w in
  let w := emit verifyCVBitPacket 3 5 w in
  let w := waitForQueueEmpty w in
  let '(avg, w) := sample CVSampleCount w in
  let verified := if decide (avg > ack) then true else false in
  Ok (if verified then cvValue else -1, w).

(** The readings of one sampling window, the strictly positive ones
    among them, and their sum. *)
Definition window (sampleCount t : nat) : list Z :=
  map adc1_get_raw (seq t sampleCount).

Definition positives (l : list Z) : list Z :=
  filter (fun r => r > 0) l.

Definition sumZ (l : list Z) : Z := foldr Z.add 0 l.


(** The acknowledge threshold as the uint16_t constant holds it. *)
Definition ackThreshold : Z := (4096 * 60 / maxMilliAmps) mod 65536.

End ServiceMode.

(** ** Vocabulary of the statements *)

(** The XOR of all bytes of a payload. *)
Definition xorAll (data : list Z) : Z := foldr Z.lxor 0 data.

(** Bit [k] of a packet as a plain boolean ([false] where the interrupt
    routine would read outside the buffer). *)
Definition bitVal (p : Packet) (k : Z) : bool :=
  match bitAt p k with
  | Ok v => v
  | Fail _ => false
  end.

(** The [numberOfBits] bits of a packet, in transmission order. *)
Definition packetBits (p : Packet) : list bool :=
  map (fun k => bitVal p (Z.of_nat k)) (seq 0 (Z.to_nat (numberOfBits p))).


Definition verifyBytePacket (cv value : Z) : list Z :=
  [0x74 + (cv - 1) / 256; (cv - 1) mod 256; value].


(** Modelled from the spec: the initial value of the member
    [_idlePacket] is part of the class declaration in SignalGenerator.h.
    The spec describes it as the NMRA idle packet 0xFF 0x00 with its
    checksum; these are the bytes loadPacket lays out for that payload.
    It is used in concrete examples only. *)
Definition idleSingleton : Packet :=
  mkPacket [0xFF; 0xFF; 0xFD; 0xFE; 0x00; 0x7F; 0x80; 0x00; 0x00; 0x00] 49 0 0.

(** What stopSignal's first block leaves in [_currentPacket]. *)
Definition afterRelease (c : option PacketRef) : option PacketRef :=
  match c with
  | Some IdleRef => Some IdleRef
  | _ => None
  end.

(** Every pool packet has the ten-byte buffer of the declaration. *)
Definition slotsOk (g : SignalGenerator) : Prop :=
  Forall (fun p => length (buffer p) = MAX_BYTES_IN_PACKET) (_pool g).

(** The pool packet the interrupt routine holds, if any. *)
Definition held (g : SignalGenerator) : list nat :=
  match _currentPacket g with
  | Some (PoolRef i) => [i]
  | _ => []
  end.

(** All pointers to pool packets the generator stores, with multiplicity. *)
Definition owned (g : SignalGenerator) : list nat :=
  _availablePackets g ++ _toSend g ++ held g.

(** |free| + |pending| + (1 if the current packet is a pool packet). *)
Definition packetCount (g : SignalGenerator) : nat :=
  (length (_availablePackets g) + length (_toSend g) + length (held g))%nat.

(** Conservation: each pool packet is referenced exactly once. *)
Definition conserved (g : SignalGenerator) : Prop :=
  owned g ≡ₚ seq 0 (length (_pool g)).

(** Interleavings of the producer and the interrupt routine. *)
Inductive op : Type :=
| Load (data : list Z) (repeats : Z)   (* a loadPacket call *)
| Tick                                 (* one timer interrupt *)
| Stop.                                (* a stopSignal call *)

Definition step (o : op) (g : SignalGenerator) : res SignalGenerator :=
  match o with
  | Load data repeats => loadPacket data repeats g
  | Tick => do bg <- getNextBitToSend g; Ok (snd bg)
  | Stop => stopSignal g
  end.

Fixpoint run (ops : list op) (g : SignalGenerator) : res SignalGenerator :=
  match ops with
  | [] => Ok g
  | o :: ops => do g <- step o g; run ops g
  end.

Definition isStop (o : op) : bool :=
  match o with Stop => true | _ => false end.

(** The repeat counts handed to loadPacket along a run, oldest first. *)
Fixpoint requested (ops : list op) : list Z :=
  match ops with
  | [] => []
  | Load _ repeats :: ops => repeats :: requested ops
  | _ :: ops => requested ops
  end.

(** A pending packet as loadPacket left it for repeat count [r]. *)
Definition readyWith (g : SignalGenerator) (i : nat) (r : Z) : Prop :=
  exists p, _pool g !! i = Some p /\ currentBit p = 0 /\ numberOfRepeats p = r.

(** The generator as configureSignal leaves it with a pool of two
    packets: the reset and the idle packet of startSignal are pending. *)
Definition bootPacket0 : Packet :=
  mkPacket [0xFF; 0xFF; 0xFC; 0x00; 0x00; 0x00; 0x00; 0x00; 0x00; 0x00] 49 20 0.
Definition bootPacket1 : Packet :=
  mkPacket [0xFF; 0xFF; 0xFD; 0xFE; 0x00; 0x7F; 0x80; 0x00; 0x00; 0x00] 49 10 0.
Definition bootState : SignalGenerator :=
  mkGen [bootPacket0; bootPacket1] idleSingleton [] [0%nat; 1%nat] None.

(** A short run of the producer and the interrupt routine on a pool of
    three packets, and the state it ends in. *)
Definition demoOps : list op :=
  [Load resetPacket 20; Load idlePacket 10; Tick; Load [0x03; 0x3F; 0x80] 4].
Definition demoState : SignalGenerator :=
  mkGen [mkPacket [0xFF; 0xFF; 0xFC; 0x00; 0x00; 0x00; 0x00; 0x00; 0x00; 0x00] 49 20 1;
         bootPacket1;
         mkPacket [0xFF; 0xFF; 0xFC; 0x06; 0x3F; 0x40; 0x2F; 0x00; 0x00; 0x00] 58 4 0]
        idleSingleton [] [1%nat; 2%nat] (Some (PoolRef 0)).

(** The invariant of the producer and the interrupt routine: ten-byte
    buffers, every pool packet referenced exactly once, and the pending
    packets as loadPacket left them for the repeat counts [reqs]. *)
Definition poolInv (g : SignalGenerator) (reqs : list Z) : Prop :=
  slotsOk g /\ conserved g /\ Forall2 (readyWith g) (_toSend g) reqs.

(** The state in which the interrupt routine plays pool packet [i],
    whose cursor is [c] and which has [r] repeats left. *)
Definition playing (g : SignalGenerator) (i : nat) (p : Packet) (r c : Z)
  : SignalGenerator :=
  mkGen (<[i := mkPacket (buffer p) (numberOfBits p) r c]> (_pool g))
        (_idlePacket g) (_availablePackets g) (_toSend g) (Some (PoolRef i)).

(** ** Service-mode writes and operations-mode writes *)

Section ServiceModeWrites.

Variable adc1_get_raw : nat -> Z.
Variable maxMilliAmps : Z.

(** Lines 363-383 and 396-416: the attempt loop that writeProgCVByte and
    writeProgCVBit share word for word, apart from the two packets.  The
    loop runs while [attempt <= maxWriteAttempts && !writeVerified];
    [attempts] counts the attempts that are left and [ack] is the value
    of the local constant milliAmpAck. *)
Fixpoint writeAttempts (ack : Z) (attempts : nat) (writePacket verifyPacket : list Z)
  (w : World) : bool * World :=
  match attempts with
  | O => (false, w)
  | S attempts =>
    let w := emit resetPacket 2 1 w in
    let w := emit writePacket 3 4 w in
    let w := waitForQueueEmpty w in
    let '(avg, w) := sample adc1_get_raw CVSampleCount w in
    let '(writeVerified, w) :=
      if decide (avg > ack) then
        let w := emit resetPacket 2 3 w in
        let w := emit verifyPacket 3 5 w in
        let w := waitForQueueEmpty w in
        let '(avg, w) := sample adc1_get_raw CVSampleCount w in
        (if decide (avg > ack) then true else false, w)
      else (false, w) in
    let w := emit resetPacket 2 3 w in
    if writeVerified then (true, w)
    else writeAttempts ack attempts writePacket verifyPacket w
  end.

Definition maxWriteAttempts : nat := 5.

Definition writeProgCVByte (cv cvValue : Z) (w : World) : res (bool * World) :=
  do ack <- milliAmpAck maxMilliAmps;
  let writeCVBytePacket := [cvHeader 0x7C cv; lowByte (cv - 1); cvValue; 0x00] in
  let verifyCVBytePacket := [cvHeader 0x74 cv; lowByte (cv - 1); cvValue; 0x00] in
  Ok (writeAttempts ack maxWriteAttempts writeCVBytePacket verifyCVBytePacket w).

Definition writeProgCVBit (cv bit : Z) (value : bool) (w : World) : res (bool * World) :=
  do ack <- milliAmpAck maxMilliAmps;
  let writeCVBitPacket :=
    [cvHeader 0x78 cv; lowByte (cv - 1); u8 (0xF0 + bit + Z.b2z value * 8); 0x00] in
  let verifyCVBitPacket :=
    [cvHeader 0x74 cv; lowByte (cv - 1); u8 (0xB0 + bit + Z.b2z value * 8); 0x00] in
  Ok (writeAttempts ack maxWriteAttempts writeCVBitPacket verifyCVBitPacket w).

End ServiceModeWrites.

(** Lines 420-441. *)
Definition writeOpsCVByte (locoNumber cv cvValue : Z) (g : SignalGenerator)
  : res SignalGenerator :=
  if decide (locoNumber > 127) then
    loadBytePacket
      [u8 (Z.lor 0xC0 (highByte locoNumber)); lowByte locoNumber;
       cvHeader 0xEC cv; lowByte (cv - 1); cvValue; 0x00] 5 4 g
  else
    loadBytePacket
      [lowByte locoNumber; cvHeader 0xEC cv; lowByte (cv - 1); cvValue; 0x00] 4 4 g.

(** Lines 443-464. *)
Definition writeOpsCVBit (locoNumber cv bit : Z) (value : bool) (g : SignalGenerator)
  : res SignalGenerator :=
  if decide (locoNumber > 127) then
    loadBytePacket
      [u8 (Z.lor 0xC0 (highByte locoNumber)); lowByte locoNumber;
       cvHeader 0xE8 cv; lowByte (cv - 1);
       u8 (0xF0 + bit + Z.b2z value * 8); 0x00] 5 4 g
  else
    loadBytePacket
      [lowByte locoNumber; cvHeader 0xE8 cv; lowByte (cv - 1);
       u8 (0xF0 + bit + Z.b2z value * 8); 0x00] 4 4 g.

(** ** Further vocabulary *)

(** The payload of an operations-mode CV write, with the address and the
    CV number split by division and remainder. *)
Definition opsAddress (locoNumber : Z) : list Z :=
  if decide (locoNumber > 127)
  then [192 + locoNumber / 256; locoNumber mod 256]
  else [locoNumber].

Definition opsBytePayload (locoNumber cv cvValue : Z) : list Z :=
  opsAddress locoNumber ++ [236 + (cv - 1) / 256; (cv - 1) mod 256; cvValue].

Definition opsBitPayload (locoNumber cv bit : Z) (value : bool) : list Z :=
  opsAddress locoNumber ++
    [232 + (cv - 1) / 256; (cv - 1) mod 256; 240 + bit + Z.b2z value * 8].

(** The number of interrupts a packet occupies the generator, and the
    bits sent in them: [numberOfRepeats + 1] passes over its bits. *)
Definition playTime (p : Packet) : nat :=
  (S (Z.to_nat (numberOfRepeats p)) * Z.to_nat (numberOfBits p))%nat.

Definition playBits (p : Packet) : list bool :=
  concat (replicate (S (Z.to_nat (numberOfRepeats p))) (packetBits p)).

(** A packet whose bits lie inside its buffer. *)
Definition bitsInBuffer (p : Packet) : Prop :=
  1 <= numberOfBits p <= 8 * Z.of_nat (length (buffer p)).

(** The cursor discipline of the interrupt routine: pending packets start
    at bit 0, the current packet's cursor is between 0 and its number of
    bits, and every packet that can be played lies inside its buffer. *)
Definition cursorsOk (g : SignalGenerator) : Prop :=
  bitsInBuffer (_idlePacket g) /\
  Forall (fun i => exists p, _pool g !! i = Some p /\
                             currentBit p = 0 /\ bitsInBuffer p) (_toSend g) /\
  (forall r, _currentPacket g = Some r ->
     exists p, deref g r = Ok p /\
               0 <= currentBit p <= numberOfBits p /\ bitsInBuffer p).

(** The current packet, if any, has a bit left under its cursor. *)
Definition currentInside (g : SignalGenerator) : Prop :=
  forall r p, _currentPacket g = Some r -> deref g r = Ok p ->
              currentBit p < numberOfBits p.

(** The generator while it plays the idle packet with cursor [c] and
    [r] in its repeat counter. *)
Definition idling (g : SignalGenerator) (r c : Z) : SignalGenerator :=
  mkGen (_pool g)
        (mkPacket (buffer (_idlePacket g)) (numberOfBits (_idlePacket g)) r c)
        (_availablePackets g) (_toSend g) (Some IdleRef).

(** The service-mode write packets and the verify packet of a bit write,
    with the CV number split by division and remainder. *)
Definition writeBytePacket (cv value : Z) : list Z :=
  [0x7C + (cv - 1) / 256; (cv - 1) mod 256; value].

Definition writeBitPacket (cv bit : Z) (value : bool) : list Z :=
  [0x78 + (cv - 1) / 256; (cv - 1) mod 256; 0xF0 + bit + Z.b2z value * 8].

Definition verifyWrittenBitPacket (cv bit : Z) (value : bool) : list Z :=
  [0x74 + (cv - 1) / 256; (cv - 1) mod 256; 0xB0 + bit + Z.b2z value * 8].

(** The packets of one attempt of a service-mode write that draws no
    acknowledgement, and of one whose write packet is acknowledged, so
    that the verify packet is sent too. *)
Definition failedAttempt (writePacket : list Z) : list (list Z * Z) :=
  [(resetPacket, 1); (take 3 writePacket, 4); (resetPacket, 3)].

Definition verifiedAttempt (writePacket verifyPacket : list Z) : list (list Z * Z) :=
  [(resetPacket, 1); (take 3 writePacket, 4); (resetPacket, 3);
   (take 3 verifyPacket, 5); (resetPacket, 3)].

(** What every service-mode write leaves behind.  [acks] tells, attempt
    by attempt, whether the write packet was acknowledged (and so the
    verify packet sent): there are between one and five attempts, each
    hands over the packets of its kind and takes one sampling window,
    plus one more when its write was acknowledged; [true] is returned
    only when the last attempt's write was acknowledged, and [false] only
    after the fifth attempt. *)
Definition writeOutcome (w : World) (failed acknowledged : list (list Z * Z))
  (result : bool * World) : Prop :=
  exists acks : list bool,
    (1 <= length acks <= 5)%nat /\
    sent (snd result) =
      sent w ++ concat (map (fun a : bool => if a then acknowledged else failed) acks) /\
    conversions (snd result) =
      (conversions w
       + sum_list (map (fun a : bool => if a then 2 else 1) acks) * CVSampleCount)%nat /\
    (fst result = true -> last acks = Some true) /\
    (fst result = false -> length acks = 5%nat).

(** A decoder's reading of a packet: the bytes behind the preamble, each
    taken most significant bit first from the eight bits that follow its
    start bit. *)
Fixpoint readBits (n : nat) (p : Packet) (pos acc : Z) : res Z :=
  match n with
  | O => Ok acc
  | S n => do b <- bitAt p pos; readBits n p (pos + 1) (2 * acc + Z.b2z b)
  end.

Definition byteAt (p : Packet) (pos : Z) : res Z := readBits 8 p pos 0.

Fixpoint readBytes (n : nat) (p : Packet) (pos : Z) : res (list Z) :=
  match n with
  | O => Ok []
  | S n =>
    do d <- byteAt p pos;
    do ds <- readBytes n p (pos + 9);
    Ok (d :: ds)
  end.

Definition decodePacket (p : Packet) : res (list Z) :=
  readBytes (Z.to_nat ((numberOfBits p - 22) / 9)) p 23.

(** Bit [k] of a buffer, counting from the most significant bit of its
    first byte ([false] outside the buffer), and the [numberOfBits] bits
    a packet stores. *)
Definition bufferBit (b : list Z) (k : Z) : bool :=
  match b !! Z.to_nat (k / 8) with
  | Some byte => Z.testbit byte (7 - k mod 8)
  | None => false
  end.

Definition storedBits (p : Packet) : list bool :=
  map (fun k => bufferBit (buffer p) (Z.of_nat k)) (seq 0 (Z.to_nat (numberOfBits p))).

(** configureSignal, one timer interrupt, stopSignal and startSignal
    again; and the same followed by an interrupt and 63 loadPacket calls. *)
Definition restartOps : list op :=
  [Load resetPacket 20; Load idlePacket 10; Tick; Stop;
   Load resetPacket 20; Load idlePacket 10].

Definition burstOps : list op :=
  restartOps ++ [Tick] ++ replicate 62 (Load idlePacket 0) ++ [Load resetPacket 3].

(** * Proofs *)

(** ** Bit-level facts about bytes *)

Lemma bitRead_cases v b : bitRead v b = 0 \/ bitRead v b = 1.
Proof.
  unfold bitRead.
  assert (Z.land (Z.shiftr v b) 1 = Z.shiftr v b mod 2) as ->.
  { apply (Z.land_ones _ 1). lia. }
  pose proof (Z.mod_pos_bound (Z.shiftr v b) 2). lia.
Qed.

Lemma mask_testbit x j :
  0 <= j -> negb (Z.land x (2 ^ j) =? 0) = Z.testbit x j.
Proof.
  intros Hj. destruct (Z.testbit x j) eqn:E.
  - apply negb_true_iff, Z.eqb_neq. intros H0.
    assert (Z.testbit (Z.land x (2 ^ j)) j = true) as Hb.
    { rewrite Z.land_spec, E, Z.pow2_bits_true; auto. }
    rewrite H0, Z.bits_0 in Hb. discriminate.
  - apply negb_false_iff, Z.eqb_eq, Z.bits_inj'. intros n Hn.
    rewrite Z.land_spec, Z.bits_0.
    destruct (decide (n = j)) as [->|Hne].
    + by rewrite E.
    + rewrite (Z.pow2_bits_false j n) by lia. apply andb_false_r.
Qed.

Lemma u8_testbit_low z j : 0 <= j < 8 -> Z.testbit (u8 z) j = Z.testbit z j.
Proof.
  intros Hj. unfold u8. change 256 with (2 ^ 8).
  apply Z.mod_pow2_bits_low. lia.
Qed.

Lemma u8_shiftl_testbit c s :
  0 <= s < 8 -> Z.testbit (u8 (Z.shiftl c s)) s = Z.testbit c 0.
Proof.
  intros Hs. rewrite u8_testbit_low by lia.
  rewrite Z.shiftl_spec by lia. f_equal. lia.
Qed.

Lemma bitMask_pow2 m :
  0 <= m < 8 -> load m bitMask = Ok (2 ^ (7 - m)).
Proof.
  intros Hm.
  assert (m = 0 \/ m = 1 \/ m = 2 \/ m = 3 \/ m = 4 \/ m = 5 \/ m = 6 \/ m = 7)
    as Hc by lia.
  repeat (destruct Hc as [-> | Hc]; [reflexivity|]). by subst.
Qed.

(** The routine reads its bits most significant first. *)
Lemma bitAt_testbit p k byte :
  0 <= k ->
  buffer p !! Z.to_nat (k / 8) = Some byte ->
  bitAt p k = Ok (Z.testbit byte (7 - k mod 8)).
Proof.
  intros Hk Hb. unfold bitAt, load at 1.
  rewrite decide_True by (apply Z.div_pos; lia).
  rewrite Hb. simpl.
  pose proof (Z.mod_pos_bound k 8 ltac:(lia)) as Hm.
  rewrite bitMask_pow2 by lia. simpl.
  by rewrite mask_testbit by lia.
Qed.

Lemma bitAt_in_range p k :
  0 <= k < 8 * Z.of_nat (length (buffer p)) ->
  bitAt p k = Ok (bitVal p k).
Proof.
  intros Hk.
  assert (Z.to_nat (k / 8) < length (buffer p))%nat as Hlt.
  { assert (k / 8 < Z.of_nat (length (buffer p))).
    { apply Z.div_lt_upper_bound; lia. }
    assert (0 <= k / 8) by (apply Z.div_pos; lia). lia. }
  destruct (lookup_lt_is_Some_2 _ _ Hlt) as [byte Hb].
  unfold bitVal. by rewrite (bitAt_testbit p k byte) by (lia || done).
Qed.

(** ** The checksum and the frame *)

Lemma fold_left_lxor l a : fold_left Z.lxor l a = Z.lxor a (xorAll l).
Proof.
  revert a. induction l as [|x l IH]; intros a; simpl.
  - by rewrite Z.lxor_0_r.
  - rewrite IH. unfold xorAll. simpl. by rewrite Z.lxor_assoc.
Qed.

Lemma checksum_xorAll data :
  data <> [] -> checksum data = Ok (xorAll data).
Proof.
  destruct data as [|d0 data]; [done|]. intros _.
  unfold checksum. simpl. rewrite drop_0. by rewrite fold_left_lxor.
Qed.

Lemma xorAll_u8 data : Forall is_u8 data -> is_u8 (xorAll data).
Proof.
  induction 1 as [|x l Hx Hl IH]; unfold is_u8 in *; simpl; [lia|].
  assert (0 <= Z.lxor x (xorAll l)) by (apply Z.lxor_nonneg; lia).
  assert (Z.lxor x (xorAll l) < 2 ^ 8); [|lia].
  destruct (decide (Z.lxor x (xorAll l) = 0)) as [->|Hne]; [lia|].
  apply Z.log2_lt_pow2; [lia|].
  eapply Z.le_lt_trans; [apply Z.log2_lxor; lia|].
  apply Z.max_lub_lt.
  - destruct (decide (x = 0)) as [->|]; [simpl; lia|].
    apply Z.log2_lt_pow2; lia.
  - destruct (decide (xorAll l = 0)) as [->|]; [simpl; lia|].
    apply Z.log2_lt_pow2; lia.
Qed.

(** ** loadPacket *)

Ltac ten_bytes p Hlen :=
  let b := fresh "b" in
  destruct p as [b ? ? ?]; simpl in Hlen;
  do 10 (destruct b as [|? b]; [discriminate Hlen|]);
  destruct b; [clear Hlen | discriminate Hlen].

(** What lines 129-156 leave in a ten-byte buffer, for a frame of at least
    three bytes: the counters the block does not touch, the bit count, the
    three preamble bytes and the byte that carries the end of the frame. *)
Lemma fillBuffer_spec fr p d0 :
  length (buffer p) = MAX_BYTES_IN_PACKET ->
  (3 <= length fr)%nat ->
  fr !! 0%nat = Some d0 ->
  exists q,
    fillBuffer fr p = Ok q /\
    numberOfRepeats q = numberOfRepeats p /\
    currentBit q = currentBit p /\
    length (buffer q) = MAX_BYTES_IN_PACKET /\
    numberOfBits q = 22 + 9 * Z.of_nat (length fr `min` 6) /\
    buffer q !! 0%nat = Some 0xFF /\
    buffer q !! 1%nat = Some 0xFF /\
    buffer q !! 2%nat = Some (u8 (0xFC + bitRead d0 7)) /\
    (forall c, (length fr <= 6)%nat -> last fr = Some c ->
       buffer q !! (length fr + 3)%nat = Some (u8 (Z.shiftl c (10 - Z.of_nat (length fr))))).
Proof.
  intros Hlen H3 H0. ten_bytes p Hlen.
  destruct fr as [|e0 [|e1 [|e2 rest]]]; simpl in H3; try lia.
  simpl in H0. injection H0 as ->.
  destruct rest as [|e3 [|e4 [|e5 rest]]].
  - eexists. split; [reflexivity|]. repeat split; try reflexivity.
    intros c _ Hc. simpl in Hc. by injection Hc as ->.
  - eexists. split; [reflexivity|]. repeat split; try reflexivity.
    intros c _ Hc. simpl in Hc. by injection Hc as ->.
  - eexists. split; [reflexivity|]. repeat split; try reflexivity.
    intros c _ Hc. simpl in Hc. by injection Hc as ->.
  - eexists. split; [reflexivity|]. do 3 (split; [reflexivity|]).
    split; [simpl; lia|]. do 3 (split; [reflexivity|]).
    intros c Hle Hc. simpl in Hle.
    destruct rest; [|simpl in Hle; lia].
    simpl in Hc. by injection Hc as ->.
Qed.

Lemma frame_Ok data :
  data <> [] -> frame data = Ok (data ++ [xorAll data]).
Proof. intros H. unfold frame. by rewrite checksum_xorAll. Qed.

(** loadPacket on a generator whose free queue starts with a ten-byte
    pool packet: the call goes through for every payload of two or more
    bytes, moving the packet from the free queue to the pending queue. *)
Lemma loadPacket_Ok g i avail p data r :
  _availablePackets g = i :: avail ->
  _pool g !! i = Some p ->
  length (buffer p) = MAX_BYTES_IN_PACKET ->
  (2 <= length data)%nat ->
  exists q,
    fillBuffer (data ++ [xorAll data])
      (set_currentBit 0 (set_numberOfRepeats r p)) = Ok q /\
    loadPacket data r g =
      Ok (mkGen (<[i := q]> (_pool g)) (_idlePacket g) avail
                (_toSend g ++ [i]) (_currentPacket g)).
Proof.
  intros Ha Hp Hlen Hn.
  assert (data <> []) as Hne by (destruct data; [simpl in Hn; lia | done]).
  destruct data as [|d0 data']; [done|].
  destruct (fillBuffer_spec ((d0 :: data') ++ [xorAll (d0 :: data')])
              (set_currentBit 0 (set_numberOfRepeats r p)) d0)
    as (q & Hq & _); [done | rewrite length_app; simpl in *; lia | done |].
  exists q. split; [done|].
  unfold loadPacket. rewrite Ha. cbn [deref]. rewrite Hp. cbn [of_option bind].
  rewrite frame_Ok by done. cbn [bind]. rewrite Hq. reflexivity.
Qed.

(** *** The bit layout of the frame *)

Lemma byte_high_bit d i : is_u8 d -> 8 <= i -> Z.testbit d i = false.
Proof.
  intros [H0 H1] Hi. destruct (decide (d = 0)) as [->|]; [apply Z.bits_0|].
  apply Z.bits_above_log2; [lia|].
  assert (Z.log2 d < 8); [|lia]. apply Z.log2_lt_pow2; lia.
Qed.

Lemma bitRead_b2z v b : 0 <= b -> bitRead v b = Z.b2z (Z.testbit v b).
Proof.
  intros Hb. unfold bitRead.
  transitivity (Z.shiftr v b mod 2 ^ 1); [apply (Z.land_ones _ 1); lia|].
  change (2 ^ 1) with 2. rewrite <- Z.bit0_mod, Z.shiftr_spec by lia.
  by rewrite Z.add_0_l.
Qed.

Lemma shiftl_bit x s i : 0 <= s -> Z.testbit (Z.shiftl x s) i = Z.testbit x (i - s).
Proof.
  intros Hs. destruct (decide (0 <= i)).
  - by apply Z.shiftl_spec.
  - rewrite !Z.testbit_neg_r by lia. done.
Qed.

Lemma shiftr_bit x s i : 0 <= i -> Z.testbit (Z.shiftr x s) i = Z.testbit x (i + s).
Proof. intros. by apply Z.shiftr_spec. Qed.

Lemma add_disjoint_bit x s y t i :
  is_u8 y -> 0 <= s -> 0 <= t -> 8 <= s + t -> 0 <= i < 8 ->
  Z.testbit (u8 (u8 (Z.shiftl x s) + Z.shiftr y t)) i =
  Z.testbit x (i - s) || Z.testbit y (i + t).
Proof.
  intros Hy Hs Ht Hst Hi.
  assert (Z.land (u8 (Z.shiftl x s)) (Z.shiftr y t) = 0) as Hdis.
  { apply Z.bits_inj'. intros n Hn. rewrite Z.land_spec, Z.bits_0.
    rewrite shiftr_bit by lia.
    destruct (decide (n < s)).
    - destruct (decide (n < 8)).
      + rewrite u8_testbit_low, shiftl_bit by lia.
        by rewrite (Z.testbit_neg_r x) by lia.
      + unfold u8. change 256 with (2 ^ 8).
        rewrite Z.mod_pow2_bits_high by lia. done.
    - rewrite (byte_high_bit y) by (done || lia). apply andb_false_r. }
  rewrite u8_testbit_low by lia.
  rewrite (Z.add_nocarry_lxor _ _ Hdis), Z.lxor_spec.
  rewrite u8_testbit_low, shiftl_bit, shiftr_bit by lia.
  destruct (decide (i < s)).
  - by rewrite (Z.testbit_neg_r x) by lia.
  - rewrite (byte_high_bit y) by (done || lia).
    by rewrite xorb_false_r, orb_false_r.
Qed.

Lemma preamble_tail_bit d : Z.testbit (u8 (0xFC + bitRead d 7)) 0 = Z.testbit d 7.
Proof. rewrite bitRead_b2z by lia. by destruct (Z.testbit d 7). Qed.

Lemma preamble_start_bit d : Z.testbit (u8 (0xFC + bitRead d 7)) 1 = false.
Proof. rewrite bitRead_b2z by lia. by destruct (Z.testbit d 7). Qed.

Ltac lit_index :=
  repeat match goal with
         | |- context [Z.testbit ?a (?f ?x ?y)] =>
           let v := eval vm_compute in (f x y) in change (f x y) with v
         end.

Ltac byte_bit :=
  lit_index;
  first
    [ rewrite preamble_tail_bit
    | rewrite preamble_start_bit
    | rewrite add_disjoint_bit by (assumption || lia)
    | rewrite u8_testbit_low, shiftl_bit by lia
    | rewrite u8_testbit_low, shiftr_bit by lia
    | idtac ];
  lit_index;
  repeat first
    [ rewrite Z.testbit_neg_r by lia
    | match goal with
      | H : is_u8 ?y |- context [Z.testbit ?y ?i] =>
        rewrite (byte_high_bit y i H) by lia
      end ];
  rewrite ?orb_false_r, ?orb_false_l; reflexivity.

Ltac layout_bit q :=
  match goal with
  | |- bitAt q ?k = _ =>
    let idx := eval vm_compute in (Z.to_nat (k / 8)) in
    let byte := eval cbn in (nth idx (buffer q) 0) in
    rewrite (bitAt_testbit q k byte ltac:(lia) eq_refl); f_equal; byte_bit
  end.


Ltac layout_goal :=
  match goal with |- bitAt ?q _ = _ => layout_bit q end.

Ltac split_bytes :=
  repeat match goal with
         | H : Forall is_u8 (_ :: _) |- _ => apply Forall_cons in H as [? H]
         end.

Ltac eight_cases j :=
  let Hc := fresh "Hc" in
  assert (j = 0 \/ j = 1 \/ j = 2 \/ j = 3 \/ j = 4 \/ j = 5 \/ j = 6 \/ j = 7)
    as Hc by lia;
  repeat (destruct Hc as [-> | Hc]); [..| subst j].

Lemma fillBuffer_layout fr p q :
  length (buffer p) = MAX_BYTES_IN_PACKET ->
  Forall is_u8 fr ->
  (3 <= length fr <= 6)%nat ->
  fillBuffer fr p = Ok q ->
  (forall k j d, fr !! k = Some d -> 0 <= j < 8 ->
     bitAt q (23 + 9 * Z.of_nat k + j) = Ok (Z.testbit d (7 - j))) /\
  (forall k, (k < length fr)%nat -> bitAt q (22 + 9 * Z.of_nat k) = Ok false).
Proof.
  intros Hlen Hbytes Hn Hq. ten_bytes p Hlen.
  destruct fr as [|e0 [|e1 [|e2 rest]]]; simpl in Hn; try lia.
  destruct rest as [|e3 [|e4 [|e5 [|e6 rest]]]]; simpl in Hn; try lia;
    split_bytes; injection Hq as <-; split.
  all: try (intros k j d Hk Hj;
            repeat (destruct k as [|k]; [injection Hk as <-; eight_cases j; layout_goal|]);
            discriminate Hk).
  all: intros k Hk;
       repeat (destruct k as [|k]; [layout_goal|]); simpl in Hk; lia.
Qed.

(** The frame as loadPacket lays it out, for payloads of 2 to 5 bytes:
    after the 22 preamble bits, each byte of the payload and then the
    checksum is preceded by a 0 bit and sent most significant bit first. *)
Lemma loadPacket_frame_layout g i avail p data r :
  _availablePackets g = i :: avail ->
  _pool g !! i = Some p ->
  length (buffer p) = MAX_BYTES_IN_PACKET ->
  Forall is_u8 data ->
  (2 <= length data <= 5)%nat ->
  exists g' q,
    loadPacket data r g = Ok g' /\
    _pool g' !! i = Some q /\
    (forall k j d, (data ++ [xorAll data]) !! k = Some d -> 0 <= j < 8 ->
       bitAt q (23 + 9 * Z.of_nat k + j) = Ok (Z.testbit d (7 - j))) /\
    (forall k, (k <= length data)%nat -> bitAt q (22 + 9 * Z.of_nat k) = Ok false).
Proof.
  intros Ha Hp Hlen Hbytes Hn.
  destruct (loadPacket_Ok g i avail p data r) as (q & Hq & Hload);
    [done | done | done | lia |].
  apply fillBuffer_layout in Hq as [Hbits Hseps];
    [| done | apply Forall_app; split; [done | by repeat constructor; apply xorAll_u8]
     | rewrite length_app; simpl; lia].
  eexists _, q. split; [exact Hload|]. split.
  { simpl. apply list_lookup_insert_eq. by eapply lookup_lt_Some. }
  split; [exact Hbits|].
  intros k Hk. apply Hseps. rewrite length_app. simpl. lia.
Qed.

Ltac read_bit q H :=
  match goal with
  | |- bitAt q ?k = _ => rewrite (bitAt_testbit q k _ ltac:(lia) H)
  end.

Lemma last_snoc_frame data : last (data ++ [xorAll data]) = Some (xorAll data).
Proof. apply last_snoc. Qed.

(** C1 (as amended): a packet that loadPacket builds from a payload of
    2 to 5 bytes and appends to the pending queue has bits 0..21 of its
    buffer set, bit 22 clear, and its last valid bit (position
    numberOfBits - 1) equal to the least significant bit of the XOR
    checksum; the buffer holds no closing 1 bit. *)
Theorem loadPacket_preamble_and_last_bit g i avail p data r :
  _availablePackets g = i :: avail ->
  _pool g !! i = Some p ->
  length (buffer p) = MAX_BYTES_IN_PACKET ->
  (2 <= length data <= 5)%nat ->
  exists g' q,
    loadPacket data r g = Ok g' /\
    _toSend g' = _toSend g ++ [i] /\
    _pool g' !! i = Some q /\
    (forall k, 0 <= k < 22 -> bitAt q k = Ok true) /\
    bitAt q 22 = Ok false /\
    bitAt q (numberOfBits q - 1) = Ok (Z.testbit (xorAll data) 0).
Proof.
  intros Ha Hp Hlen Hn.
  destruct (loadPacket_Ok g i avail p data r) as (q & Hq & Hload);
    [done | done | done | lia |].
  destruct data as [|d0 data']; simpl in Hn; [lia|].
  destruct (fillBuffer_spec ((d0 :: data') ++ [xorAll (d0 :: data')])
              (set_currentBit 0 (set_numberOfRepeats r p)) d0)
    as (q' & Hq' & _ & _ & Hlq & Hbits & H0 & H1 & H2 & Hlast);
    [done | rewrite length_app; simpl; lia | done |].
  rewrite Hq in Hq'. injection Hq' as <-.
  eexists _, q. split; [exact Hload|]. split; [done|]. split.
  { simpl. apply list_lookup_insert_eq. by eapply lookup_lt_Some. }
  split; [|split].
  - intros k Hk.
    assert (k = 0 \/ k = 1 \/ k = 2 \/ k = 3 \/ k = 4 \/ k = 5 \/ k = 6 \/
            k = 7 \/ k = 8 \/ k = 9 \/ k = 10 \/ k = 11 \/ k = 12 \/ k = 13 \/
            k = 14 \/ k = 15 \/ k = 16 \/ k = 17 \/ k = 18 \/ k = 19 \/
            k = 20 \/ k = 21) as Hc by lia.
    destruct (bitRead_cases d0 7) as [E|E]; rewrite E in H2;
      repeat (destruct Hc as [-> | Hc];
              [first [ by read_bit q H0 | by read_bit q H1 | by read_bit q H2 ] |]);
      subst k; by read_bit q H2.
  - destruct (bitRead_cases d0 7) as [E|E]; rewrite E in H2;
      by read_bit q H2.
  - specialize (Hlast (xorAll (d0 :: data'))).
    rewrite length_app in Hlast, Hbits. simpl length in *.
    rewrite last_snoc_frame in Hlast.
    assert (length data' = 1 \/ length data' = 2 \/ length data' = 3 \/
            length data' = 4)%nat as Hc by lia.
    destruct Hc as [E | [E | [E | E]]]; rewrite E in Hlast, Hbits;
      specialize (Hlast ltac:(simpl; lia) eq_refl);
      rewrite Hbits;
      read_bit q Hlast; f_equal;
      first [ exact (u8_shiftl_testbit _ 7 ltac:(lia))
            | exact (u8_shiftl_testbit _ 6 ltac:(lia))
            | exact (u8_shiftl_testbit _ 5 ltac:(lia))
            | exact (u8_shiftl_testbit _ 4 ltac:(lia)) ].
Qed.

Lemma loadPacket_preamble_and_last_bit_witness :
  exists g' q,
    loadPacket idlePacket 10 (allocatePackets 2 newPacket) = Ok g' /\
    _toSend g' = [] ++ [0%nat] /\
    _pool g' !! 0%nat = Some q /\
    (forall k, 0 <= k < 22 -> bitAt q k = Ok true) /\
    bitAt q 22 = Ok false /\
    bitAt q (numberOfBits q - 1) = Ok (Z.testbit (xorAll idlePacket) 0).
Proof.
  apply (loadPacket_preamble_and_last_bit
           (allocatePackets 2 newPacket) 0%nat [1%nat] newPacket idlePacket 10).
  - reflexivity.
  - reflexivity.
  - reflexivity.
  - simpl. lia.
Defined.

(** C1 (as stated) fails on the reset packet that startSignal queues:
    its checksum is 0, so bit 48, the last of its 49 bits, is 0. *)
Lemma reset_packet_last_bit_is_zero :
  exists g' q,
    loadPacket resetPacket 20 (allocatePackets 2 newPacket) = Ok g' /\
    _toSend g' = [0%nat] /\
    _pool g' !! 0%nat = Some q /\
    numberOfBits q = 49 /\
    bitAt q (numberOfBits q - 1) = Ok false.
Proof. eexists _, _. repeat split; reflexivity. Qed.

(** C2 (as amended): for a payload of n bytes, n in 2..5, loadPacket sets
    numberOfBits to 22 + 9*(n+1) = 9n + 31, which is 49, 58, 67, 76 for
    n = 2, 3, 4, 5. *)
Theorem loadPacket_numberOfBits g i avail p data r :
  _availablePackets g = i :: avail ->
  _pool g !! i = Some p ->
  length (buffer p) = MAX_BYTES_IN_PACKET ->
  (2 <= length data <= 5)%nat ->
  exists g' q,
    loadPacket data r g = Ok g' /\
    _toSend g' = _toSend g ++ [i] /\
    _pool g' !! i = Some q /\
    numberOfBits q = 22 + 9 * (Z.of_nat (length data) + 1) /\
    numberOfBits q = 9 * Z.of_nat (length data) + 31 /\
    [49; 58; 67; 76] !! (length data - 2)%nat = Some (numberOfBits q).
Proof.
  intros Ha Hp Hlen Hn.
  destruct (loadPacket_Ok g i avail p data r) as (q & Hq & Hload);
    [done | done | done | lia |].
  destruct data as [|d0 data']; simpl in Hn; [lia|].
  destruct (fillBuffer_spec ((d0 :: data') ++ [xorAll (d0 :: data')])
              (set_currentBit 0 (set_numberOfRepeats r p)) d0)
    as (q' & Hq' & _ & _ & _ & Hbits & _);
    [done | rewrite length_app; simpl; lia | done |].
  rewrite Hq in Hq'. injection Hq' as <-.
  eexists _, q. split; [exact Hload|]. split; [done|]. split.
  { simpl. apply list_lookup_insert_eq. by eapply lookup_lt_Some. }
  rewrite length_app in Hbits. simpl length in *.
  assert (length data' = 1 \/ length data' = 2 \/ length data' = 3 \/
          length data' = 4)%nat as Hc by lia.
  destruct Hc as [E | [E | [E | E]]]; rewrite E in Hbits |- *;
    rewrite Hbits; repeat split; reflexivity.
Qed.

Lemma loadPacket_numberOfBits_witness :
  exists g' q,
    loadPacket [0x03; 0x3F; 0x80] 0 (allocatePackets 2 newPacket) = Ok g' /\
    _toSend g' = [] ++ [0%nat] /\
    _pool g' !! 0%nat = Some q /\
    numberOfBits q = 22 + 9 * (3 + 1) /\
    numberOfBits q = 9 * 3 + 31 /\
    [49; 58; 67; 76] !! 1%nat = Some (numberOfBits q).
Proof.
  apply (loadPacket_numberOfBits
           (allocatePackets 2 newPacket) 0%nat [1%nat] newPacket
           [0x03; 0x3F; 0x80] 0).
  - reflexivity.
  - reflexivity.
  - reflexivity.
  - simpl. lia.
Defined.

(** C2 (as stated) fails: for the two-byte reset packet the code sets 49
    bits, while 22 + 9*(2+1) - 1 = 9*2 + 30 is 48. *)
Lemma numberOfBits_is_not_9n_plus_30 :
  exists g' q,
    loadPacket resetPacket 20 (allocatePackets 2 newPacket) = Ok g' /\
    _pool g' !! 0%nat = Some q /\
    numberOfBits q = 49 /\
    numberOfBits q <> 22 + 9 * (Z.of_nat (length resetPacket) + 1) - 1 /\
    numberOfBits q <> 9 * Z.of_nat (length resetPacket) + 30.
Proof. eexists _, _. repeat split; try reflexivity; simpl; lia. Qed.

(** For a non-empty payload of n bytes, the checksum loop yields the XOR
    of all n bytes, and the vector after push_back is the payload
    followed by that byte: n + 1 bytes, the checksum at position n. *)
Lemma frame_checksum data :
  data <> [] ->
  exists fr,
    frame data = Ok fr /\
    length fr = S (length data) /\
    fr !! length data = Some (xorAll data) /\
    take (length data) fr = data /\
    checksum data = Ok (xorAll data).
Proof.
  intros Hne. exists (data ++ [xorAll data]).
  split; [by apply frame_Ok|].
  split; [rewrite length_app; simpl; lia|].
  split; [by rewrite lookup_app_r, Nat.sub_diag by lia|].
  split; [by rewrite take_app_length|].
  by apply checksum_xorAll.
Qed.

(** loadPacket on a payload of 2 to 5 bytes: the queued packet, its
    counters and the bits of its frame. *)
Lemma loadPacket_on_track g i avail p data r :
  _availablePackets g = i :: avail ->
  _pool g !! i = Some p ->
  length (buffer p) = MAX_BYTES_IN_PACKET ->
  Forall is_u8 data ->
  (2 <= length data <= 5)%nat ->
  exists g' q,
    loadPacket data r g = Ok g' /\
    _toSend g' = _toSend g ++ [i] /\
    _pool g' !! i = Some q /\
    numberOfRepeats q = r /\
    currentBit q = 0 /\
    numberOfBits q = 22 + 9 * Z.of_nat (S (length data)) /\
    (forall k j d, (data ++ [xorAll data]) !! k = Some d -> 0 <= j < 8 ->
       bitAt q (23 + 9 * Z.of_nat k + j) = Ok (Z.testbit d (7 - j))) /\
    (forall k, (k <= length data)%nat -> bitAt q (22 + 9 * Z.of_nat k) = Ok false).
Proof.
  intros Ha Hp Hlen Hbytes Hrange.
  destruct (loadPacket_Ok g i avail p data r) as (q & Hq & Hload);
    [done | done | done | lia |].
  destruct data as [|d0 data'] eqn:Hdata; [simpl in Hrange; lia|].
  destruct (fillBuffer_spec ((d0 :: data') ++ [xorAll (d0 :: data')])
              (set_currentBit 0 (set_numberOfRepeats r p)) d0)
    as (q' & Hq' & Hrq & Hcq & _ & Hbits & _);
    [done | rewrite length_app; simpl in *; lia | done |].
  rewrite Hq in Hq'. injection Hq' as <-.
  apply fillBuffer_layout in Hq as [Hlay Hseps];
    [| done | apply Forall_app; split; [done | by repeat constructor; apply xorAll_u8]
     | rewrite length_app; simpl in *; lia].
  eexists _, q. split; [exact Hload|]. split; [done|]. split.
  { simpl. apply list_lookup_insert_eq. by eapply lookup_lt_Some. }
  split; [done|]. split; [done|]. split.
  { rewrite Hbits, length_app. simpl length in *.
    replace (S (length data') + 1)%nat with (S (S (length data'))) by lia.
    rewrite Nat.min_l by lia. done. }
  split; [exact Hlay|].
  intros k Hk. apply Hseps. rewrite length_app. simpl in *. lia.
Qed.

(** ** Reading a packet back *)

Lemma byte_from_bits d :
  is_u8 d ->
  2 * (2 * (2 * (2 * (2 * (2 * (2 * (2 * 0 + Z.b2z (Z.testbit d 7))
    + Z.b2z (Z.testbit d 6)) + Z.b2z (Z.testbit d 5)) + Z.b2z (Z.testbit d 4))
    + Z.b2z (Z.testbit d 3)) + Z.b2z (Z.testbit d 2)) + Z.b2z (Z.testbit d 1))
    + Z.b2z (Z.testbit d 0) = d.
Proof.
  intros Hd. unfold is_u8 in Hd.
  rewrite !Z.testbit_spec' by lia.
  change (2 ^ 0) with 1. change (2 ^ 1) with 2. change (2 ^ 2) with 4.
  change (2 ^ 3) with 8. change (2 ^ 4) with 16. change (2 ^ 5) with 32.
  change (2 ^ 6) with 64. change (2 ^ 7) with 128.
  pose proof (Z.div_mod d 2 ltac:(lia)).
  pose proof (Z.div_mod (d / 2) 2 ltac:(lia)).
  pose proof (Z.div_mod (d / 2 / 2) 2 ltac:(lia)).
  pose proof (Z.div_mod (d / 2 / 2 / 2) 2 ltac:(lia)).
  pose proof (Z.div_mod (d / 2 / 2 / 2 / 2) 2 ltac:(lia)).
  pose proof (Z.div_mod (d / 2 / 2 / 2 / 2 / 2) 2 ltac:(lia)).
  pose proof (Z.div_mod (d / 2 / 2 / 2 / 2 / 2 / 2) 2 ltac:(lia)).
  pose proof (Z.div_mod (d / 2 / 2 / 2 / 2 / 2 / 2 / 2) 2 ltac:(lia)).
  assert (d / 2 / 2 / 2 / 2 / 2 / 2 / 2 / 2 = 0) as Htop.
  { rewrite !Z.div_div by lia. apply Z.div_small. lia. }
  replace (d / 1) with d by (by rewrite Z.div_1_r).
  replace (d / 4) with (d / 2 / 2) by (rewrite Z.div_div by lia; done).
  replace (d / 8) with (d / 2 / 2 / 2) by (rewrite !Z.div_div by lia; done).
  replace (d / 16) with (d / 2 / 2 / 2 / 2) by (rewrite !Z.div_div by lia; done).
  replace (d / 32) with (d / 2 / 2 / 2 / 2 / 2) by (rewrite !Z.div_div by lia; done).
  replace (d / 64) with (d / 2 / 2 / 2 / 2 / 2 / 2)
    by (rewrite !Z.div_div by lia; done).
  replace (d / 128) with (d / 2 / 2 / 2 / 2 / 2 / 2 / 2)
    by (rewrite !Z.div_div by lia; done).
  lia.
Qed.

Lemma byteAt_layout q pos d :
  is_u8 d ->
  (forall j, 0 <= j < 8 -> bitAt q (pos + j) = Ok (Z.testbit d (7 - j))) ->
  byteAt q pos = Ok d.
Proof.
  intros Hd Hbits. unfold byteAt. cbn [readBits].
  rewrite <- (Z.add_0_r pos) at 1. rewrite (Hbits 0) by lia. cbn [bind].
  replace (pos + 1 + 1 + 1 + 1 + 1 + 1 + 1) with (pos + 7) by lia.
  replace (pos + 1 + 1 + 1 + 1 + 1 + 1) with (pos + 6) by lia.
  replace (pos + 1 + 1 + 1 + 1 + 1) with (pos + 5) by lia.
  replace (pos + 1 + 1 + 1 + 1) with (pos + 4) by lia.
  replace (pos + 1 + 1 + 1) with (pos + 3) by lia.
  replace (pos + 1 + 1) with (pos + 2) by lia.
  rewrite (Hbits 1), (Hbits 2), (Hbits 3), (Hbits 4), (Hbits 5), (Hbits 6),
    (Hbits 7) by lia.
  cbn [bind]. f_equal. exact (byte_from_bits d Hd).
Qed.

Lemma readBytes_layout q fr : forall k0,
  Forall is_u8 fr ->
  (forall k j d, fr !! k = Some d -> 0 <= j < 8 ->
     bitAt q (23 + 9 * Z.of_nat (k0 + k) + j) = Ok (Z.testbit d (7 - j))) ->
  readBytes (length fr) q (23 + 9 * Z.of_nat k0) = Ok fr.
Proof.
  induction fr as [|d fr IH]; intros k0 Hu8 Hbits; [done|].
  apply Forall_cons in Hu8 as [Hd Hu8].
  cbn [length readBytes].
  rewrite (byteAt_layout q _ d Hd).
  2: { intros j Hj. rewrite <- (Hbits 0%nat j d eq_refl Hj). do 2 f_equal. lia. }
  cbn [bind].
  replace (23 + 9 * Z.of_nat k0 + 9) with (23 + 9 * Z.of_nat (S k0)) by lia.
  rewrite (IH (S k0) Hu8); [done|].
  intros k j e He Hj. rewrite <- (Hbits (S k) j e He Hj). do 3 f_equal. lia.
Qed.

(** A packet with the layout of loadPacket decodes to its frame. *)
Lemma decodePacket_layout q fr :
  Forall is_u8 fr ->
  numberOfBits q = 22 + 9 * Z.of_nat (length fr) ->
  (forall k j d, fr !! k = Some d -> 0 <= j < 8 ->
     bitAt q (23 + 9 * Z.of_nat k + j) = Ok (Z.testbit d (7 - j))) ->
  decodePacket q = Ok fr.
Proof.
  intros Hu8 Hn Hbits. unfold decodePacket. rewrite Hn.
  replace ((22 + 9 * Z.of_nat (length fr) - 22) / 9) with (Z.of_nat (length fr))
    by (apply Z.div_unique with 0; lia).
  rewrite Nat2Z.id.
  exact (readBytes_layout q fr 0 Hu8 Hbits).
Qed.

(** C3 (as amended): for a payload of n bytes, 2 <= n <= 5, handed to
    loadPacket, the byte appended at position n of the frame is the XOR
    of the n payload bytes, and the frame serialised into the buffer of
    the queued packet has n + 1 bytes: the packet counts 22 + 9 * (n + 1)
    bits and its buffer reads back, byte by byte behind the preamble, as
    the payload followed by that XOR. *)
Theorem loadPacket_serializes_frame g i avail p data r :
  _availablePackets g = i :: avail ->
  _pool g !! i = Some p ->
  length (buffer p) = MAX_BYTES_IN_PACKET ->
  Forall is_u8 data ->
  (2 <= length data <= 5)%nat ->
  exists g' q fr,
    loadPacket data r g = Ok g' /\
    _toSend g' = _toSend g ++ [i] /\
    _pool g' !! i = Some q /\
    frame data = Ok fr /\
    length fr = S (length data) /\
    take (length data) fr = data /\
    fr !! length data = Some (foldr Z.lxor 0 data) /\
    numberOfBits q = 22 + 9 * Z.of_nat (length fr) /\
    decodePacket q = Ok fr.
Proof.
  intros Ha Hp Hlen Hbytes Hn.
  destruct (loadPacket_on_track g i avail p data r Ha Hp Hlen Hbytes Hn)
    as (g' & q & Hload & Hsend & Hq & _ & _ & Hbits & Hlay & _).
  assert (data <> []) as Hne by (intros ->; simpl in Hn; lia).
  exists g', q, (data ++ [xorAll data]).
  split; [done|]. split; [done|]. split; [done|].
  split; [by apply frame_Ok|].
  split; [rewrite length_app; simpl; lia|].
  split; [by rewrite take_app_length|].
  split; [by rewrite lookup_app_r, Nat.sub_diag by lia|].
  assert (numberOfBits q = 22 + 9 * Z.of_nat (length (data ++ [xorAll data])))
    as Hcount.
  { rewrite Hbits, length_app. simpl. do 3 f_equal. lia. }
  split; [done|].
  apply decodePacket_layout; [|done|done].
  apply Forall_app. split; [done|]. by apply Forall_singleton, xorAll_u8.
Qed.

Lemma loadPacket_serializes_frame_witness :
  exists g' q fr,
    loadPacket [0x03; 0x3F; 0x80] 4 (allocatePackets 2 newPacket) = Ok g' /\
    _toSend g' = [] ++ [0%nat] /\
    _pool g' !! 0%nat = Some q /\
    frame [0x03; 0x3F; 0x80] = Ok fr /\
    length fr = S (length [0x03; 0x3F; 0x80]) /\
    take (length [0x03; 0x3F; 0x80]) fr = [0x03; 0x3F; 0x80] /\
    fr !! length [0x03; 0x3F; 0x80] = Some (foldr Z.lxor 0 [0x03; 0x3F; 0x80]) /\
    numberOfBits q = 22 + 9 * Z.of_nat (length fr) /\
    decodePacket q = Ok fr.
Proof.
  apply (loadPacket_serializes_frame
           (allocatePackets 2 newPacket) 0%nat [1%nat] newPacket
           [0x03; 0x3F; 0x80] 4).
  - reflexivity.
  - reflexivity.
  - reflexivity.
  - unfold is_u8. repeat constructor; lia.
  - simpl. lia.
Defined.

(** A payload of one byte gives a frame of two bytes, and loadPacket
    reads the third. *)
Example one_byte_payload_reads_past_frame :
  frame [5] = Ok [5; 5] /\
  loadPacket [5] 0 (allocatePackets 1 newPacket) = Fail OutOfBounds.
Proof. split; reflexivity. Qed.

(** C3 as stated fails for a payload of six bytes: the frame has seven
    bytes, the XOR 0x07 of the payload at position 6, but loadPacket
    serialises six of them.  The packet counts 76 = 22 + 9 * 6 bits, its
    ten-byte buffer has no room for 22 + 9 * 7 = 85, and what reads back
    is the payload without the checksum. *)
Lemma six_byte_frame_is_cut_short :
  exists g' q,
    loadPacket [1; 2; 3; 4; 5; 6] 0 (allocatePackets 1 newPacket) = Ok g' /\
    _toSend g' = [0%nat] /\
    _pool g' !! 0%nat = Some q /\
    frame [1; 2; 3; 4; 5; 6] = Ok [1; 2; 3; 4; 5; 6; 7] /\
    numberOfBits q = 76 /\
    numberOfBits q <> 22 + 9 * (6 + 1) /\
    8 * Z.of_nat (length (buffer q)) < 22 + 9 * (6 + 1) /\
    decodePacket q = Ok [1; 2; 3; 4; 5; 6] /\
    length [1; 2; 3; 4; 5; 6] <> (6 + 1)%nat.
Proof.
  eexists _, _.
  split; [reflexivity|]. split; [reflexivity|]. split; [reflexivity|].
  split; [reflexivity|]. split; [reflexivity|]. split; [done|].
  split; [reflexivity|]. split; [reflexivity|]. done.
Qed.




(** ** ADC sampling *)

Ltac pair_eq :=
  repeat match goal with
         | |- (_, _) = (_, _) => apply pair_equal_spec; split
         end.

Section SamplingFacts.

Variable adc1_get_raw : nat -> Z.

Lemma window_S n t :
  window adc1_get_raw (S n) t = adc1_get_raw t :: window adc1_get_raw n (S t).
Proof. reflexivity. Qed.

Lemma positives_cons x l :
  positives (x :: l) = if decide (x > 0) then x :: positives l else positives l.
Proof.
  unfold positives. destruct (decide (x > 0)).
  - by rewrite filter_cons_True.
  - by rewrite filter_cons_False.
Qed.

Lemma positives_bounds l :
  Forall is_int l ->
  0 <= sumZ (positives l) <= Z.of_nat (length l) * 2 ^ 31 /\
  (length (positives l) <= length l)%nat.
Proof.
  induction 1 as [|x l Hx Hl IH]; [simpl; lia|].
  rewrite positives_cons. unfold is_int in Hx.
  destruct (decide (x > 0)); simpl length; simpl sumZ; lia.
Qed.

Lemma positives_nil_iff l : positives l = [] <-> Forall (fun r => r <= 0) l.
Proof.
  induction l as [|x l IH]; [by split|].
  rewrite positives_cons, Forall_cons.
  destruct (decide (x > 0)); [split; [done | lia] | rewrite IH; intuition lia].
Qed.

Lemma sumZ_positives_nonneg l : 0 <= sumZ (positives l).
Proof.
  induction l as [|x l IH]; [simpl; lia|].
  rewrite positives_cons. destruct (decide (x > 0)); simpl; lia.
Qed.

(** The loop adds the positive readings to [current], counts them, and
    consumes [count] conversions. *)
Lemma sampleLoop_spec count : forall current reads t,
  0 <= current ->
  current + sumZ (positives (window adc1_get_raw count t)) < 2 ^ 64 ->
  sampleLoop adc1_get_raw count current reads t =
    (current + sumZ (positives (window adc1_get_raw count t)),
     reads + Z.of_nat (length (positives (window adc1_get_raw count t))),
     (t + count)%nat).
Proof.
  induction count as [|count IH]; intros current reads t Hc Hs.
  - simpl. pair_eq; lia.
  - rewrite window_S, positives_cons in *. simpl sampleLoop.
    pose proof (sumZ_positives_nonneg (window adc1_get_raw count (S t))).
    destruct (decide (adc1_get_raw t > 0)) as [Hpos|Hneg].
    + simpl sumZ in *. simpl length.
      unfold u64. rewrite Z.mod_small by lia.
      rewrite IH by lia. pair_eq; lia.
    + rewrite IH by lia. pair_eq; lia.
Qed.

Lemma sampleLoop_time count : forall current reads t,
  snd (sampleLoop adc1_get_raw count current reads t) = (t + count)%nat.
Proof.
  induction count as [|count IH]; intros current reads t; simpl.
  - lia.
  - destruct (decide (adc1_get_raw t > 0)); rewrite IH; lia.
Qed.

Lemma sampleADCChannel_time sampleCount t :
  snd (sampleADCChannel adc1_get_raw sampleCount t) = (t + sampleCount)%nat.
Proof.
  unfold sampleADCChannel.
  pose proof (sampleLoop_time sampleCount 0 0 t) as H.
  destruct (sampleLoop adc1_get_raw sampleCount 0 0 t) as [[c s] t'].
  simpl in H. subst t'. by destruct (decide (s <> 0)).
Qed.

End SamplingFacts.

Section AverageBounds.

Variable adc1_get_raw : nat -> Z.

Lemma sampleADCChannel_value sampleCount t :
  sumZ (positives (window adc1_get_raw sampleCount t)) < 2 ^ 64 ->
  sampleADCChannel adc1_get_raw sampleCount t =
    (if decide (positives (window adc1_get_raw sampleCount t) = []) then 0
     else sumZ (positives (window adc1_get_raw sampleCount t))
          / Z.of_nat (length (positives (window adc1_get_raw sampleCount t))),
     (t + sampleCount)%nat).
Proof.
  intros Hlt. set (readings := window adc1_get_raw sampleCount t) in *.
  pose proof (sumZ_positives_nonneg readings) as Hnn.
  unfold sampleADCChannel.
  rewrite sampleLoop_spec by (fold readings; lia). fold readings.
  rewrite !Z.add_0_l.
  destruct (decide (positives readings = [])) as [E|E].
  - rewrite E. reflexivity.
  - assert (0 < Z.of_nat (length (positives readings))) as Hpos.
    { destruct (positives readings); [done | simpl; lia]. }
    rewrite decide_True by lia. f_equal.
    unfold u64. apply Z.mod_small. split.
    + apply Z.div_pos; lia.
    + apply Z.div_lt_upper_bound; nia.
Qed.

Lemma positives_sum_between l lo hi :
  (forall x, x ∈ l -> x > 0 -> lo <= x <= hi) ->
  Z.of_nat (length (positives l)) * lo <= sumZ (positives l)
    <= Z.of_nat (length (positives l)) * hi.
Proof.
  induction l as [|x l IH]; intros H; [simpl; lia|].
  rewrite positives_cons.
  assert (forall y, y ∈ l -> y > 0 -> lo <= y <= hi) as Hl.
  { intros y Hy. apply H. by right. }
  specialize (IH Hl).
  destruct (decide (x > 0)) as [Hx|Hx]; [|done].
  specialize (H x ltac:(by left) Hx). simpl length. simpl sumZ. lia.
Qed.

End AverageBounds.






(** The packet bytes of readCV for a CV number in 1..1024. *)
Lemma cvHeader_div op cv :
  1 <= cv <= 1024 -> 0 <= op <= 252 ->
  cvHeader op cv = op + (cv - 1) / 256.
Proof.
  intros Hcv Hop. unfold cvHeader, highByte, u8.
  rewrite Z.shiftr_div_pow2 by lia. change (2 ^ 8) with 256.
  assert (0 <= (cv - 1) / 256 < 4) as Hq.
  { split; [apply Z.div_pos; lia | apply Z.div_lt_upper_bound; lia]. }
  rewrite (Z.mod_small ((cv - 1) / 256)) by lia.
  assert (Z.land ((cv - 1) / 256) 3 = ((cv - 1) / 256) mod 4) as ->.
  { apply (Z.land_ones _ 2). lia. }
  rewrite (Z.mod_small ((cv - 1) / 256)) by lia.
  apply Z.mod_small. lia.
Qed.

Lemma lowByte_mod w : lowByte w = w mod 256.
Proof. unfold lowByte. apply (Z.land_ones _ 8). lia. Qed.

Section ReadCVFacts.

Variable adc1_get_raw : nat -> Z.
Variable ack : Z.
Variable cv : Z.
Hypothesis cv_range : 1 <= cv <= 1024.

Lemma sample_spec w :
  sample adc1_get_raw CVSampleCount w =
    (fst (sampleADCChannel adc1_get_raw CVSampleCount (conversions w)),
     mkWorld (sent w) (conversions w + CVSampleCount)).
Proof.
  unfold sample.
  pose proof (sampleADCChannel_time adc1_get_raw CVSampleCount (conversions w)) as H.
  destruct (sampleADCChannel adc1_get_raw CVSampleCount (conversions w)) as [v t].
  simpl in *. by subst t.
Qed.


End ReadCVFacts.

Lemma milliAmpAck_Ok maxMilliAmps :
  maxMilliAmps <> 0 -> milliAmpAck maxMilliAmps = Ok (ackThreshold maxMilliAmps).
Proof. intros H. unfold milliAmpAck. by rewrite decide_False. Qed.

Lemma ackThreshold_range maxMilliAmps : 0 <= ackThreshold maxMilliAmps < 65536.
Proof. unfold ackThreshold. apply Z.mod_pos_bound. lia. Qed.





(** A decoder that acknowledges bit 0 and the verify-byte packet: the
    threshold for a 2000 mA board is 122 and readCV returns 1; a board
    that reports 0 mA stops readCV at the division. *)
Example readCV_acknowledged :
  milliAmpAck 2000 = Ok 122 /\
  fst <$> (match readCV (fun k => if decide (250 <= k < 2000)%nat then 0 else 500)
                        2000 7 (mkWorld [] 0) with
           | Ok r => Some r | Fail _ => None end) = Some 1 /\
  fst <$> (match readCV (fun _ => 0) 2000 7 (mkWorld [] 0) with
           | Ok r => Some r | Fail _ => None end) = Some (-1) /\
  readCV (fun _ => 500) 0 7 (mkWorld [] 0) = Fail DivideByZero.
Proof. split; [|split; [|split]]; vm_compute; reflexivity. Qed.

(** C10: sampleADCChannel returns the floor of the mean of the strictly
    positive readings when there is one, and 0 when every reading is zero
    or negative; it consumes sampleCount conversions.  With no positive
    reading, no comparison "average > threshold" with threshold >= 1
    succeeds. *)
Theorem sampleADCChannel_average adc1_get_raw sampleCount t :
  (sampleCount <= 255)%nat ->
  (forall k, is_int (adc1_get_raw k)) ->
  sampleADCChannel adc1_get_raw sampleCount t =
    (if decide (positives (window adc1_get_raw sampleCount t) = []) then 0
     else sumZ (positives (window adc1_get_raw sampleCount t))
          / Z.of_nat (length (positives (window adc1_get_raw sampleCount t))),
     (t + sampleCount)%nat) /\
  (Forall (fun r => r <= 0) (window adc1_get_raw sampleCount t) ->
   fst (sampleADCChannel adc1_get_raw sampleCount t) = 0 /\
   forall threshold, 1 <= threshold ->
     ~ fst (sampleADCChannel adc1_get_raw sampleCount t) > threshold).
Proof.
  intros Hcount Hint.
  set (readings := window adc1_get_raw sampleCount t).
  assert (Forall is_int readings) as Hall.
  { apply Forall_forall. intros x Hx. apply list_elem_of_fmap in Hx.
    destruct Hx as (k & -> & _). apply Hint. }
  destruct (positives_bounds readings Hall) as [Hsum Hlen].
  assert (length readings = sampleCount) as Hrl.
  { unfold readings, window. by rewrite length_map, length_seq. }
  assert (sumZ (positives readings) < 2 ^ 64) as Hlt.
  { assert (Z.of_nat (length readings) * 2 ^ 31 <= 255 * 2 ^ 31) by nia.
    assert (255 * 2 ^ 31 < 2 ^ 64) by done. lia. }
  assert (sampleADCChannel adc1_get_raw sampleCount t =
          (if decide (positives readings = []) then 0
           else sumZ (positives readings) / Z.of_nat (length (positives readings)),
           (t + sampleCount)%nat)) as Heq.
  { unfold sampleADCChannel.
    rewrite sampleLoop_spec by (fold readings; lia). fold readings.
    rewrite !Z.add_0_l.
    destruct (decide (positives readings = [])) as [E|E].
    - rewrite E. simpl. reflexivity.
    - assert (0 < Z.of_nat (length (positives readings))) as Hpos.
      { destruct (positives readings); [done | simpl; lia]. }
      rewrite decide_True by lia. f_equal.
      unfold u64. apply Z.mod_small. split.
      + apply Z.div_pos; lia.
      + apply Z.div_lt_upper_bound; nia. }
  split; [exact Heq|].
  intros Hnone. rewrite Heq. cbn [fst].
  rewrite decide_True by (by apply positives_nil_iff).
  split; [done|]. intros threshold Hth. lia.
Qed.

Lemma sampleADCChannel_average_witness :
  sampleADCChannel (fun k => match k with 0%nat => 0 | 1%nat => -1 | _ => 7 end) 5 0 =
    (7, 5%nat) /\
  sampleADCChannel (fun _ => 0) 250 0 = (0, 250%nat).
Proof.
  split.
  - apply (sampleADCChannel_average
             (fun k => match k with 0%nat => 0 | 1%nat => -1 | _ => 7 end) 5 0).
    + lia.
    + intros [|[|k]]; unfold is_int; lia.
  - apply (sampleADCChannel_average (fun _ => 0) 250 0).
    + unfold CVSampleCount. lia.
    + intros k. unfold is_int. lia.
Defined.

(** ** stopSignal *)

(** The drain loop: every pending packet is zeroed and appended to the
    free queue, the pending queue ends empty, and the member
    [_currentPacket] is left on the last packet drained. *)
Lemma drain_spec pending : forall g,
  Forall (fun i => i < length (_pool g))%nat pending ->
  exists g',
    drain pending g = Ok g' /\
    _availablePackets g' = _availablePackets g ++ pending /\
    _currentPacket g' = from_option (fun i => Some (PoolRef i))
                                    (_currentPacket g) (last pending) /\
    (pending <> [] -> _toSend g' = []) /\
    length (_pool g') = length (_pool g) /\
    _idlePacket g' = _idlePacket g.
Proof.
  induction pending as [|i rest IH]; intros g Hvalid.
  - exists g. simpl. rewrite app_nil_r. by repeat split.
  - apply Forall_cons in Hvalid as [Hi Hrest].
    destruct (lookup_lt_is_Some_2 _ _ Hi) as [p Hp].
    cbn [drain deref set_toSend set_currentPacket _pool]. rewrite Hp.
    cbn [of_option bind].
    match goal with |- context [drain rest ?g1] => destruct (IH g1) as
        (g' & Hrun & Havail & Hcur & Hsend & Hlen & Hidle) end.
    { simpl. by rewrite length_insert. }
    exists g'. split; [exact Hrun|].
    simpl in Havail, Hcur, Hsend, Hlen, Hidle.
    split; [by rewrite Havail, <- app_assoc|].
    split.
    { rewrite Hcur. destruct rest as [|j rest']; [done|].
      rewrite (last_cons_cons i j rest').
      destruct (last (j :: rest')) eqn:E; [done|].
      by apply last_None in E. }
    split.
    { intros _. destruct rest as [|j rest'].
      - simpl in Hrun. by injection Hrun as <-.
      - by apply Hsend. }
    split; [by rewrite Hlen, length_insert | done].
Qed.

(** C8 (as amended): after stopSignal returns the pending queue is empty
    and every packet that was pending, and the current packet unless it
    was the idle packet, is at the back of the free queue; when nothing
    was pending at the call, the current-packet pointer is null, except
    that the idle packet stays current if it was. *)
Theorem stopSignal_drains g :
  Forall (fun i => i < length (_pool g))%nat (_toSend g) ->
  exists g',
    stopSignal g = Ok g' /\
    _toSend g' = [] /\
    _availablePackets g' = _availablePackets g ++ held g ++ _toSend g /\
    (_toSend g = [] -> _currentPacket g' = afterRelease (_currentPacket g)).
Proof.
  intros Hvalid. unfold stopSignal.
  set (g1 := match _currentPacket g with
             | Some (PoolRef i) =>
               set_currentPacket None
                 (set_availablePackets (_availablePackets g ++ [i]) g)
             | _ => g
             end).
  assert (_toSend g1 = _toSend g /\ _pool g1 = _pool g /\
          _availablePackets g1 = _availablePackets g ++ held g /\
          _currentPacket g1 = afterRelease (_currentPacket g))
    as (Hs & Hp & Ha & Hc).
  { subst g1. unfold held. destruct (_currentPacket g) as [[|i]|] eqn:E; simpl;
      repeat split; by rewrite ?app_nil_r. }
  destruct (drain_spec (_toSend g1) g1) as
    (g' & Hrun & Havail & Hcur & Hsend & _); [by rewrite Hs, Hp|].
  exists g'. split; [exact Hrun|]. split.
  { destruct (_toSend g1) as [|i rest] eqn:E.
    - simpl in Hrun. injection Hrun as <-. done.
    - by apply Hsend. }
  split; [by rewrite Havail, Ha, Hs, <- app_assoc|].
  intros Hnil. rewrite Hcur, Hs, Hnil. simpl. exact Hc.
Qed.

Lemma stopSignal_drains_witness :
  exists g',
    stopSignal (mkGen [newPacket; newPacket] idleSingleton [] [1%nat] (Some (PoolRef 0))) = Ok g' /\
    _toSend g' = [] /\
    _availablePackets g' = [] ++ [0%nat] ++ [1%nat] /\
    ([1%nat] = [] -> _currentPacket g' = afterRelease (Some (PoolRef 0))).
Proof.
  apply (stopSignal_drains
           (mkGen [newPacket; newPacket] idleSingleton [] [1%nat] (Some (PoolRef 0)))).
  simpl. repeat constructor.
Defined.

(** C8 (as stated) fails when the idle packet is current: stopSignal
    returns the pointer untouched.  The state is the one reached by one
    timer interrupt on a generator with nothing pending. *)
Lemma stopSignal_keeps_idle_current :
  exists g g',
    run [Tick] (allocatePackets 2 idleSingleton) = Ok g /\
    _toSend g = [] /\
    _currentPacket g = Some IdleRef /\
    stopSignal g = Ok g' /\
    _toSend g' = [] /\
    _currentPacket g' = Some IdleRef /\
    _currentPacket g' <> None.
Proof. eexists _, _. repeat split; try reflexivity. discriminate. Qed.

(** ** The interrupt routine while it plays a pool packet *)

Lemma deref_playing g i p r c :
  (i < length (_pool g))%nat ->
  deref (playing g i p r c) (PoolRef i) =
    Ok (mkPacket (buffer p) (numberOfBits p) r c).
Proof.
  intros Hi. unfold deref, playing. cbn [_pool].
  by rewrite list_lookup_insert_eq.
Qed.

Lemma assign_playing g i p r c q :
  assign (PoolRef i) q (playing g i p r c) =
    mkGen (<[i := q]> (_pool g)) (_idlePacket g) (_availablePackets g)
          (_toSend g) (Some (PoolRef i)).
Proof.
  unfold assign, playing, set_pool. cbn. by rewrite list_insert_insert_eq.
Qed.

Lemma bitAt_buffer p q k : buffer p = buffer q -> bitAt p k = bitAt q k.
Proof. intros H. unfold bitAt. by rewrite H. Qed.

(** The second and third block when a pool packet is current. *)
Lemma extract_playing g i p r c :
  (i < length (_pool g))%nat ->
  0 <= c < 8 * Z.of_nat (length (buffer p)) ->
  extractBit (selectPacket (playing g i p r c)) =
    Ok (bitVal p c, playing g i p r (c + 1)).
Proof.
  intros Hi Hc. unfold selectPacket, extractBit.
  cbn [_currentPacket playing]. fold (playing g i p r c).
  rewrite deref_playing by done. cbn [bind currentBit].
  rewrite (bitAt_buffer _ p c) by done.
  rewrite bitAt_in_range by lia. cbn [bind].
  by rewrite assign_playing.
Qed.

(** A call in the middle of a pass: the bit under the cursor, cursor + 1. *)
Lemma tick_mid g i p r c :
  (i < length (_pool g))%nat ->
  0 <= c < numberOfBits p ->
  numberOfBits p <= 8 * Z.of_nat (length (buffer p)) ->
  getNextBitToSend (playing g i p r c) =
    Ok (bitVal p c, playing g i p r (c + 1)).
Proof.
  intros Hi Hc Hb. unfold getNextBitToSend, releaseFinished.
  cbn [_currentPacket playing]. fold (playing g i p r c).
  rewrite deref_playing by done. cbn [bind currentBit numberOfBits].
  rewrite decide_False by lia. cbn [bind].
  apply extract_playing; [done | lia].
Qed.

(** A call at the end of a pass with repeats left: the cursor is rewound,
    one repeat is used up, and bit 0 is sent. *)
Lemma tick_rewind g i p r :
  (i < length (_pool g))%nat ->
  1 <= numberOfBits p <= 8 * Z.of_nat (length (buffer p)) ->
  r > 0 ->
  getNextBitToSend (playing g i p r (numberOfBits p)) =
    Ok (bitVal p 0, playing g i p (r - 1) 1).
Proof.
  intros Hi Hb Hr. unfold getNextBitToSend, releaseFinished.
  cbn [_currentPacket playing]. fold (playing g i p r (numberOfBits p)).
  rewrite deref_playing by done.
  cbn [bind currentBit numberOfBits numberOfRepeats].
  rewrite decide_True by done. rewrite decide_True by done. cbn [bind].
  rewrite assign_playing.
  change (extractBit (selectPacket (playing g i p (r - 1) 0)) =
          Ok (bitVal p 0, playing g i p (r - 1) 1)).
  rewrite (extract_playing g i p (r - 1) 0) by (done || lia). reflexivity.
Qed.

(** The first block of the call after the last pass: the packet goes to
    the back of the free queue and the current-packet pointer is cleared. *)
Lemma release_finished g i p r :
  (i < length (_pool g))%nat ->
  r <= 0 ->
  releaseFinished (playing g i p r (numberOfBits p)) =
    Ok (set_currentPacket None
          (set_availablePackets (_availablePackets g ++ [i])
             (playing g i p r (numberOfBits p)))).
Proof.
  intros Hi Hr. unfold releaseFinished.
  cbn [_currentPacket playing]. fold (playing g i p r (numberOfBits p)).
  rewrite deref_playing by done.
  cbn [bind currentBit numberOfBits numberOfRepeats].
  rewrite decide_True by done. rewrite decide_False by lia. reflexivity.
Qed.

(** The call in which a pending packet becomes current. *)
Lemma tick_dequeue g g1 i rest p :
  releaseFinished g = Ok g1 ->
  _currentPacket g1 = None ->
  _toSend g1 = i :: rest ->
  _pool g1 !! i = Some p ->
  currentBit p = 0 ->
  1 <= numberOfBits p <= 8 * Z.of_nat (length (buffer p)) ->
  getNextBitToSend g =
    Ok (bitVal p 0, playing (set_toSend rest g1) i p (numberOfRepeats p) 1).
Proof.
  intros Hrel Hcur Hsend Hp Hc Hb.
  assert (i < length (_pool g1))%nat as Hi by (by eapply lookup_lt_Some).
  assert (set_toSend rest (set_currentPacket (Some (PoolRef i)) g1) =
          playing (set_toSend rest g1) i p (numberOfRepeats p) 0) as Hsel.
  { unfold playing, set_toSend, set_currentPacket. cbn. f_equal.
    symmetry. apply list_insert_id. rewrite Hp. f_equal.
    destruct p; simpl in *; by subst. }
  unfold getNextBitToSend. rewrite Hrel. cbn [bind].
  replace (selectPacket g1) with
    (selectPacket (playing (set_toSend rest g1) i p (numberOfRepeats p) 0)).
  - by rewrite extract_playing by (done || lia).
  - rewrite <- Hsel. unfold selectPacket at 2. rewrite Hcur, Hsend. reflexivity.
Qed.

Lemma sendBits_snoc m : forall g bs g1 b g2,
  sendBits m g = Ok (bs, g1) ->
  getNextBitToSend g1 = Ok (b, g2) ->
  sendBits (S m) g = Ok (bs ++ [b], g2).
Proof.
  induction m as [|m IH]; intros g bs g1 b g2 Hm Hb.
  - simpl in Hm. injection Hm as <- <-. simpl. by rewrite Hb.
  - cbn [sendBits] in Hm.
    destruct (getNextBitToSend g) as [[b0 g0]|] eqn:E0; [|discriminate].
    cbn [bind fst snd] in Hm.
    destruct (sendBits m g0) as [[bs' g']|] eqn:Em; [|discriminate].
    cbn [bind fst snd] in Hm. injection Hm as <- <-.
    change (sendBits (S (S m)) g) with
      (do bg <- getNextBitToSend g;
       do bsg <- sendBits (S m) (snd bg);
       Ok (fst bg :: fst bsg, snd bsg)).
    rewrite E0. cbn [bind fst snd].
    by rewrite (IH g0 bs' g' b g2 Em Hb).
Qed.

Lemma seq_snoc_map {A} (f : nat -> A) n :
  map f (seq 0 (S n)) = map f (seq 0 n) ++ [f n].
Proof. by rewrite seq_S, map_app. Qed.

Lemma mod_block q c bn : (c < bn)%nat -> ((q * bn + c) mod bn)%nat = c.
Proof.
  intros H. rewrite Nat.add_comm, Nat.Div0.mod_add. by apply Nat.mod_small.
Qed.

Lemma mod_block_end q bn : ((q * bn + bn) mod bn)%nat = 0%nat.
Proof.
  replace (q * bn + bn)%nat with (0 + S q * bn)%nat by lia.
  rewrite Nat.Div0.mod_add. apply Nat.Div0.mod_0_l.
Qed.

(** Reading a periodic stream for [n] whole periods gives [n] copies of
    one period. *)
Lemma periodic_concat {A} (h : nat -> A) bn n :
  map (fun j => h (j mod bn)%nat) (seq 0 (n * bn)) =
  concat (replicate n (map h (seq 0 bn))).
Proof.
  induction n as [|n IH]; [done|].
  replace (S n * bn)%nat with (n * bn + bn)%nat by lia.
  rewrite seq_app, map_app, IH. simpl seq.
  rewrite replicate_S_end, concat_app. f_equal.
  simpl. rewrite app_nil_r.
  replace (seq (n * bn) bn) with (Nat.add (n * bn) <$> seq 0 bn)
    by (by rewrite fmap_add_seq, Nat.add_0_r).
  change (map ?f ?l) with (f <$> l).
  rewrite <- list_fmap_compose.
  apply list_fmap_ext. intros k j Hj. simpl.
  apply lookup_seq in Hj as [-> Hlt]. simpl.
  by rewrite mod_block.
Qed.

Section Playback.

Variables (g g1 : SignalGenerator) (i : nat) (rest : list nat) (p : Packet).

(* packet [i] becomes current in the next call on [g] ... *)
Hypothesis Hrel : releaseFinished g = Ok g1.
Hypothesis Hcur : _currentPacket g1 = None.
Hypothesis Hsend : _toSend g1 = i :: rest.
Hypothesis Hp : _pool g1 !! i = Some p.
(* ... as loadPacket left it *)
Hypothesis Hc : currentBit p = 0.
Hypothesis Hb : 1 <= numberOfBits p <= 8 * Z.of_nat (length (buffer p)).

Let bn : nat := Z.to_nat (numberOfBits p).
Let passes : nat := S (Z.to_nat (numberOfRepeats p)).
Let stream (j : nat) : bool := bitVal p (Z.of_nat (j mod bn)).
Let base : SignalGenerator := set_toSend rest g1.

Lemma base_slot : (i < length (_pool base))%nat.
Proof. subst base. simpl. by eapply lookup_lt_Some. Qed.

(** After [S n] calls, [n] = q * bn + (c - 1): the packet is in its
    pass number [q] with the cursor on [c]. *)
Lemma play_prefix n :
  (S n <= passes * bn)%nat ->
  exists q c,
    S n = (q * bn + c)%nat /\
    (1 <= c <= bn)%nat /\
    (q < passes)%nat /\
    sendBits (S n) g =
      Ok (map stream (seq 0 (S n)),
          playing base i p (numberOfRepeats p - Z.of_nat q) (Z.of_nat c)).
Proof.
  pose proof base_slot as Hslot.
  induction n as [|n IH]; intros Hle.
  - exists 0%nat, 1%nat. subst bn passes stream. split; [lia|].
    split; [lia|]. split; [lia|].
    cbn [sendBits]. rewrite (tick_dequeue g g1 i rest p) by done.
    cbn [bind fst snd seq map]. rewrite Nat.Div0.mod_0_l, Z.sub_0_r. reflexivity.
  - destruct IH as (q & c & Hn & Hcb & Hq & Hrun); [lia|].
    destruct (decide (c < bn)%nat) as [Hlt|Hge].
    + exists q, (S c). split; [lia|]. split; [lia|]. split; [done|].
      rewrite seq_snoc_map.
      apply (sendBits_snoc _ _ _ _ _ _ Hrun).
      rewrite tick_mid by (done || lia).
      subst stream. cbn beta. rewrite Hn, mod_block by done.
      do 3 f_equal. lia.
    + assert (c = bn) as -> by lia.
      assert (S q < passes)%nat as Hq' by nia.
      exists (S q), 1%nat. split; [lia|]. split; [lia|]. split; [done|].
      rewrite seq_snoc_map.
      apply (sendBits_snoc _ _ _ _ _ _ Hrun).
      replace (Z.of_nat bn) with (numberOfBits p) by lia.
      rewrite tick_rewind by (done || lia).
      subst stream. cbn beta. rewrite Hn, mod_block_end.
      do 3 f_equal. lia.
Qed.

Lemma expected_stream :
  concat (replicate passes (packetBits p)) = map stream (seq 0 (passes * bn)).
Proof. symmetry. apply (periodic_concat (fun k => bitVal p (Z.of_nat k))). Qed.

(** The packet is played [numberOfRepeats + 1] times before the
    interrupt routine gives it up. *)
Lemma play_all :
  (forall m, (1 <= m <= passes * bn)%nat ->
     exists gm,
       sendBits m g = Ok (take m (concat (replicate passes (packetBits p))), gm) /\
       _currentPacket gm = Some (PoolRef i) /\
       _availablePackets gm = _availablePackets g1 /\
       _toSend gm = rest) /\
  exists g',
    sendBits (passes * bn) g = Ok (concat (replicate passes (packetBits p)), g') /\
    releaseFinished g' =
      Ok (set_currentPacket None
            (set_availablePackets (_availablePackets g1 ++ [i]) g')).
Proof.
  pose proof base_slot as Hslot.
  rewrite expected_stream. split.
  - intros [|n] Hm; [lia|].
    destruct (play_prefix n) as (q & c & _ & _ & _ & Hrun); [lia|].
    assert (take (S n) (map stream (seq 0 (passes * bn))) =
            map stream (seq 0 (S n))) as ->.
    { change (map stream ?l) with (stream <$> l).
      rewrite <- fmap_take, take_seq. do 2 f_equal. lia. }
    eexists. split; [exact Hrun|]. repeat split; reflexivity.
  - assert (passes * bn = S (passes * bn - 1))%nat as Htot by (subst bn passes; lia).
    destruct (play_prefix (passes * bn - 1)) as (q & c & Hn & Hcb & Hq & Hrun);
      [lia|].
    rewrite <- Htot in Hrun, Hn.
    assert (c = bn /\ S q = passes) as [-> Hlast] by nia.
    eexists. split; [exact Hrun|].
    replace (Z.of_nat bn) with (numberOfBits p) by (subst bn; lia).
    rewrite release_finished by (done || (subst passes; lia)).
    reflexivity.
Qed.

End Playback.

(** ** The pool invariant *)

Lemma conserved_NoDup g : conserved g -> NoDup (owned g).
Proof. unfold conserved. intros ->. apply NoDup_seq. Qed.

Lemma conserved_count g : conserved g -> packetCount g = length (_pool g).
Proof.
  unfold conserved, packetCount, owned. intros H.
  apply Permutation_length in H.
  rewrite !length_app, length_seq in H. lia.
Qed.

Lemma readyWith_pool g g' i r :
  _pool g' !! i = _pool g !! i -> readyWith g i r -> readyWith g' i r.
Proof. intros E (p & Hp & H). exists p. by rewrite E. Qed.

Lemma pending_not_held g i j :
  conserved g -> _currentPacket g = Some (PoolRef i) -> j ∈ _toSend g -> i <> j.
Proof.
  intros Hc Hcur Hj ->. apply conserved_NoDup in Hc.
  unfold owned, held in Hc. rewrite Hcur in Hc.
  apply NoDup_app in Hc as (_ & _ & Hc).
  apply NoDup_app in Hc as (_ & Hc & _).
  apply (Hc j Hj). by apply list_elem_of_singleton.
Qed.

Lemma pending_not_free g i avail j :
  conserved g -> _availablePackets g = i :: avail -> j ∈ _toSend g -> i <> j.
Proof.
  intros Hc Ha Hj ->. apply conserved_NoDup in Hc.
  unfold owned in Hc. rewrite Ha in Hc.
  apply NoDup_app in Hc as (_ & Hc & _).
  apply (Hc j); [by left|]. apply elem_of_app. by left.
Qed.

(** Writing the counters of the current packet keeps the invariant. *)
Lemma touch_current g r p q reqs :
  poolInv g reqs ->
  _currentPacket g = Some r ->
  deref g r = Ok p ->
  buffer q = buffer p ->
  poolInv (assign r q g) reqs.
Proof.
  intros (Hslots & Hcons & Hready) Hcur Hp Hbuf.
  destruct r as [|i]; [done|].
  unfold deref in Hp. destruct (_pool g !! i) as [p'|] eqn:E; [|done].
  simpl in Hp. injection Hp as ->.
  split; [|split].
  - unfold slotsOk in *. simpl. apply Forall_insert; [done|].
    rewrite Hbuf. by eapply (Forall_lookup_1 _ _ _ _ Hslots).
  - unfold conserved, owned, held in *. simpl. by rewrite length_insert.
  - simpl. apply Forall2_same_length_lookup.
    apply Forall2_same_length_lookup in Hready as [Hlen Hall].
    split; [done|]. intros k j x Hj Hx.
    apply (readyWith_pool g); [|by eapply Hall].
    simpl. apply list_lookup_insert_ne.
    eapply pending_not_held; [done | done |].
    apply list_elem_of_lookup. by exists k.
Qed.

Lemma releaseFinished_inv g g1 reqs :
  poolInv g reqs -> releaseFinished g = Ok g1 -> poolInv g1 reqs.
Proof.
  intros Hinv Hrel. unfold releaseFinished in Hrel.
  destruct (_currentPacket g) as [r|] eqn:Hcur; [|by injection Hrel as <-].
  destruct (deref g r) as [p|] eqn:Hp; [|done]. cbn [bind] in Hrel.
  destruct (decide (currentBit p = numberOfBits p)); [|by injection Hrel as <-].
  destruct (decide (numberOfRepeats p > 0)); injection Hrel as <-.
  - by eapply touch_current.
  - destruct Hinv as (Hslots & Hcons & Hready).
    destruct r as [|i]; (split; [|split]); try done.
    + unfold conserved, owned, held in *. simpl. by rewrite Hcur in Hcons.
    + unfold conserved, owned, held in *. simpl. rewrite Hcur in Hcons.
      rewrite <- Hcons, app_nil_r, <- app_assoc.
      f_equiv. apply Permutation_app_comm.
Qed.

Lemma selectPacket_inv g reqs :
  poolInv g reqs ->
  poolInv (selectPacket g)
    (drop (length (_toSend g) - length (_toSend (selectPacket g))) reqs).
Proof.
  intros (Hslots & Hcons & Hready). unfold selectPacket.
  destruct (_currentPacket g) as [r|] eqn:Hcur.
  { by rewrite Nat.sub_diag, drop_0. }
  destruct (_toSend g) as [|i rest] eqn:Hsend.
  - apply Forall2_nil_inv_l in Hready as ->. rewrite drop_nil.
    split; [done|]. split; [|simpl; rewrite Hsend; constructor].
    unfold conserved, owned, held in *. simpl.
    by rewrite Hcur in Hcons.
  - simpl. replace (S (length rest) - length rest)%nat with 1%nat by lia.
    apply Forall2_cons_inv_l in Hready as (x & reqs' & Hx & Hrest & ->).
    change (drop 1 (x :: reqs')) with reqs'.
    split; [done|]. split; [|done].
    unfold conserved, owned, held in *. simpl.
    rewrite Hsend, Hcur, app_nil_r in Hcons. rewrite <- Hcons.
    f_equiv. symmetry. apply Permutation_cons_append.
Qed.

Lemma extractBit_inv g b g' reqs :
  poolInv g reqs -> extractBit g = Ok (b, g') -> poolInv g' reqs.
Proof.
  intros Hinv Hx. unfold extractBit in Hx.
  destruct (_currentPacket g) as [r|] eqn:Hcur; [|by injection Hx as _ <-].
  destruct (deref g r) as [p|] eqn:Hp; [|done]. cbn [bind] in Hx.
  destruct (bitAt p (currentBit p)) as [v|]; [|done]. cbn [bind] in Hx.
  injection Hx as _ <-. by eapply touch_current.
Qed.

(** One timer interrupt keeps the invariant; the pending queue either
    stays as it is or loses its front packet. *)
Lemma getNextBitToSend_inv g b g' reqs :
  poolInv g reqs ->
  getNextBitToSend g = Ok (b, g') ->
  poolInv g' (drop (length (_toSend g) - length (_toSend g')) reqs).
Proof.
  intros Hinv Hrun. unfold getNextBitToSend in Hrun.
  destruct (releaseFinished g) as [g1|] eqn:Hrel; [|done]. cbn [bind] in Hrun.
  assert (_toSend g1 = _toSend g) as Hs1.
  { unfold releaseFinished in Hrel.
    destruct (_currentPacket g) as [r|]; [|by injection Hrel as <-].
    destruct (deref g r) as [p|]; [|done]. cbn [bind] in Hrel.
    destruct (decide (currentBit p = numberOfBits p)); [|by injection Hrel as <-].
    destruct (decide (numberOfRepeats p > 0)); injection Hrel as <-;
      by destruct r. }
  assert (_toSend g' = _toSend (selectPacket g1)) as Hs2.
  { unfold extractBit in Hrun.
    destruct (_currentPacket (selectPacket g1)) as [r|];
      [|by injection Hrun as _ <-].
    destruct (deref (selectPacket g1) r) as [p|]; [|done]. cbn [bind] in Hrun.
    destruct (bitAt p (currentBit p)) as [v|]; [|done]. cbn [bind] in Hrun.
    injection Hrun as _ <-. by destruct r. }
  rewrite Hs2, <- Hs1.
  eapply extractBit_inv; [|exact Hrun].
  apply selectPacket_inv. by eapply releaseFinished_inv.
Qed.

Lemma fillBuffer_inv fr p q :
  length (buffer p) = MAX_BYTES_IN_PACKET ->
  fillBuffer fr p = Ok q ->
  length (buffer q) = MAX_BYTES_IN_PACKET /\
  currentBit q = currentBit p /\
  numberOfRepeats q = numberOfRepeats p.
Proof.
  intros Hlen Hq.
  destruct fr as [|e0 [|e1 [|e2 rest]]].
  - ten_bytes p Hlen. discriminate Hq.
  - ten_bytes p Hlen. discriminate Hq.
  - ten_bytes p Hlen. discriminate Hq.
  - destruct (fillBuffer_spec (e0 :: e1 :: e2 :: rest) p e0)
      as (q' & Hq' & Hr & Hc & Hl & _); [done | simpl; lia | done |].
    rewrite Hq in Hq'. injection Hq' as <-. done.
Qed.

(** A loadPacket call keeps the invariant and appends its repeat count
    to the requests the pending queue stands for. *)
Lemma loadPacket_inv g data r g' reqs :
  poolInv g reqs ->
  loadPacket data r g = Ok g' ->
  poolInv g' (reqs ++ [r]).
Proof.
  intros (Hslots & Hcons & Hready) Hload. unfold loadPacket in Hload.
  destruct (_availablePackets g) as [|i avail] eqn:Ha; [done|].
  cbn [deref] in Hload.
  destruct (_pool g !! i) as [p|] eqn:Hp; [|done]. cbn [of_option bind] in Hload.
  destruct (frame data) as [fr|]; [|done]. cbn [bind] in Hload.
  destruct (fillBuffer fr (set_currentBit 0 (set_numberOfRepeats r p)))
    as [q|] eqn:Hq; [|done]. cbn [bind] in Hload. injection Hload as <-.
  apply fillBuffer_inv in Hq as (Hlq & Hcq & Hrq);
    [|exact (Forall_lookup_1 _ _ _ _ Hslots Hp)].
  simpl in Hcq, Hrq.
  split; [|split].
  - unfold slotsOk in *. simpl. by apply Forall_insert.
  - unfold conserved, owned, held in *. simpl. rewrite length_insert.
    rewrite Ha in Hcons. rewrite <- Hcons. simpl.
    rewrite <- !app_assoc. simpl.
    rewrite (Permutation_app_comm (_toSend g)). simpl.
    rewrite <- Permutation_middle. do 2 f_equiv. apply Permutation_app_comm.
  - simpl. apply Forall2_app.
    + apply Forall2_same_length_lookup.
      apply Forall2_same_length_lookup in Hready as [Hlen Hall].
      split; [done|]. intros k j x Hj Hx.
      apply (readyWith_pool g); [|by eapply Hall].
      simpl. apply list_lookup_insert_ne.
      eapply pending_not_free; [done | done |].
      apply list_elem_of_lookup. by exists k.
    + constructor; [|constructor]. exists q. split; [|done].
      simpl. apply list_lookup_insert_eq. by eapply lookup_lt_Some.
Qed.

Lemma allocatePackets_inv n idle : poolInv (allocatePackets n idle) [].
Proof.
  split; [|split].
  - unfold slotsOk. simpl. by apply Forall_replicate.
  - unfold conserved, owned, held. simpl.
    by rewrite !app_nil_r, length_replicate.
  - constructor.
Qed.

(** Runs of the producer and the interrupt routine keep the invariant;
    the pending queue always stands for the most recent requests. *)
Lemma run_inv ops : forall g reqs hist g',
  Forall (fun o => isStop o = false) ops ->
  poolInv g reqs ->
  reqs `suffix_of` hist ->
  run ops g = Ok g' ->
  exists reqs',
    poolInv g' reqs' /\ reqs' `suffix_of` hist ++ requested ops.
Proof.
  induction ops as [|o ops IH]; intros g reqs hist g' Hns Hinv Hsuf Hrun.
  - simpl in Hrun. injection Hrun as <-. exists reqs.
    by rewrite app_nil_r.
  - apply Forall_cons in Hns as [Ho Hns]. cbn [run] in Hrun.
    destruct (step o g) as [g1|] eqn:Hstep; [|done]. cbn [bind] in Hrun.
    destruct o as [data r| |]; [| |done].
    + simpl in Hstep.
      destruct (IH g1 (reqs ++ [r]) (hist ++ [r]) g' Hns) as (reqs' & H1 & H2);
        [by eapply loadPacket_inv | by apply suffix_app | done |].
      exists reqs'. split; [done|]. simpl. by rewrite <- app_assoc in H2.
    + simpl in Hstep.
      destruct (getNextBitToSend g) as [[b g2]|] eqn:Htick; [|done].
      simpl in Hstep. injection Hstep as ->.
      eapply IH; [done | by eapply getNextBitToSend_inv | | done].
      etrans; [apply suffix_drop | done].
Qed.

(** ** Claims about the pool and the playback *)

Example configureSignal_boot : configureSignal 2 idleSingleton = Ok bootState.
Proof. reflexivity. Qed.

Example demoOps_run : run demoOps (allocatePackets 3 idleSingleton) = Ok demoState.
Proof. reflexivity. Qed.

(** loadPacket and the interrupt routine conserve the pool: from a freshly
    allocated pool every interleaving of the two leaves each packet
    referenced exactly once. *)
Lemma producer_and_isr_conserve ops n idle g :
  Forall (fun o => isStop o = false) ops ->
  run ops (allocatePackets n idle) = Ok g ->
  conserved g /\ packetCount g = n.
Proof.
  intros Hns Hrun.
  destruct (run_inv ops (allocatePackets n idle) [] [] g Hns
              (allocatePackets_inv n idle) (suffix_nil []) Hrun)
    as (reqs & (Hslots & Hcons & _) & _).
  split; [done|].
  rewrite (conserved_count g Hcons).
  assert (forall ops g g', Forall (fun o => isStop o = false) ops ->
            run ops g = Ok g' -> length (_pool g') = length (_pool g)) as Hlen.
  { clear. induction ops as [|o ops IH]; intros g g' Hns Hrun.
    - simpl in Hrun. by injection Hrun as <-.
    - apply Forall_cons in Hns as [Ho Hns]. cbn [run] in Hrun.
      destruct (step o g) as [g1|] eqn:Hstep; [|done]. cbn [bind] in Hrun.
      rewrite (IH g1 g' Hns Hrun). clear IH Hrun.
      destruct o as [data r| |]; [| |done]; simpl in Hstep.
      + unfold loadPacket in Hstep.
        destruct (_availablePackets g) as [|i avail]; [done|].
        destruct (deref g (PoolRef i)); [|done]. cbn [bind] in Hstep.
        destruct (frame data); [|done]. cbn [bind] in Hstep.
        destruct (fillBuffer _ _); [|done]. cbn [bind] in Hstep.
        injection Hstep as <-. simpl. by rewrite length_insert.
      + destruct (getNextBitToSend g) as [[b g2]|] eqn:Htick; [|done].
        simpl in Hstep. injection Hstep as ->.
        unfold getNextBitToSend in Htick.
        destruct (releaseFinished g) as [g0|] eqn:Hrel; [|done].
        cbn [bind] in Htick.
        assert (length (_pool g0) = length (_pool g)) as <-.
        { unfold releaseFinished in Hrel.
          destruct (_currentPacket g) as [r|]; [|by injection Hrel as <-].
          destruct (deref g r) as [p|]; [|done]. cbn [bind] in Hrel.
          destruct (decide (currentBit p = numberOfBits p));
            [|by injection Hrel as <-].
          destruct (decide (numberOfRepeats p > 0)); injection Hrel as <-;
            destruct r; simpl; by rewrite ?length_insert. }
        assert (length (_pool (selectPacket g0)) = length (_pool g0)) as <-.
        { unfold selectPacket. destruct (_currentPacket g0); [done|].
          by destruct (_toSend g0). }
        unfold extractBit in Htick.
        destruct (_currentPacket (selectPacket g0)) as [r|];
          [|by injection Htick as _ <-].
        destruct (deref (selectPacket g0) r) as [p|]; [|done].
        cbn [bind] in Htick.
        destruct (bitAt p (currentBit p)); [|done]. cbn [bind] in Htick.
        injection Htick as _ <-. destruct r; simpl; by rewrite ?length_insert. }
  rewrite (Hlen ops _ g Hns Hrun). simpl. apply length_replicate.
Qed.

(** C4 fails on the code: stopSignal with a non-empty pending queue
    leaves [_currentPacket] on the last packet it drained, which is also
    at the back of the free queue.  After configureSignal on the 64-packet
    programming pool and one interrupt the count is 64; after stopSignal
    it is 65, packet 1 being both current and free. *)
Theorem stopSignal_breaks_conservation :
  exists g g',
    run [Load resetPacket 20; Load idlePacket 10; Tick]
        (allocatePackets 64 idleSingleton) = Ok g /\
    packetCount g = 64%nat /\
    stopSignal g = Ok g' /\
    _toSend g' = [] /\
    _currentPacket g' = Some (PoolRef 1) /\
    _availablePackets g' = seq 2 62 ++ [0%nat; 1%nat] /\
    packetCount g' = 65%nat.
Proof. eexists _, _. repeat split; reflexivity. Qed.

(** The same defect, one step further: when the signal is started again
    the interrupt routine finds the stale packet finished and pushes it
    onto the free queue a second time. *)
Lemma restart_duplicates_free_packet :
  exists g,
    run [Load resetPacket 20; Load idlePacket 10; Tick; Stop;
         Load resetPacket 20; Load idlePacket 10; Tick]
        (allocatePackets 64 idleSingleton) = Ok g /\
    _availablePackets g = seq 4 60 ++ [0%nat; 1%nat; 1%nat] /\
    packetCount g = 65%nat.
Proof.
  exists (match run [Load resetPacket 20; Load idlePacket 10; Tick; Stop;
                     Load resetPacket 20; Load idlePacket 10; Tick]
                    (allocatePackets 64 idleSingleton) with
          | Ok g => g
          | Fail _ => allocatePackets 0 idleSingleton
          end).
  split; [|split]; vm_compute; reflexivity.
Qed.

(** In every state reached from a freshly allocated pool by loadPacket
    calls and timer interrupts alone, each packet in the pending queue
    has currentBit = 0 and numberOfRepeats equal to the repeat count its
    loadPacket call asked for: the pending queue carries, in order, the
    most recent requests. *)
Theorem pending_packets_ready ops n idle g :
  Forall (fun o => isStop o = false) ops ->
  run ops (allocatePackets n idle) = Ok g ->
  exists reqs,
    reqs `suffix_of` requested ops /\
    Forall2 (readyWith g) (_toSend g) reqs.
Proof.
  intros Hns Hrun.
  destruct (run_inv ops (allocatePackets n idle) [] [] g Hns
              (allocatePackets_inv n idle) (suffix_nil []) Hrun)
    as (reqs & (_ & _ & Hready) & Hsuf).
  by exists reqs.
Qed.

Lemma pending_packets_ready_witness :
  exists reqs,
    reqs `suffix_of` requested demoOps /\
    Forall2 (readyWith demoState) (_toSend demoState) reqs.
Proof.
  apply (pending_packets_ready demoOps 3 idleSingleton demoState).
  - repeat constructor.
  - reflexivity.
Defined.

(** C9 fails on the code once stopSignal has run with a packet pending:
    the pointer it leaves in [_currentPacket] makes the interrupt routine
    play a packet that loadPacket hands out again.  With a pool of two
    packets, after configureSignal, one interrupt, stopSignal, startSignal
    and 11 interrupts, packet 1 is in the pending queue with its cursor at
    11.  On the 64-packet pool, after one interrupt and 63 loadPacket
    calls more, the last two entries of the pending queue are both packet
    1: the entry queued with 0 repeats carries the 3 repeats (and the
    bytes) of the call that came after it. *)
Theorem restart_breaks_pending_invariant :
  (exists g p,
     run (restartOps ++ replicate 11 Tick) (allocatePackets 2 idleSingleton) = Ok g /\
     _toSend g = [0%nat; 1%nat] /\
     _currentPacket g = Some (PoolRef 1) /\
     _pool g !! 1%nat = Some p /\
     currentBit p = 11 /\
     ~ Forall (fun i => exists q, _pool g !! i = Some q /\ currentBit q = 0)
              (_toSend g)) /\
  (exists g p,
     run burstOps (allocatePackets 64 idleSingleton) = Ok g /\
     _toSend g = seq 3 61 ++ [0%nat; 1%nat; 1%nat] /\
     drop 65 (requested burstOps) = [0; 3] /\
     _pool g !! 1%nat = Some p /\
     numberOfRepeats p = 3 /\
     ~ readyWith g 1 0).
Proof.
  split.
  - set (g := match run (restartOps ++ replicate 11 Tick)
                        (allocatePackets 2 idleSingleton) with
              | Ok g => g
              | Fail _ => allocatePackets 0 idleSingleton
              end).
    set (p := match _pool g !! 1%nat with Some p => p | None => newPacket end).
    assert (run (restartOps ++ replicate 11 Tick)
                (allocatePackets 2 idleSingleton) = Ok g) as Hrun
      by (vm_compute; reflexivity).
    assert (_toSend g = [0%nat; 1%nat]) as Hs by (vm_compute; reflexivity).
    assert (_currentPacket g = Some (PoolRef 1)) as Hcur by (vm_compute; reflexivity).
    assert (_pool g !! 1%nat = Some p) as Hp by (vm_compute; reflexivity).
    assert (currentBit p = 11) as Hc by (vm_compute; reflexivity).
    clearbody p. clearbody g.
    exists g, p.
    split; [exact Hrun|]. split; [exact Hs|]. split; [exact Hcur|].
    split; [exact Hp|]. split; [exact Hc|].
    rewrite Hs. intros Hall.
    apply Forall_cons in Hall as [_ Hall]. apply Forall_cons in Hall as [Hone _].
    destruct Hone as (q & Hq & Hzero). rewrite Hp in Hq. injection Hq as <-. lia.
  - set (g := match run burstOps (allocatePackets 64 idleSingleton) with
              | Ok g => g
              | Fail _ => allocatePackets 0 idleSingleton
              end).
    set (p := match _pool g !! 1%nat with Some p => p | None => newPacket end).
    assert (run burstOps (allocatePackets 64 idleSingleton) = Ok g) as Hrun
      by (vm_compute; reflexivity).
    assert (_toSend g = seq 3 61 ++ [0%nat; 1%nat; 1%nat]) as Hs
      by (vm_compute; reflexivity).
    assert (drop 65 (requested burstOps) = [0; 3]) as Hreq
      by (vm_compute; reflexivity).
    assert (_pool g !! 1%nat = Some p) as Hp by (vm_compute; reflexivity).
    assert (numberOfRepeats p = 3) as Hr by (vm_compute; reflexivity).
    clearbody p. clearbody g.
    exists g, p.
    split; [exact Hrun|]. split; [exact Hs|]. split; [exact Hreq|].
    split; [exact Hp|]. split; [exact Hr|].
    intros (q & Hq & _ & Hzero). rewrite Hp in Hq. injection Hq as <-. lia.
Qed.

(** The bits a packet stores are the bits the interrupt routine reads. *)
Lemma packetBits_stored p :
  packetBits p = storedBits p.
Proof.
  unfold packetBits, storedBits. apply map_ext. intros k.
  unfold bitVal, bufferBit.
  assert (Z.of_nat k `div` 8 >= 0) as Hdiv by (apply Z.le_ge, Z.div_pos; lia).
  destruct (buffer p !! Z.to_nat (Z.of_nat k / 8)) as [byte|] eqn:Hb.
  - by rewrite (bitAt_testbit p (Z.of_nat k) byte) by (lia || done).
  - unfold bitAt, load at 1. rewrite decide_True by lia. by rewrite Hb.
Qed.

(** A pool packet that is taken from the pending queue with its cursor at
    0, numberOfBits = b >= 1 inside its buffer and numberOfRepeats = r is
    played r + 1 times: the next (r+1)*b calls of getNextBitToSend return
    its b stored bits in order, each byte most significant bit first,
    r + 1 times over; after each of these calls the packet is still
    current and the free queue untouched; the call after the last one
    pushes it onto the free queue and clears the pointer. *)
Theorem dequeued_packet_played_msb_first g g1 i rest p :
  releaseFinished g = Ok g1 ->
  _currentPacket g1 = None ->
  _toSend g1 = i :: rest ->
  _pool g1 !! i = Some p ->
  currentBit p = 0 ->
  1 <= numberOfBits p <= 8 * Z.of_nat (length (buffer p)) ->
  0 <= numberOfRepeats p ->
  let passes := S (Z.to_nat (numberOfRepeats p)) in
  let total := (passes * Z.to_nat (numberOfBits p))%nat in
  let expected := concat (replicate passes (storedBits p)) in
  Z.of_nat total = (numberOfRepeats p + 1) * numberOfBits p /\
  length expected = total /\
  (forall m, (1 <= m <= total)%nat ->
     exists gm,
       sendBits m g = Ok (take m expected, gm) /\
       _currentPacket gm = Some (PoolRef i) /\
       _availablePackets gm = _availablePackets g1 /\
       _toSend gm = rest) /\
  exists g',
    sendBits total g = Ok (expected, g') /\
    releaseFinished g' =
      Ok (set_currentPacket None
            (set_availablePackets (_availablePackets g1 ++ [i]) g')).
Proof.
  intros Hrel Hcur Hsend Hp Hc Hb Hr passes total expected.
  subst expected. rewrite <- packetBits_stored.
  split; [subst total passes; nia|].
  split.
  { subst total passes. rewrite expected_stream.
    by rewrite length_map, length_seq. }
  exact (play_all g g1 i rest p Hrel Hcur Hsend Hp Hc Hb).
Qed.

Lemma dequeued_packet_played_msb_first_witness :
  Z.of_nat (21 * 49) = (20 + 1) * 49 /\
  length (concat (replicate 21 (storedBits bootPacket0))) = (21 * 49)%nat /\
  (forall m, (1 <= m <= 21 * 49)%nat ->
     exists gm,
       sendBits m bootState =
         Ok (take m (concat (replicate 21 (storedBits bootPacket0))), gm) /\
       _currentPacket gm = Some (PoolRef 0) /\
       _availablePackets gm = [] /\
       _toSend gm = [1%nat]) /\
  exists g',
    sendBits (21 * 49) bootState =
      Ok (concat (replicate 21 (storedBits bootPacket0)), g') /\
    releaseFinished g' =
      Ok (set_currentPacket None (set_availablePackets ([] ++ [0%nat]) g')).
Proof.
  apply (dequeued_packet_played_msb_first
           bootState bootState 0%nat [1%nat] bootPacket0).
  - reflexivity.
  - reflexivity.
  - reflexivity.
  - reflexivity.
  - reflexivity.
  - simpl. lia.
  - simpl. lia.
Defined.

(** C5 fails on the code once stopSignal has run with a packet pending.
    With a pool of two packets, after configureSignal, one interrupt,
    stopSignal, startSignal and 1568 interrupts, packet 1 is pending with
    numberOfBits 49, numberOfRepeats 0 and its cursor at 49.  The next
    call makes it the current packet; the calls do not return its 49 bits
    (which begin with the 22 ones of the preamble) but the 31 bits behind
    them in the buffer, all 0, while the packet is also in the free
    queue, and the 32nd call reads past the ten-byte buffer.  On the
    64-packet pool the same happens after one interrupt, 63 loadPacket
    calls and 4752 interrupts more. *)
Theorem restart_replays_packet_from_its_end :
  (exists g p g1 g31,
     run (restartOps ++ replicate 1568 Tick) (allocatePackets 2 idleSingleton) = Ok g /\
     _currentPacket g = Some (PoolRef 0) /\
     _toSend g = [1%nat] /\
     _pool g !! 1%nat = Some p /\
     (numberOfBits p = 49 /\ numberOfRepeats p = 0 /\ currentBit p = 49) /\
     take 22 (storedBits p) = replicate 22 true /\
     getNextBitToSend g = Ok (false, g1) /\
     _currentPacket g1 = Some (PoolRef 1) /\
     sendBits 31 g = Ok (replicate 31 false, g31) /\
     _currentPacket g31 = Some (PoolRef 1) /\
     _availablePackets g31 = [1%nat; 0%nat] /\
     sendBits 32 g = Fail OutOfBounds) /\
  (exists g p g31,
     run (burstOps ++ replicate 4752 Tick) (allocatePackets 64 idleSingleton) = Ok g /\
     _toSend g = [1%nat] /\
     _pool g !! 1%nat = Some p /\
     (numberOfBits p = 49 /\ numberOfRepeats p = 0 /\ currentBit p = 49) /\
     take 22 (storedBits p) = replicate 22 true /\
     sendBits 31 g = Ok (replicate 31 false, g31) /\
     _currentPacket g31 = Some (PoolRef 1) /\
     last (_availablePackets g31) = Some 1%nat /\
     sendBits 32 g = Fail OutOfBounds).
Proof.
  split.
  - set (g := match run (restartOps ++ replicate 1568 Tick)
                        (allocatePackets 2 idleSingleton) with
              | Ok g => g
              | Fail _ => allocatePackets 0 idleSingleton
              end).
    set (p := match _pool g !! 1%nat with Some p => p | None => newPacket end).
    set (g1 := match getNextBitToSend g with
               | Ok r => snd r
               | Fail _ => allocatePackets 0 idleSingleton
               end).
    set (g31 := match sendBits 31 g with
                | Ok r => snd r
                | Fail _ => allocatePackets 0 idleSingleton
                end).
    assert (run (restartOps ++ replicate 1568 Tick)
                (allocatePackets 2 idleSingleton) = Ok g) as H1
      by (vm_compute; reflexivity).
    assert (_currentPacket g = Some (PoolRef 0)) as H2 by (vm_compute; reflexivity).
    assert (_toSend g = [1%nat]) as H3 by (vm_compute; reflexivity).
    assert (_pool g !! 1%nat = Some p) as H4 by (vm_compute; reflexivity).
    assert (numberOfBits p = 49) as H5 by (vm_compute; reflexivity).
    assert (numberOfRepeats p = 0) as H6 by (vm_compute; reflexivity).
    assert (currentBit p = 49) as H7 by (vm_compute; reflexivity).
    assert (take 22 (storedBits p) = replicate 22 true) as H8
      by (vm_compute; reflexivity).
    assert (getNextBitToSend g = Ok (false, g1)) as H9 by (vm_compute; reflexivity).
    assert (_currentPacket g1 = Some (PoolRef 1)) as H10 by (vm_compute; reflexivity).
    assert (sendBits 31 g = Ok (replicate 31 false, g31)) as H11
      by (vm_compute; reflexivity).
    assert (_currentPacket g31 = Some (PoolRef 1)) as H12 by (vm_compute; reflexivity).
    assert (_availablePackets g31 = [1%nat; 0%nat]) as H13
      by (vm_compute; reflexivity).
    assert (sendBits 32 g = Fail OutOfBounds) as H14 by (vm_compute; reflexivity).
    clearbody g31. clearbody g1. clearbody p. clearbody g.
    exists g, p, g1, g31.
    split; [exact H1|]. split; [exact H2|]. split; [exact H3|]. split; [exact H4|].
    split; [exact (conj H5 (conj H6 H7))|]. split; [exact H8|].
    split; [exact H9|]. split; [exact H10|]. split; [exact H11|].
    split; [exact H12|]. split; [exact H13|]. exact H14.
  - set (g := match run (burstOps ++ replicate 4752 Tick)
                        (allocatePackets 64 idleSingleton) with
              | Ok g => g
              | Fail _ => allocatePackets 0 idleSingleton
              end).
    set (p := match _pool g !! 1%nat with Some p => p | None => newPacket end).
    set (g31 := match sendBits 31 g with
                | Ok r => snd r
                | Fail _ => allocatePackets 0 idleSingleton
                end).
    assert (run (burstOps ++ replicate 4752 Tick)
                (allocatePackets 64 idleSingleton) = Ok g) as H1
      by (vm_compute; reflexivity).
    assert (_toSend g = [1%nat]) as H3 by (vm_compute; reflexivity).
    assert (_pool g !! 1%nat = Some p) as H4 by (vm_compute; reflexivity).
    assert (numberOfBits p = 49) as H5 by (vm_compute; reflexivity).
    assert (numberOfRepeats p = 0) as H6 by (vm_compute; reflexivity).
    assert (currentBit p = 49) as H7 by (vm_compute; reflexivity).
    assert (take 22 (storedBits p) = replicate 22 true) as H8
      by (vm_compute; reflexivity).
    assert (sendBits 31 g = Ok (replicate 31 false, g31)) as H11
      by (vm_compute; reflexivity).
    assert (_currentPacket g31 = Some (PoolRef 1)) as H12 by (vm_compute; reflexivity).
    assert (last (_availablePackets g31) = Some 1%nat) as H13
      by (vm_compute; reflexivity).
    assert (sendBits 32 g = Fail OutOfBounds) as H14 by (vm_compute; reflexivity).
    clearbody g31. clearbody p. clearbody g.
    exists g, p, g31.
    split; [exact H1|]. split; [exact H3|]. split; [exact H4|].
    split; [exact (conj H5 (conj H6 H7))|]. split; [exact H8|].
    split; [exact H11|]. split; [exact H12|]. split; [exact H13|]. exact H14.
Qed.

(** * Further properties of the code *)

(** ** The checksum as the receiver sees it *)

Lemma xorAll_app l k : xorAll (l ++ k) = Z.lxor (xorAll l) (xorAll k).
Proof.
  induction l as [|x l IH]; simpl.
  - by rewrite Z.lxor_0_l.
  - unfold xorAll in *. simpl. by rewrite IH, Z.lxor_assoc.
Qed.

Lemma xorAll_insert l k old v :
  l !! k = Some old ->
  xorAll (<[k := v]> l) = Z.lxor (xorAll l) (Z.lxor old v).
Proof.
  revert k. induction l as [|x l IH]; intros [|k] H; try done.
  - simpl in H. injection H as ->. unfold xorAll. simpl.
    apply Z.bits_inj'. intros n _. rewrite !Z.lxor_spec.
    by destruct (Z.testbit v n), (Z.testbit old n),
                (Z.testbit (foldr Z.lxor 0 l) n).
  - simpl in H. unfold xorAll in *. simpl. rewrite (IH k H).
    by rewrite Z.lxor_assoc.
Qed.

(** The frame with its checksum XORs to zero, and a frame in which any
    one byte has been replaced by a different value does not. *)
Theorem frame_xor_detects_single_byte_error data :
  data <> [] ->
  exists fr,
    frame data = Ok fr /\
    xorAll fr = 0 /\
    forall k old v, fr !! k = Some old -> v <> old ->
      xorAll (<[k := v]> fr) <> 0.
Proof.
  intros Hne. exists (data ++ [xorAll data]).
  split; [by apply frame_Ok|].
  assert (xorAll (data ++ [xorAll data]) = 0) as H0.
  { rewrite xorAll_app. unfold xorAll at 2. simpl.
    by rewrite Z.lxor_0_r, Z.lxor_nilpotent. }
  split; [done|].
  intros k old v Hk Hv. rewrite (xorAll_insert _ _ _ _ Hk), H0, Z.lxor_0_l.
  intros E. apply Z.lxor_eq in E. congruence.
Qed.

Lemma frame_xor_detects_single_byte_error_witness :
  exists fr,
    frame [0x03; 0x3F; 0x80] = Ok fr /\
    xorAll fr = 0 /\
    forall k old v, fr !! k = Some old -> v <> old ->
      xorAll (<[k := v]> fr) <> 0.
Proof.
  apply (frame_xor_detects_single_byte_error [0x03; 0x3F; 0x80]). discriminate.
Defined.

(** ** The cursor discipline: the interrupt routine never faults *)

Lemma free_not_held g i avail j :
  conserved g -> _availablePackets g = i :: avail ->
  _currentPacket g = Some (PoolRef j) -> i <> j.
Proof.
  intros Hc Ha Hcur ->. apply conserved_NoDup in Hc.
  unfold owned, held in Hc. rewrite Ha, Hcur in Hc.
  apply NoDup_app in Hc as (_ & Hc & _).
  apply (Hc j); [by left|].
  apply elem_of_app. right. by apply list_elem_of_singleton.
Qed.

Lemma conserved_valid g i : conserved g -> i ∈ owned g -> (i < length (_pool g))%nat.
Proof.
  unfold conserved. intros Hc Hi. rewrite Hc in Hi.
  apply elem_of_seq in Hi. lia.
Qed.

Lemma fillBuffer_bits fr p q :
  length (buffer p) = MAX_BYTES_IN_PACKET ->
  fillBuffer fr p = Ok q ->
  bitsInBuffer q /\ 49 <= numberOfBits q <= 76.
Proof.
  intros Hlen Hq.
  destruct fr as [|e0 [|e1 [|e2 rest]]].
  - ten_bytes p Hlen. discriminate Hq.
  - ten_bytes p Hlen. discriminate Hq.
  - ten_bytes p Hlen. discriminate Hq.
  - destruct (fillBuffer_spec (e0 :: e1 :: e2 :: rest) p e0)
      as (q' & Hq' & _ & _ & Hl & Hb & _); [done | simpl; lia | done |].
    rewrite Hq in Hq'. injection Hq' as <-.
    unfold bitsInBuffer. rewrite Hl, Hb. unfold MAX_BYTES_IN_PACKET.
    simpl length. lia.
Qed.

(** Writing the cursor or the repeat counter of the current packet. *)
Lemma touch_cursors g r p q :
  conserved g ->
  cursorsOk g ->
  _currentPacket g = Some r ->
  deref g r = Ok p ->
  buffer q = buffer p ->
  numberOfBits q = numberOfBits p ->
  0 <= currentBit q <= numberOfBits q ->
  cursorsOk (assign r q g).
Proof.
  intros Hcons (Hidle & Hpend & Hcur) Hr Hp Hbuf Hbits Hc.
  destruct (Hcur r Hr) as (p' & Hp' & _ & Hin).
  rewrite Hp in Hp'. injection Hp' as <-.
  assert (bitsInBuffer q) as Hq by (unfold bitsInBuffer in *; by rewrite Hbuf, Hbits).
  destruct r as [|i].
  - split; [done|]. split; [done|].
    intros r' Hr'. simpl in Hr'. rewrite Hr in Hr'. injection Hr' as <-.
    by exists q.
  - assert (i < length (_pool g))%nat as Hi.
    { unfold deref in Hp. destruct (_pool g !! i) eqn:E; [|done].
      by eapply lookup_lt_Some. }
    split; [done|]. split.
    + simpl. apply Forall_forall. intros j Hj.
      destruct (proj1 (Forall_forall _ _) Hpend j Hj) as (pj & Hpj & Hcj).
      exists pj. split; [|done].
      rewrite list_lookup_insert_ne; [done|].
      by eapply pending_not_held.
    + intros r' Hr'. simpl in Hr'. rewrite Hr in Hr'. injection Hr' as <-.
      exists q. split; [|done]. simpl. by rewrite list_lookup_insert_eq.
Qed.

Lemma releaseFinished_cursors g reqs :
  poolInv g reqs ->
  cursorsOk g ->
  exists g1,
    releaseFinished g = Ok g1 /\ cursorsOk g1 /\ currentInside g1.
Proof.
  intros (Hslots & Hcons & Hready) Hok.
  pose proof Hok as (Hidle & Hpend & Hcur).
  unfold releaseFinished.
  destruct (_currentPacket g) as [r|] eqn:Hr.
  2: { exists g. split; [done|]. split; [done|].
       intros r p Hr'. congruence. }
  destruct (Hcur r eq_refl) as (p & Hp & Hc & Hin).
  rewrite Hp. cbn [bind].
  destruct (decide (currentBit p = numberOfBits p)) as [Heq|Hne].
  2: { exists g. split; [done|]. split; [done|].
       intros r' p' Hr' Hp'. rewrite Hr in Hr'. injection Hr' as <-.
       rewrite Hp in Hp'. injection Hp' as <-. lia. }
  destruct (decide (numberOfRepeats p > 0)).
  - eexists. split; [reflexivity|].
    assert (cursorsOk (assign r (set_currentBit 0
                (set_numberOfRepeats (numberOfRepeats p - 1) p)) g)) as Hok'.
    { eapply touch_cursors; try done. simpl. unfold bitsInBuffer in Hin. lia. }
    split; [exact Hok'|].
    intros r' p' Hr' Hp'.
    assert (r' = r) as -> by (destruct r; simpl in Hr'; congruence).
    destruct Hok' as (_ & _ & Hcur').
    destruct (Hcur' r Hr') as (p'' & Hp'' & _).
    assert (deref (assign r (set_currentBit 0
              (set_numberOfRepeats (numberOfRepeats p - 1) p)) g) r =
            Ok (set_currentBit 0 (set_numberOfRepeats (numberOfRepeats p - 1) p)))
      as Hd.
    { destruct r as [|i]; [done|]. simpl.
      rewrite list_lookup_insert_eq; [done|].
      unfold deref in Hp. destruct (_pool g !! i) eqn:E; [|done].
      by eapply lookup_lt_Some. }
    rewrite Hd in Hp'. injection Hp' as <-. simpl.
    unfold bitsInBuffer in Hin. lia.
  - eexists. split; [reflexivity|]. split.
    + split; [by destruct r|]. split; [by destruct r|].
      intros r' Hr'. by destruct r.
    + intros r' p' Hr'. by destruct r.
Qed.

Lemma selectPacket_cursors g :
  cursorsOk g -> currentInside g ->
  cursorsOk (selectPacket g) /\ currentInside (selectPacket g) /\
  is_Some (_currentPacket (selectPacket g)).
Proof.
  intros Hok Hin. pose proof Hok as (Hidle & Hpend & Hcur).
  unfold selectPacket.
  destruct (_currentPacket g) as [r|] eqn:Hr.
  { split; [exact Hok|]. split; [exact Hin|]. rewrite Hr. by eexists. }
  destruct (_toSend g) as [|i rest] eqn:Hs.
  - split; [|split; [|by eexists]].
    + split; [done|]. split; [simpl; rewrite Hs; constructor|].
      intros r Hr'. simpl in Hr'. injection Hr' as <-.
      eexists. split; [reflexivity|]. simpl.
      unfold bitsInBuffer in *. simpl. split; [lia | done].
    + intros r p Hr' Hp. simpl in Hr'. injection Hr' as <-.
      simpl in Hp. injection Hp as <-. simpl. unfold bitsInBuffer in Hidle. lia.
  - apply Forall_cons in Hpend as [(p & Hp & Hc & Hb) Hrest].
    split; [|split; [|by eexists]].
    + split; [done|]. split; [done|].
      intros r Hr'. simpl in Hr'. injection Hr' as <-.
      exists p. simpl. rewrite Hp. split; [done|].
      unfold bitsInBuffer in Hb. split; [lia | done].
    + intros r p' Hr' Hp'. simpl in Hr'. injection Hr' as <-.
      simpl in Hp'. rewrite Hp in Hp'. injection Hp' as <-.
      unfold bitsInBuffer in Hb. lia.
Qed.

Lemma extractBit_cursors g :
  conserved g -> cursorsOk g -> currentInside g ->
  exists b g', extractBit g = Ok (b, g') /\ cursorsOk g'.
Proof.
  intros Hcons Hok Hin. pose proof Hok as (Hidle & Hpend & Hcur).
  unfold extractBit.
  destruct (_currentPacket g) as [r|] eqn:Hr; [|by exists false, g].
  destruct (Hcur r eq_refl) as (p & Hp & Hc & Hb).
  specialize (Hin r p Hr Hp).
  rewrite Hp. cbn [bind].
  rewrite bitAt_in_range by (unfold bitsInBuffer in Hb; lia). cbn [bind].
  eexists _, _. split; [reflexivity|].
  eapply touch_cursors; try done. simpl. lia.
Qed.

(** Under the pool invariant and the cursor discipline a timer interrupt
    always yields a bit, and the discipline holds again afterwards. *)
Lemma getNextBitToSend_safe g reqs :
  poolInv g reqs ->
  cursorsOk g ->
  exists b g', getNextBitToSend g = Ok (b, g') /\ cursorsOk g'.
Proof.
  intros Hinv Hok.
  destruct (releaseFinished_cursors g reqs Hinv Hok) as (g1 & Hrel & Hok1 & Hin1).
  pose proof (releaseFinished_inv g g1 reqs Hinv Hrel) as Hinv1.
  destruct (selectPacket_cursors g1 Hok1 Hin1) as (Hok2 & Hin2 & _).
  pose proof (selectPacket_inv g1 reqs Hinv1) as (_ & Hcons2 & _).
  destruct (extractBit_cursors (selectPacket g1) Hcons2 Hok2 Hin2)
    as (b & g' & Hx & Hok').
  exists b, g'. split; [|done].
  unfold getNextBitToSend. by rewrite Hrel.
Qed.

Lemma loadPacket_cursors g data r g' reqs :
  poolInv g reqs ->
  cursorsOk g ->
  loadPacket data r g = Ok g' ->
  cursorsOk g'.
Proof.
  intros (Hslots & Hcons & Hready) (Hidle & Hpend & Hcur) Hload.
  unfold loadPacket in Hload.
  destruct (_availablePackets g) as [|i avail] eqn:Ha; [done|].
  cbn [deref] in Hload.
  destruct (_pool g !! i) as [p|] eqn:Hp; [|done]. cbn [of_option bind] in Hload.
  destruct (frame data) as [fr|]; [|done]. cbn [bind] in Hload.
  destruct (fillBuffer fr (set_currentBit 0 (set_numberOfRepeats r p)))
    as [q|] eqn:Hq; [|done]. cbn [bind] in Hload. injection Hload as <-.
  pose proof (Forall_lookup_1 _ _ _ _ Hslots Hp) as Hlen.
  destruct (fillBuffer_bits fr (set_currentBit 0 (set_numberOfRepeats r p)) q
              Hlen Hq) as [Hbq _].
  apply fillBuffer_inv in Hq as (_ & Hcq & _); [|exact Hlen].
  simpl in Hcq.
  assert (i < length (_pool g))%nat as Hi by (by eapply lookup_lt_Some).
  split; [done|]. split.
  - simpl. apply Forall_app. split.
    + apply Forall_forall. intros j Hj.
      destruct (proj1 (Forall_forall _ _) Hpend j Hj) as (pj & Hpj & Hcj).
      exists pj. split; [|done].
      rewrite list_lookup_insert_ne; [done|].
      by eapply pending_not_free.
    + constructor; [|constructor]. exists q.
      by rewrite list_lookup_insert_eq.
  - intros r' Hr'. simpl in Hr'.
    destruct (Hcur r' Hr') as (p' & Hp' & Hc').
    exists p'. split; [|done].
    destruct r' as [|j]; [done|]. simpl.
    rewrite list_lookup_insert_ne; [done|].
    by eapply free_not_held.
Qed.

Lemma allocatePackets_cursors n idle :
  bitsInBuffer idle -> cursorsOk (allocatePackets n idle).
Proof.
  intros H. split; [done|]. split; [constructor|]. intros r Hr. done.
Qed.

Lemma run_cursors ops : forall g reqs g',
  Forall (fun o => isStop o = false) ops ->
  poolInv g reqs ->
  cursorsOk g ->
  run ops g = Ok g' ->
  exists reqs', poolInv g' reqs' /\ cursorsOk g'.
Proof.
  induction ops as [|o ops IH]; intros g reqs g' Hns Hinv Hok Hrun.
  - simpl in Hrun. injection Hrun as <-. by exists reqs.
  - apply Forall_cons in Hns as [Ho Hns]. cbn [run] in Hrun.
    destruct (step o g) as [g1|] eqn:Hstep; [|done]. cbn [bind] in Hrun.
    destruct o as [data r| |]; [| |done]; simpl in Hstep.
    + eapply (IH g1 (reqs ++ [r])); [done | | | done].
      * by eapply loadPacket_inv.
      * by eapply loadPacket_cursors.
    + destruct (getNextBitToSend g) as [[b g2]|] eqn:Htick; [|done].
      simpl in Hstep. injection Hstep as ->.
      destruct (getNextBitToSend_safe g reqs Hinv Hok) as (b' & g2' & Ht & Hok').
      rewrite Htick in Ht. injection Ht as <- <-.
      eapply IH; [done | by eapply getNextBitToSend_inv | done | done].
Qed.

(** However loadPacket calls and timer interrupts interleave, starting
    from a freshly allocated pool with an idle packet that lies inside its
    buffer: the cursor of the current packet stays between 0 and its
    number of bits, and the next timer interrupt reads a bit without
    leaving any buffer or following a stale pointer. *)
Theorem isr_never_faults ops n idle g :
  Forall (fun o => isStop o = false) ops ->
  bitsInBuffer idle ->
  run ops (allocatePackets n idle) = Ok g ->
  cursorsOk g /\
  exists b g', getNextBitToSend g = Ok (b, g') /\ cursorsOk g'.
Proof.
  intros Hns Hidle Hrun.
  destruct (run_cursors ops (allocatePackets n idle) [] g Hns
              (allocatePackets_inv n idle)
              (allocatePackets_cursors n idle Hidle) Hrun)
    as (reqs & Hinv & Hok).
  split; [done|]. by eapply getNextBitToSend_safe.
Qed.

Lemma isr_never_faults_witness :
  cursorsOk demoState /\
  exists b g', getNextBitToSend demoState = Ok (b, g') /\ cursorsOk g'.
Proof.
  apply (isr_never_faults demoOps 3 idleSingleton demoState).
  - repeat constructor.
  - unfold bitsInBuffer. simpl. lia.
  - reflexivity.
Defined.

(** ** First in, first out: the pending queue is played in order *)

Lemma sendBits_app n : forall m g bs g1 bs' g2,
  sendBits n g = Ok (bs, g1) ->
  sendBits m g1 = Ok (bs', g2) ->
  sendBits (n + m) g = Ok (bs ++ bs', g2).
Proof.
  induction n as [|n IH]; intros m g bs g1 bs' g2 Hn Hm.
  - simpl in Hn. injection Hn as <- <-. exact Hm.
  - cbn [sendBits] in Hn.
    destruct (getNextBitToSend g) as [[b0 g0]|] eqn:E0; [|discriminate].
    cbn [bind fst snd] in Hn.
    destruct (sendBits n g0) as [[bs0 g0']|] eqn:En; [|discriminate].
    cbn [bind fst snd] in Hn. injection Hn as <- <-.
    change (sendBits (S n + m) g) with
      (do bg <- getNextBitToSend g;
       do bsg <- sendBits (n + m) (snd bg);
       Ok (fst bg :: fst bsg, snd bsg)).
    rewrite E0. cbn [bind fst snd].
    by rewrite (IH m g0 bs0 g0' bs' g2 En Hm).
Qed.

(** One packet from the call that dequeues it to the end of its last
    pass, with the state this leaves. *)
Lemma play_packet g g1 i rest p :
  releaseFinished g = Ok g1 ->
  _currentPacket g1 = None ->
  _toSend g1 = i :: rest ->
  _pool g1 !! i = Some p ->
  currentBit p = 0 ->
  bitsInBuffer p ->
  exists r,
    r <= 0 /\
    sendBits (playTime p) g =
      Ok (playBits p,
          playing (set_toSend rest g1) i p r (numberOfBits p)).
Proof.
  intros Hrel Hcur Hsend Hp Hc Hb. unfold bitsInBuffer in Hb.
  unfold playTime, playBits. rewrite (expected_stream p).
  set (bn := Z.to_nat (numberOfBits p)).
  set (passes := S (Z.to_nat (numberOfRepeats p))).
  assert (passes * bn = S (passes * bn - 1))%nat as Htot by (subst bn passes; lia).
  destruct (play_prefix g g1 i rest p Hrel Hcur Hsend Hp Hc Hb (passes * bn - 1))
    as (q & c & Hn & Hcb & Hq & Hrun); [fold bn passes; lia|].
  fold bn passes in Hn, Hcb, Hq, Hrun.
  rewrite <- Htot in Hrun, Hn.
  assert (c = bn /\ S q = passes) as [-> Hlast] by nia.
  exists (numberOfRepeats p - Z.of_nat q). split; [subst passes; lia|].
  rewrite Hrun. do 3 f_equal. subst bn. lia.
Qed.

Lemma pending_played_in_order_aux packets : forall g g1,
  releaseFinished g = Ok g1 ->
  _currentPacket g1 = None ->
  NoDup (_toSend g1) ->
  Forall2 (fun i p => _pool g1 !! i = Some p /\ currentBit p = 0 /\ bitsInBuffer p)
          (_toSend g1) packets ->
  exists g' g'',
    sendBits (sum_list (map playTime packets)) g =
      Ok (concat (map playBits packets), g') /\
    releaseFinished g' = Ok g'' /\
    _currentPacket g'' = None /\
    _toSend g'' = [] /\
    _availablePackets g'' = _availablePackets g1 ++ _toSend g1 /\
    _idlePacket g'' = _idlePacket g1 /\
    length (_pool g'') = length (_pool g1).
Proof.
  induction packets as [|p ps IH]; intros g g1 Hrel Hcur Hnd Hall.
  - apply Forall2_nil_inv_r in Hall. exists g, g1. simpl.
    rewrite Hall, app_nil_r. by repeat split.
  - apply Forall2_cons_inv_r in Hall as (i & rest & (Hp & Hc & Hb) & Hrest & Hs).
    rewrite Hs in Hnd. apply NoDup_cons in Hnd as [Hi Hnd].
    destruct (play_packet g g1 i rest p Hrel Hcur Hs Hp Hc Hb) as (r & Hr & Hplay).
    assert (i < length (_pool g1))%nat as Hlt by (by eapply lookup_lt_Some).
    set (gp := playing (set_toSend rest g1) i p r (numberOfBits p)) in *.
    pose proof (release_finished (set_toSend rest g1) i p r Hlt Hr) as Hrel'.
    fold gp in Hrel'.
    match type of Hrel' with _ = Ok ?x => set (g1' := x) in * end.
    destruct (IH gp g1' Hrel') as
      (g' & g'' & Hrun & Hrel'' & Hcur'' & Hs'' & Ha'' & Hi'' & Hl'');
      [done | done | |].
    { simpl. apply Forall2_same_length_lookup.
      apply Forall2_same_length_lookup in Hrest as [Hlen Hl].
      split; [done|]. intros k j pj Hj Hpj.
      destruct (Hl k j pj Hj Hpj) as (Hjp & Hcj).
      split; [|done]. rewrite list_lookup_insert_ne; [done|].
      intros ->. apply Hi. apply list_elem_of_lookup. by exists k. }
    exists g', g''. split.
    { simpl. by apply (sendBits_app _ _ _ _ _ _ _ Hplay Hrun). }
    split; [done|]. split; [done|]. split; [done|].
    split; [rewrite Ha'', Hs; simpl; by rewrite <- app_assoc|].
    split; [done|]. rewrite Hl''. simpl. by rewrite length_insert.
Qed.

(** Starting with the call in which the interrupt routine has no current
    packet left, the pending packets are sent in queue order, each
    [numberOfRepeats + 1] times, and then released to the free queue in
    the same order; no bit of any other packet comes in between. *)
Theorem pending_played_in_order g g1 packets :
  releaseFinished g = Ok g1 ->
  _currentPacket g1 = None ->
  NoDup (_toSend g1) ->
  Forall2 (fun i p => _pool g1 !! i = Some p /\ currentBit p = 0 /\ bitsInBuffer p)
          (_toSend g1) packets ->
  exists g' g'',
    sendBits (sum_list (map playTime packets)) g =
      Ok (concat (map playBits packets), g') /\
    releaseFinished g' = Ok g'' /\
    _currentPacket g'' = None /\
    _toSend g'' = [] /\
    _availablePackets g'' = _availablePackets g1 ++ _toSend g1.
Proof.
  intros Hrel Hcur Hnd Hall.
  destruct (pending_played_in_order_aux packets g g1 Hrel Hcur Hnd Hall)
    as (g' & g'' & H1 & H2 & H3 & H4 & H5 & _).
  by exists g', g''.
Qed.

Lemma pending_played_in_order_witness :
  exists g' g'',
    sendBits (21 * 49 + 11 * 49) bootState =
      Ok (concat [playBits bootPacket0; playBits bootPacket1], g') /\
    releaseFinished g' = Ok g'' /\
    _currentPacket g'' = None /\
    _toSend g'' = [] /\
    _availablePackets g'' = [] ++ [0%nat; 1%nat].
Proof.
  apply (pending_played_in_order bootState bootState [bootPacket0; bootPacket1]).
  - reflexivity.
  - reflexivity.
  - exact (NoDup_seq 0 2).
  - repeat constructor; simpl; lia.
Defined.

(** ** configureSignal and the boot sequence *)

(** With two packets or more, configureSignal leaves packets 0 and 1
    pending and the rest of the pool free. *)
Lemma configureSignal_boot_state (n : nat) (idle : Packet) :
  (2 <= n)%nat ->
  configureSignal n idle =
    Ok (mkGen (bootPacket0 :: bootPacket1 :: replicate (n - 2) newPacket)
              idle (seq 2 (n - 2)) [0%nat; 1%nat] None).
Proof.
  intros Hn. destruct n as [|[|n]]; [lia | lia |].
  replace (S (S n) - 2)%nat with n by lia. reflexivity.
Qed.

(** configureSignal queues the reset and the idle packet before any timer
    runs: with fewer than two packets in the pool the second loadPacket
    finds the free queue empty and waits for an interrupt that cannot
    come; with two or more it leaves packets 0 and 1 pending, with 20 and
    10 repeats, and the rest of the pool free. *)
Theorem configureSignal_needs_two_packets (n : nat) (idle : Packet) :
  ((n < 2)%nat -> configureSignal n idle = Fail PoolEmpty) /\
  ((2 <= n)%nat ->
   configureSignal n idle =
     Ok (mkGen (bootPacket0 :: bootPacket1 :: replicate (n - 2) newPacket)
               idle (seq 2 (n - 2)) [0%nat; 1%nat] None)).
Proof.
  split; intros Hn.
  - destruct n as [|[|n]]; [reflexivity | reflexivity | lia].
  - by apply configureSignal_boot_state.
Qed.

Lemma configureSignal_needs_two_packets_witness :
  configureSignal 1 idleSingleton = Fail PoolEmpty /\
  configureSignal 64 idleSingleton =
    Ok (mkGen (bootPacket0 :: bootPacket1 :: replicate 62 newPacket)
              idleSingleton (seq 2 62) [0%nat; 1%nat] None).
Proof.
  split.
  - apply (configureSignal_needs_two_packets 1 idleSingleton). lia.
  - apply (configureSignal_needs_two_packets 64 idleSingleton). lia.
Defined.

(** After configureSignal the first 32 * 49 bits on the track are the reset
    packet 21 times (22 ones, then three zero bytes each behind a 0 start
    bit) and the idle packet 11 times (FF 00 FF); after them both packets
    go back to the free queue behind the unused ones. *)
Theorem boot_sequence (n : nat) (idle : Packet) :
  (2 <= n)%nat ->
  exists g g' g'',
    configureSignal n idle = Ok g /\
    sendBits (32 * 49) g =
      Ok (concat (replicate 21 (replicate 22 true ++ replicate 27 false)) ++
          concat (replicate 11 (replicate 22 true ++ [false] ++
                                replicate 8 true ++ replicate 10 false ++
                                replicate 8 true)), g') /\
    releaseFinished g' = Ok g'' /\
    _currentPacket g'' = None /\
    _toSend g'' = [] /\
    _availablePackets g'' = seq 2 (n - 2) ++ [0%nat; 1%nat].
Proof.
  intros Hn.
  pose proof (configureSignal_boot_state n idle Hn) as Hcfg.
  set (g := mkGen (bootPacket0 :: bootPacket1 :: replicate (n - 2) newPacket)
                   idle (seq 2 (n - 2)) [0%nat; 1%nat] None) in *.
  destruct (pending_played_in_order_aux [bootPacket0; bootPacket1] g g)
    as (g' & g'' & Hrun & Hrel & Hcur & Hs & Ha & _).
  - reflexivity.
  - reflexivity.
  - exact (NoDup_seq 0 2).
  - repeat constructor; simpl; lia.
  - exists g, g', g''. split; [exact Hcfg|].
    split; [|split; [exact Hrel|split; [exact Hcur|split; [exact Hs|exact Ha]]]].
    assert (sum_list (map playTime [bootPacket0; bootPacket1]) = (32 * 49)%nat)
      as Htime by (vm_compute; reflexivity).
    assert (concat (map playBits [bootPacket0; bootPacket1]) =
            concat (replicate 21 (replicate 22 true ++ replicate 27 false)) ++
            concat (replicate 11 (replicate 22 true ++ [false] ++
                                  replicate 8 true ++ replicate 10 false ++
                                  replicate 8 true)))
      as Hbits by (vm_compute; reflexivity).
    rewrite Htime, Hbits in Hrun. exact Hrun.
Qed.

Lemma boot_sequence_witness :
  exists g g' g'',
    configureSignal 64 idleSingleton = Ok g /\
    sendBits (32 * 49) g =
      Ok (concat (replicate 21 (replicate 22 true ++ replicate 27 false)) ++
          concat (replicate 11 (replicate 22 true ++ [false] ++
                                replicate 8 true ++ replicate 10 false ++
                                replicate 8 true)), g') /\
    releaseFinished g' = Ok g'' /\
    _currentPacket g'' = None /\
    _toSend g'' = [] /\
    _availablePackets g'' = seq 2 62 ++ [0%nat; 1%nat].
Proof.
  apply (boot_sequence 64 idleSingleton). lia.
Defined.

(** ** The idle packet on an empty queue *)

Lemma bitVal_buffer p q k : buffer p = buffer q -> bitVal p k = bitVal q k.
Proof. intros H. unfold bitVal. by rewrite (bitAt_buffer p q k H). Qed.

Lemma idle_extract g r c :
  0 <= c < 8 * Z.of_nat (length (buffer (_idlePacket g))) ->
  extractBit (selectPacket (idling g r c)) =
    Ok (bitVal (_idlePacket g) c, idling g r (c + 1)).
Proof.
  intros Hc. unfold selectPacket, extractBit. cbn [_currentPacket idling deref].
  cbn [_idlePacket bind currentBit].
  rewrite (bitAt_buffer _ (_idlePacket g) c) by done.
  rewrite bitAt_in_range by lia. reflexivity.
Qed.

Lemma idle_tick_mid g r c :
  0 <= c < numberOfBits (_idlePacket g) ->
  bitsInBuffer (_idlePacket g) ->
  getNextBitToSend (idling g r c) =
    Ok (bitVal (_idlePacket g) c, idling g r (c + 1)).
Proof.
  intros Hc Hb. unfold bitsInBuffer in Hb.
  unfold getNextBitToSend, releaseFinished.
  cbn [_currentPacket idling deref _idlePacket bind currentBit numberOfBits].
  rewrite decide_False by lia. cbn [bind].
  apply idle_extract. lia.
Qed.

(** At the end of a pass the idle packet starts over, whatever its
    repeat counter holds, and is never pushed onto the free queue. *)
Lemma idle_tick_end g r :
  bitsInBuffer (_idlePacket g) ->
  _toSend g = [] ->
  exists r',
    getNextBitToSend (idling g r (numberOfBits (_idlePacket g))) =
      Ok (bitVal (_idlePacket g) 0, idling g r' 1).
Proof.
  intros Hb Hs. unfold bitsInBuffer in Hb.
  unfold getNextBitToSend, releaseFinished.
  cbn [_currentPacket idling deref _idlePacket bind currentBit numberOfBits
       numberOfRepeats].
  rewrite decide_True by done.
  destruct (decide (r > 0)).
  - exists (r - 1). cbn [bind].
    change (extractBit (selectPacket (idling g (r - 1) 0)) =
            Ok (bitVal (_idlePacket g) 0, idling g (r - 1) 1)).
    apply idle_extract. lia.
  - exists r. cbn [bind].
    match goal with
    | |- extractBit (selectPacket ?x) = _ =>
      assert (selectPacket x = selectPacket (idling g r 0)) as ->
    end.
    { unfold selectPacket. simpl. rewrite Hs. reflexivity. }
    apply idle_extract. lia.
Qed.

Lemma idle_first g g1 :
  releaseFinished g = Ok g1 ->
  _currentPacket g1 = None ->
  _toSend g1 = [] ->
  bitsInBuffer (_idlePacket g1) ->
  getNextBitToSend g =
    Ok (bitVal (_idlePacket g1) 0,
        idling g1 (numberOfRepeats (_idlePacket g1)) 1).
Proof.
  intros Hrel Hcur Hs Hb. unfold bitsInBuffer in Hb.
  unfold getNextBitToSend. rewrite Hrel. cbn [bind].
  replace (selectPacket g1) with
    (selectPacket (idling g1 (numberOfRepeats (_idlePacket g1)) 0)).
  - apply idle_extract. lia.
  - unfold selectPacket at 2. rewrite Hcur, Hs. reflexivity.
Qed.

Lemma mod_succ_congr a b m :
  (a mod m = b mod m)%nat -> (S a mod m = S b mod m)%nat.
Proof.
  intros H. rewrite <- (Nat.add_1_r a), <- (Nat.add_1_r b).
  rewrite <- (Nat.Div0.add_mod_idemp_l a), <- (Nat.Div0.add_mod_idemp_l b).
  by rewrite H.
Qed.

(** With nothing pending and no packet in progress, the interrupt routine
    sends the idle packet over and over, starting at its bit 0; the pool
    and both queues stay as they are, so the idle packet never enters the
    free queue. *)
Theorem idle_played_while_queue_empty g g1 n :
  releaseFinished g = Ok g1 ->
  _currentPacket g1 = None ->
  _toSend g1 = [] ->
  bitsInBuffer (_idlePacket g1) ->
  exists gn,
    sendBits (S n) g =
      Ok (map (fun j => bitVal (_idlePacket g1)
                          (Z.of_nat (j mod Z.to_nat (numberOfBits (_idlePacket g1)))))
              (seq 0 (S n)), gn) /\
    _currentPacket gn = Some IdleRef /\
    _availablePackets gn = _availablePackets g1 /\
    _toSend gn = [] /\
    _pool gn = _pool g1.
Proof.
  intros Hrel Hcur Hs Hb.
  set (bn := Z.to_nat (numberOfBits (_idlePacket g1))).
  assert (exists r c, (1 <= c <= bn)%nat /\ (S n mod bn = c mod bn)%nat /\
            sendBits (S n) g =
              Ok (map (fun j => bitVal (_idlePacket g1) (Z.of_nat (j mod bn)))
                      (seq 0 (S n)), idling g1 r (Z.of_nat c)))
    as (r & c & _ & _ & Hrun).
  { pose proof Hb as Hb'. unfold bitsInBuffer in Hb'.
    induction n as [|n IH].
    - exists (numberOfRepeats (_idlePacket g1)), 1%nat.
      split; [subst bn; lia|]. split; [done|].
      cbn [sendBits]. rewrite (idle_first g g1) by done.
      cbn [bind fst snd seq map]. by rewrite Nat.Div0.mod_0_l.
    - destruct IH as (r & c & Hc & Hmod & Hrun).
      rewrite seq_snoc_map.
      destruct (decide (c < bn)%nat) as [Hlt|Hge].
      + exists r, (S c). split; [lia|].
        split; [by apply mod_succ_congr|].
        apply (sendBits_snoc _ _ _ _ _ _ Hrun).
        rewrite idle_tick_mid by (done || (subst bn; lia)).
        rewrite Hmod, (Nat.mod_small c bn) by done.
        do 3 f_equal. lia.
      + assert (c = bn) as -> by lia.
        destruct (idle_tick_end g1 r Hb Hs) as (r' & Htick).
        exists r', 1%nat. split; [lia|].
        split.
        { rewrite (mod_succ_congr _ _ _ Hmod).
          replace (S bn) with (1 + 1 * bn)%nat by lia.
          apply Nat.Div0.mod_add. }
        apply (sendBits_snoc _ _ _ _ _ _ Hrun).
        replace (Z.of_nat bn) with (numberOfBits (_idlePacket g1))
          by (subst bn; lia).
        rewrite Htick, Hmod, Nat.Div0.mod_same. reflexivity. }
  eexists. split; [exact Hrun|]. by repeat split.
Qed.

Lemma idle_played_while_queue_empty_witness :
  exists gn,
    sendBits 100 (allocatePackets 2 idleSingleton) =
      Ok (map (fun j => bitVal idleSingleton (Z.of_nat (j mod 49)))
              (seq 0 100), gn) /\
    _currentPacket gn = Some IdleRef /\
    _availablePackets gn = [0%nat; 1%nat] /\
    _toSend gn = [] /\
    _pool gn = [newPacket; newPacket].
Proof.
  apply (idle_played_while_queue_empty
           (allocatePackets 2 idleSingleton) (allocatePackets 2 idleSingleton) 99).
  - reflexivity.
  - reflexivity.
  - reflexivity.
  - unfold bitsInBuffer. simpl. lia.
Defined.

(** ** What stopSignal does to the packets *)

Lemma memset0_idem p : memset0 (memset0 p) = memset0 p.
Proof. unfold memset0. simpl. by rewrite length_replicate. Qed.

Lemma drain_pool pending : forall g g',
  drain pending g = Ok g' ->
  _idlePacket g' = _idlePacket g /\
  (forall i, i ∉ pending -> _pool g' !! i = _pool g !! i) /\
  (forall i p, i ∈ pending -> _pool g !! i = Some p ->
     _pool g' !! i = Some (memset0 p)).
Proof.
  induction pending as [|j rest IH]; intros g g' Hrun.
  - simpl in Hrun. injection Hrun as <-. split; [done|]. split; [done|].
    intros i p Hi. by apply not_elem_of_nil in Hi.
  - cbn [drain deref set_toSend set_currentPacket _pool] in Hrun.
    destruct (_pool g !! j) as [pj|] eqn:Hj; [|done].
    cbn [of_option bind] in Hrun.
    apply IH in Hrun as (Hidle & Hout & Hin). simpl in Hidle, Hout, Hin.
    assert (j < length (_pool g))%nat as Hlt by (by eapply lookup_lt_Some).
    split; [done|]. split.
    + intros i Hi. apply not_elem_of_cons in Hi as [Hne Hi].
      rewrite (Hout i Hi). by apply list_lookup_insert_ne.
    + intros i p Hi Hp. destruct (decide (i ∈ rest)) as [Hr|Hr].
      * destruct (decide (j = i)) as [->|Hne].
        -- rewrite (Hin i (memset0 p) Hr); [by rewrite memset0_idem|].
           rewrite list_lookup_insert_eq by done. congruence.
        -- apply (Hin i p Hr). by rewrite list_lookup_insert_ne.
      * apply elem_of_cons in Hi as [->|Hi]; [|done].
        rewrite (Hout j Hr), list_lookup_insert_eq by done. congruence.
Qed.

(** stopSignal zeroes exactly the packets that were pending.  Every other
    pool packet, the packet that was current among them, and the idle
    packet keep their contents. *)
Theorem stopSignal_zeroes_pending g :
  Forall (fun i => i < length (_pool g))%nat (_toSend g) ->
  exists g',
    stopSignal g = Ok g' /\
    _idlePacket g' = _idlePacket g /\
    (forall i p, i ∈ _toSend g -> _pool g !! i = Some p ->
       _pool g' !! i = Some (memset0 p)) /\
    (forall i, i ∉ _toSend g -> _pool g' !! i = _pool g !! i).
Proof.
  intros Hvalid. unfold stopSignal.
  set (g1 := match _currentPacket g with
             | Some (PoolRef i) =>
               set_currentPacket None
                 (set_availablePackets (_availablePackets g ++ [i]) g)
             | _ => g
             end).
  assert (_toSend g1 = _toSend g /\ _pool g1 = _pool g /\
          _idlePacket g1 = _idlePacket g) as (Hs & Hp & Hi).
  { subst g1. by destruct (_currentPacket g) as [[|i]|]. }
  destruct (drain_spec (_toSend g1) g1) as (g' & Hrun & _);
    [by rewrite Hs, Hp|].
  exists g'. split; [exact Hrun|].
  apply drain_pool in Hrun as (Hidle & Hout & Hin).
  rewrite Hs, Hp in *. split; [congruence|]. by split.
Qed.

Lemma stopSignal_zeroes_pending_witness :
  exists g',
    stopSignal demoState = Ok g' /\
    _idlePacket g' = _idlePacket demoState /\
    (forall i p, i ∈ _toSend demoState -> _pool demoState !! i = Some p ->
       _pool g' !! i = Some (memset0 p)) /\
    (forall i, i ∉ _toSend demoState -> _pool g' !! i = _pool demoState !! i).
Proof.
  apply (stopSignal_zeroes_pending demoState).
  simpl. repeat constructor.
Defined.

(** With nothing pending, stopSignal keeps the pool conserved: a current
    pool packet moves to the back of the free queue and the pointer is
    cleared; the packets themselves are not written. *)
Theorem stopSignal_idle_generator g :
  conserved g ->
  _toSend g = [] ->
  exists g',
    stopSignal g = Ok g' /\
    conserved g' /\
    _availablePackets g' = _availablePackets g ++ held g /\
    held g' = [] /\
    _toSend g' = [] /\
    _pool g' = _pool g.
Proof.
  intros Hcons Hs. unfold stopSignal.
  destruct (_currentPacket g) as [[|i]|] eqn:Hcur.
  - rewrite Hs. exists g. unfold held. rewrite Hcur, app_nil_r. by repeat split.
  - simpl. rewrite Hs. simpl. eexists. split; [reflexivity|].
    unfold conserved, owned, held in *. simpl. rewrite Hcur, Hs in *.
    simpl in *. rewrite app_nil_r. by repeat split.
  - rewrite Hs. exists g. unfold held. rewrite Hcur, app_nil_r. by repeat split.
Qed.

Lemma stopSignal_idle_generator_witness :
  exists g',
    stopSignal (mkGen [newPacket; bootPacket1] idleSingleton [0%nat] []
                      (Some (PoolRef 1))) = Ok g' /\
    conserved g' /\
    _availablePackets g' = [0%nat] ++ [1%nat] /\
    held g' = [] /\
    _toSend g' = [] /\
    _pool g' = [newPacket; bootPacket1].
Proof.
  apply (stopSignal_idle_generator
           (mkGen [newPacket; bootPacket1] idleSingleton [0%nat] []
                  (Some (PoolRef 1)))).
  - unfold conserved, owned, held. simpl. reflexivity.
  - reflexivity.
Defined.

(** ** Bounds on the sampled average *)


(** The average lies between the smallest and the largest positive
    reading of the window (and is 0 when there is none): it never exceeds
    what the converter can deliver. *)
Theorem sampleADCChannel_between adc1_get_raw sampleCount t lo hi :
  (sampleCount <= 255)%nat ->
  (forall k, is_int (adc1_get_raw k)) ->
  (forall x, x ∈ window adc1_get_raw sampleCount t -> x > 0 -> lo <= x <= hi) ->
  (positives (window adc1_get_raw sampleCount t) = [] ->
   fst (sampleADCChannel adc1_get_raw sampleCount t) = 0) /\
  (positives (window adc1_get_raw sampleCount t) <> [] ->
   lo <= fst (sampleADCChannel adc1_get_raw sampleCount t) <= hi).
Proof.
  intros Hcount Hint Hrange.
  set (readings := window adc1_get_raw sampleCount t) in *.
  assert (Forall is_int readings) as Hall.
  { apply Forall_forall. intros x Hx. apply list_elem_of_fmap in Hx.
    destruct Hx as (k & -> & _). apply Hint. }
  destruct (positives_bounds readings Hall) as [Hsum Hlen].
  assert (length readings = sampleCount) as Hrl.
  { unfold readings, window. by rewrite length_map, length_seq. }
  assert (sumZ (positives readings) < 2 ^ 64) as Hlt.
  { assert (Z.of_nat (length readings) * 2 ^ 31 <= 255 * 2 ^ 31) by nia.
    assert (255 * 2 ^ 31 < 2 ^ 64) by done. lia. }
  rewrite (sampleADCChannel_value adc1_get_raw sampleCount t Hlt).
  fold readings. cbn [fst]. split; intros E.
  - by rewrite decide_True.
  - rewrite decide_False by done.
    pose proof (positives_sum_between readings lo hi Hrange) as Hb.
    assert (0 < Z.of_nat (length (positives readings))) as Hpos.
    { destruct (positives readings); [done | simpl; lia]. }
    split.
    + apply Z.div_le_lower_bound; lia.
    + apply Z.div_le_upper_bound; lia.
Qed.

Lemma sampleADCChannel_between_witness :
  (positives (window (fun k => match k with 0%nat => 0 | 1%nat => 100 | _ => 200 end)
                     5 0) = [] ->
   fst (sampleADCChannel
          (fun k => match k with 0%nat => 0 | 1%nat => 100 | _ => 200 end) 5 0) = 0) /\
  (positives (window (fun k => match k with 0%nat => 0 | 1%nat => 100 | _ => 200 end)
                     5 0) <> [] ->
   100 <= fst (sampleADCChannel
                 (fun k => match k with 0%nat => 0 | 1%nat => 100 | _ => 200 end) 5 0)
       <= 200).
Proof.
  apply (sampleADCChannel_between
           (fun k => match k with 0%nat => 0 | 1%nat => 100 | _ => 200 end)
           5 0 100 200).
  - lia.
  - intros [|[|k]]; unfold is_int; lia.
  - intros x Hx Hpos. unfold window in Hx. simpl in Hx.
    repeat (apply elem_of_cons in Hx as [->|Hx]; [lia|]).
    by apply not_elem_of_nil in Hx.
Defined.

(** ** Service-mode writes *)

Lemma window_elem adc1_get_raw sampleCount t x :
  x ∈ window adc1_get_raw sampleCount t -> exists k, x = adc1_get_raw k.
Proof.
  intros Hx. apply list_elem_of_fmap in Hx as (k & -> & _). by exists k.
Qed.

Lemma average_le adc1_get_raw sampleCount t M :
  0 <= M -> Z.of_nat sampleCount * M < 2 ^ 64 ->
  (forall k, adc1_get_raw k <= M) ->
  fst (sampleADCChannel adc1_get_raw sampleCount t) <= M.
Proof.
  intros HM Hsmall Hle.
  set (readings := window adc1_get_raw sampleCount t).
  assert (forall x, x ∈ readings -> x > 0 -> 1 <= x <= M) as Hrange.
  { intros x Hx Hpos. apply window_elem in Hx as (k & ->).
    specialize (Hle k). lia. }
  pose proof (positives_sum_between readings 1 M Hrange) as Hb.
  assert (length (positives readings) <= sampleCount)%nat as Hlen.
  { unfold positives. etrans; [apply length_filter|].
    unfold readings, window. by rewrite length_map, length_seq. }
  assert (sumZ (positives readings) < 2 ^ 64) as Hlt by nia.
  rewrite (sampleADCChannel_value adc1_get_raw sampleCount t Hlt).
  fold readings. cbn [fst].
  destruct (decide (positives readings = [])) as [E|E]; [done|].
  assert (0 < Z.of_nat (length (positives readings))) as Hpos.
  { destruct (positives readings); [done | simpl; lia]. }
  apply Z.div_le_upper_bound; lia.
Qed.

Lemma average_gt adc1_get_raw sampleCount t M :
  0 <= M -> (1 <= sampleCount <= 255)%nat ->
  (forall k, is_int (adc1_get_raw k)) ->
  (forall k, adc1_get_raw k > M) ->
  fst (sampleADCChannel adc1_get_raw sampleCount t) > M.
Proof.
  intros HM Hcount Hint Hgt.
  set (readings := window adc1_get_raw sampleCount t).
  assert (forall x, x ∈ readings -> x > 0 -> M + 1 <= x <= 2 ^ 31) as Hrange.
  { intros x Hx _. apply window_elem in Hx as (k & ->).
    specialize (Hgt k). specialize (Hint k). unfold is_int in Hint. lia. }
  pose proof (positives_sum_between readings (M + 1) (2 ^ 31) Hrange) as Hb.
  assert (length (positives readings) <= sampleCount)%nat as Hlen.
  { unfold positives. etrans; [apply length_filter|].
    unfold readings, window. by rewrite length_map, length_seq. }
  assert (sumZ (positives readings) < 2 ^ 64) as Hlt.
  { assert (Z.of_nat (length (positives readings)) * 2 ^ 31 <= 255 * 2 ^ 31) by nia.
    assert (255 * 2 ^ 31 < 2 ^ 64) by done. lia. }
  rewrite (sampleADCChannel_value adc1_get_raw sampleCount t Hlt).
  fold readings. cbn [fst].
  assert (positives readings <> []) as Hne.
  { unfold readings. destruct sampleCount as [|n]; [lia|].
    rewrite window_S, positives_cons.
    rewrite decide_True by (specialize (Hgt t); lia). done. }
  rewrite decide_False by done.
  assert (0 < Z.of_nat (length (positives readings))) as Hpos.
  { destruct (positives readings); [done | simpl; lia]. }
  assert (M + 1 <= sumZ (positives readings)
                   / Z.of_nat (length (positives readings))); [|lia].
  apply Z.div_le_lower_bound; lia.
Qed.

Section WriteFacts.

Variable adc1_get_raw : nat -> Z.
Variable ack : Z.
Hypothesis ack_range : 0 <= ack < 65536.

(** Attempts that draw no acknowledgement all run, each with one reset,
    the write packet and the closing resets, and one sampling window. *)
Lemma writeAttempts_no_ack attempts writePacket verifyPacket : forall w,
  (forall k, adc1_get_raw k <= ack) ->
  writeAttempts adc1_get_raw ack attempts writePacket verifyPacket w =
    (false,
     mkWorld (sent w ++ concat (replicate attempts (failedAttempt writePacket)))
             (conversions w + attempts * CVSampleCount)).
Proof.
  intros w Hle. revert w.
  assert (forall t, fst (sampleADCChannel adc1_get_raw CVSampleCount t)
                    <= ack) as Havg.
  { intros t. apply average_le; [lia | unfold CVSampleCount; lia | done]. }
  induction attempts as [|n IH]; intros w.
  - simpl. rewrite app_nil_r, Nat.add_0_r. by destruct w.
  - cbn [writeAttempts]. unfold waitForQueueEmpty.
    rewrite sample_spec. cbn [fst snd].
    rewrite decide_False
      by (match goal with
          | |- ~ fst (sampleADCChannel _ _ ?t) > _ => specialize (Havg t); lia
          end).
    rewrite IH. cbn [emit sent conversions]. f_equal. f_equal.
    + rewrite replicate_S. cbn [concat]. unfold failedAttempt at 2.
      rewrite <- !app_assoc. reflexivity.
    + lia.
Qed.

(** An attempt that is acknowledged twice is the last one. *)
Lemma writeAttempts_ack attempts writePacket verifyPacket w :
  (forall k, is_int (adc1_get_raw k)) ->
  (forall k, adc1_get_raw k > ack) ->
  writeAttempts adc1_get_raw ack (S attempts) writePacket verifyPacket w =
    (true,
     mkWorld (sent w ++ verifiedAttempt writePacket verifyPacket)
             (conversions w + 2 * CVSampleCount)).
Proof.
  intros Hint Hgt.
  assert (forall t, fst (sampleADCChannel adc1_get_raw CVSampleCount t)
                    > ack) as Havg.
  { intros t. apply average_gt; [lia | unfold CVSampleCount; lia | done | done]. }
  cbn [writeAttempts]. unfold waitForQueueEmpty.
  rewrite sample_spec. cbn [fst snd].
  rewrite decide_True by apply Havg.
  rewrite sample_spec. cbn [fst snd].
  rewrite decide_True by apply Havg.
  unfold emit. cbn [sent conversions]. f_equal. f_equal.
  - unfold verifiedAttempt. rewrite <- !app_assoc. reflexivity.
  - lia.
Qed.

End WriteFacts.

Lemma bit_byte_small base bit (value : bool) :
  0 <= bit <= 7 -> 0 <= base <= 240 ->
  u8 (base + bit + Z.b2z value * 8) = base + bit + Z.b2z value * 8.
Proof.
  intros Hb Hbase. unfold u8. apply Z.mod_small. destruct value; simpl; lia.
Qed.

(** A decoder that never acknowledges: on a board of at least 1 mA,
    writeProgCVByte and writeProgCVBit give up with [false] after exactly
    five attempts, each consisting of one reset packet, the write packet
    with 4 repeats and a reset packet with 3 repeats, and each followed by
    one sampling window. *)
Theorem write_without_ack_fails_after_five_attempts
  adc1_get_raw maxMilliAmps cv cvValue bit value w :
  1 <= cv <= 1024 ->
  0 <= bit <= 7 ->
  0 < maxMilliAmps ->
  (forall k, adc1_get_raw k <= (4096 * 60 / maxMilliAmps) mod 65536) ->
  writeProgCVByte adc1_get_raw maxMilliAmps cv cvValue w =
    Ok (false,
        mkWorld (sent w ++ concat (replicate 5
                   [(resetPacket, 1); (writeBytePacket cv cvValue, 4); (resetPacket, 3)]))
                (conversions w + 5 * CVSampleCount)) /\
  writeProgCVBit adc1_get_raw maxMilliAmps cv bit value w =
    Ok (false,
        mkWorld (sent w ++ concat (replicate 5
                   [(resetPacket, 1); (writeBitPacket cv bit value, 4); (resetPacket, 3)]))
                (conversions w + 5 * CVSampleCount)).
Proof.
  intros Hcv Hbit Hmax Hle. unfold writeProgCVByte, writeProgCVBit, maxWriteAttempts.
  rewrite milliAmpAck_Ok by lia. cbn [bind].
  rewrite !writeAttempts_no_ack by (apply ackThreshold_range || done).
  unfold failedAttempt, writeBytePacket, writeBitPacket. cbn [take].
  rewrite !cvHeader_div, !lowByte_mod by lia.
  rewrite (bit_byte_small 240) by lia. done.
Qed.

Lemma write_without_ack_fails_after_five_attempts_witness :
  writeProgCVByte (fun _ => 0) 2000 7 0x55 (mkWorld [] 0) =
    Ok (false,
        mkWorld ([] ++ concat (replicate 5
                   [(resetPacket, 1); (writeBytePacket 7 0x55, 4); (resetPacket, 3)]))
                (0 + 5 * CVSampleCount)) /\
  writeProgCVBit (fun _ => 0) 2000 7 3 true (mkWorld [] 0) =
    Ok (false,
        mkWorld ([] ++ concat (replicate 5
                   [(resetPacket, 1); (writeBitPacket 7 3 true, 4); (resetPacket, 3)]))
                (0 + 5 * CVSampleCount)).
Proof.
  apply (write_without_ack_fails_after_five_attempts
           (fun _ => 0) 2000 7 0x55 3 true (mkWorld [] 0)).
  - lia.
  - lia.
  - lia.
  - intros k. vm_compute. discriminate.
Defined.

(** A decoder that acknowledges every time: on a board of at least 1 mA
    the first attempt succeeds.  Both functions return [true] after one
    reset, the write packet, three resets, the verify packet and the
    closing resets, having sampled twice. *)
Theorem write_with_ack_succeeds_at_once
  adc1_get_raw maxMilliAmps cv cvValue bit value w :
  1 <= cv <= 1024 ->
  0 <= bit <= 7 ->
  0 < maxMilliAmps ->
  (forall k, is_int (adc1_get_raw k)) ->
  (forall k, adc1_get_raw k > (4096 * 60 / maxMilliAmps) mod 65536) ->
  writeProgCVByte adc1_get_raw maxMilliAmps cv cvValue w =
    Ok (true,
        mkWorld (sent w ++
                   [(resetPacket, 1); (writeBytePacket cv cvValue, 4); (resetPacket, 3);
                    (verifyBytePacket cv cvValue, 5); (resetPacket, 3)])
                (conversions w + 2 * CVSampleCount)) /\
  writeProgCVBit adc1_get_raw maxMilliAmps cv bit value w =
    Ok (true,
        mkWorld (sent w ++
                   [(resetPacket, 1); (writeBitPacket cv bit value, 4); (resetPacket, 3);
                    (verifyWrittenBitPacket cv bit value, 5); (resetPacket, 3)])
                (conversions w + 2 * CVSampleCount)).
Proof.
  intros Hcv Hbit Hmax Hint Hgt.
  unfold writeProgCVByte, writeProgCVBit, maxWriteAttempts.
  rewrite milliAmpAck_Ok by lia. cbn [bind].
  rewrite !writeAttempts_ack by (apply ackThreshold_range || done).
  unfold verifiedAttempt, writeBytePacket, writeBitPacket, verifyBytePacket,
    verifyWrittenBitPacket. cbn [take].
  rewrite !cvHeader_div, !lowByte_mod by lia.
  rewrite (bit_byte_small 240), (bit_byte_small 176) by lia. done.
Qed.

Lemma write_with_ack_succeeds_at_once_witness :
  writeProgCVByte (fun _ => 500) 2000 7 0x55 (mkWorld [] 0) =
    Ok (true,
        mkWorld ([] ++
                   [(resetPacket, 1); (writeBytePacket 7 0x55, 4); (resetPacket, 3);
                    (verifyBytePacket 7 0x55, 5); (resetPacket, 3)])
                (0 + 2 * CVSampleCount)) /\
  writeProgCVBit (fun _ => 500) 2000 7 3 true (mkWorld [] 0) =
    Ok (true,
        mkWorld ([] ++
                   [(resetPacket, 1); (writeBitPacket 7 3 true, 4); (resetPacket, 3);
                    (verifyWrittenBitPacket 7 3 true, 5); (resetPacket, 3)])
                (0 + 2 * CVSampleCount)).
Proof.
  apply (write_with_ack_succeeds_at_once
           (fun _ => 500) 2000 7 0x55 3 true (mkWorld [] 0)).
  - lia.
  - lia.
  - lia.
  - intros k. unfold is_int. lia.
  - intros k. vm_compute. reflexivity.
Defined.

Section WriteBounds.

Variable adc1_get_raw : nat -> Z.
Variable ack : Z.

(** One turn of the attempt loop. *)
Lemma writeAttempts_step m writePacket verifyPacket w :
  writeAttempts adc1_get_raw ack (S m) writePacket verifyPacket w =
    let w1 := emit writePacket 3 4 (emit resetPacket 2 1 w) in
    let w2 := mkWorld (sent w1) (conversions w1 + CVSampleCount) in
    if decide (fst (sampleADCChannel adc1_get_raw CVSampleCount (conversions w1))
               > ack) then
      let w3 := emit verifyPacket 3 5 (emit resetPacket 2 3 w2) in
      let w4 := emit resetPacket 2 3
                  (mkWorld (sent w3) (conversions w3 + CVSampleCount)) in
      if decide (fst (sampleADCChannel adc1_get_raw CVSampleCount (conversions w3))
                 > ack)
      then (true, w4)
      else writeAttempts adc1_get_raw ack m writePacket verifyPacket w4
    else
      writeAttempts adc1_get_raw ack m writePacket verifyPacket
        (emit resetPacket 2 3 w2).
Proof.
  cbn [writeAttempts]. unfold waitForQueueEmpty. rewrite sample_spec.
  cbv zeta. cbn [fst snd].
  destruct (decide (_ > _)); [|reflexivity].
  rewrite sample_spec. cbn [fst snd].
  destruct (decide (_ > _)); reflexivity.
Qed.

(** The attempt loop, attempt by attempt: [acks] records for each attempt
    made whether its write packet was acknowledged. *)
Lemma writeAttempts_outcome attempts writePacket verifyPacket : forall w,
  exists acks : list bool,
    (length acks <= attempts)%nat /\
    (attempts <> 0%nat -> acks <> []) /\
    sent (snd (writeAttempts adc1_get_raw ack attempts writePacket verifyPacket w)) =
      sent w ++ concat (map (fun a : bool =>
                               if a then verifiedAttempt writePacket verifyPacket
                               else failedAttempt writePacket) acks) /\
    conversions (snd (writeAttempts adc1_get_raw ack attempts
                        writePacket verifyPacket w)) =
      (conversions w
       + sum_list (map (fun a : bool => if a then 2 else 1) acks) * CVSampleCount)%nat /\
    (fst (writeAttempts adc1_get_raw ack attempts writePacket verifyPacket w) = true ->
     last acks = Some true) /\
    (fst (writeAttempts adc1_get_raw ack attempts writePacket verifyPacket w) = false ->
     length acks = attempts).
Proof.
  induction attempts as [|n IH]; intros w.
  - exists []. simpl. rewrite app_nil_r. repeat split; try done; lia.
  - rewrite writeAttempts_step; cbv zeta.
    destruct (decide (_ > _)); [destruct (decide (_ > _))|].
    + exists [true]. unfold emit. cbn [fst snd sent conversions].
      split; [simpl; lia|]. split; [done|].
      split; [cbn [map concat]; rewrite app_nil_r; unfold verifiedAttempt;
              by rewrite <- !app_assoc|].
      split; [cbn [map sum_list_with id]; lia|]. split; done.
    + match goal with
      | |- context [writeAttempts _ _ n _ _ ?w1] =>
        destruct (IH w1) as (acks & Hl & Hne & Hs & Hc & Hok & Hno)
      end.
      exists (true :: acks). rewrite Hs, Hc. unfold emit. cbn [sent conversions].
      split; [simpl; lia|]. split; [done|].
      split; [cbn [map concat]; unfold verifiedAttempt at 2;
              by rewrite <- !app_assoc|].
      split; [cbn [map sum_list_with id]; lia|].
      split.
      * intros Ht. specialize (Hok Ht). destruct acks as [|a acks]; [done|].
        by rewrite last_cons_cons.
      * intros Hf. specialize (Hno Hf). simpl. lia.
    + match goal with
      | |- context [writeAttempts _ _ n _ _ ?w1] =>
        destruct (IH w1) as (acks & Hl & Hne & Hs & Hc & Hok & Hno)
      end.
      exists (false :: acks). rewrite Hs, Hc. unfold emit. cbn [sent conversions].
      split; [simpl; lia|]. split; [done|].
      split; [cbn [map concat]; unfold failedAttempt at 2;
              by rewrite <- !app_assoc|].
      split; [cbn [map sum_list_with id]; lia|].
      split.
      * intros Ht. specialize (Hok Ht). destruct acks as [|a acks]; [done|].
        by rewrite last_cons_cons.
      * intros Hf. specialize (Hno Hf). simpl. lia.
Qed.

End WriteBounds.

(** Whatever the converter reads, on a board of at least 1 mA
    writeProgCVByte and writeProgCVBit make between one and five
    attempts.  Each attempt hands over a reset packet, the write packet
    with 4 repeats and a reset packet with 3 repeats, followed, when the
    write was acknowledged, by the verify packet with 5 repeats and a
    reset packet with 3 repeats; it takes one sampling window, and one
    more when the write was acknowledged.  The functions return [true]
    only when the write of the last attempt was acknowledged, and [false]
    only after the fifth attempt. *)
Theorem service_write_is_bounded
  adc1_get_raw maxMilliAmps cv cvValue bit value w :
  1 <= cv <= 1024 ->
  0 <= bit <= 7 ->
  0 < maxMilliAmps ->
  (exists result,
     writeProgCVByte adc1_get_raw maxMilliAmps cv cvValue w = Ok result /\
     writeOutcome w
       [(resetPacket, 1); (writeBytePacket cv cvValue, 4); (resetPacket, 3)]
       [(resetPacket, 1); (writeBytePacket cv cvValue, 4); (resetPacket, 3);
        (verifyBytePacket cv cvValue, 5); (resetPacket, 3)]
       result) /\
  (exists result,
     writeProgCVBit adc1_get_raw maxMilliAmps cv bit value w = Ok result /\
     writeOutcome w
       [(resetPacket, 1); (writeBitPacket cv bit value, 4); (resetPacket, 3)]
       [(resetPacket, 1); (writeBitPacket cv bit value, 4); (resetPacket, 3);
        (verifyWrittenBitPacket cv bit value, 5); (resetPacket, 3)]
       result).
Proof.
  intros Hcv Hbit Hmax. unfold writeProgCVByte, writeProgCVBit, maxWriteAttempts.
  rewrite milliAmpAck_Ok by lia. cbn [bind].
  split.
  - destruct (writeAttempts_outcome adc1_get_raw (ackThreshold maxMilliAmps) 5
                [cvHeader 124 cv; lowByte (cv - 1); cvValue; 0]
                [cvHeader 116 cv; lowByte (cv - 1); cvValue; 0] w)
      as (acks & Hl & Hne & Hs & Hc & Hok & Hno).
    revert Hs Hc Hok Hno.
    generalize (writeAttempts adc1_get_raw (ackThreshold maxMilliAmps) 5
                  [cvHeader 124 cv; lowByte (cv - 1); cvValue; 0]
                  [cvHeader 116 cv; lowByte (cv - 1); cvValue; 0] w).
    intros result Hs Hc Hok Hno.
    exists result. split; [reflexivity|]. exists acks.
    split.
    { specialize (Hne ltac:(lia)). destruct acks; [done|].
      cbn [length] in Hl |- *. lia. }
    split.
    { rewrite Hs. do 3 f_equal.
      unfold verifiedAttempt, failedAttempt, writeBytePacket, verifyBytePacket.
      cbn [take]. by rewrite !cvHeader_div, !lowByte_mod by lia. }
    split; [done|]. split; done.
  - destruct (writeAttempts_outcome adc1_get_raw (ackThreshold maxMilliAmps) 5
                [cvHeader 120 cv; lowByte (cv - 1);
                 u8 (240 + bit + Z.b2z value * 8); 0]
                [cvHeader 116 cv; lowByte (cv - 1);
                 u8 (176 + bit + Z.b2z value * 8); 0] w)
      as (acks & Hl & Hne & Hs & Hc & Hok & Hno).
    revert Hs Hc Hok Hno.
    generalize (writeAttempts adc1_get_raw (ackThreshold maxMilliAmps) 5
                  [cvHeader 120 cv; lowByte (cv - 1);
                   u8 (240 + bit + Z.b2z value * 8); 0]
                  [cvHeader 116 cv; lowByte (cv - 1);
                   u8 (176 + bit + Z.b2z value * 8); 0] w).
    intros result Hs Hc Hok Hno.
    exists result. split; [reflexivity|]. exists acks.
    split.
    { specialize (Hne ltac:(lia)). destruct acks; [done|].
      cbn [length] in Hl |- *. lia. }
    split.
    { rewrite Hs. do 3 f_equal.
      unfold verifiedAttempt, failedAttempt, writeBitPacket, verifyWrittenBitPacket.
      cbn [take]. rewrite !cvHeader_div, !lowByte_mod by lia.
      by rewrite (bit_byte_small 240), (bit_byte_small 176) by lia. }
    split; [done|]. split; done.
Qed.

Lemma service_write_is_bounded_witness :
  (exists result,
     writeProgCVByte (fun k => if decide (k < 600)%nat then 500 else 0)
                     2000 7 0x55 (mkWorld [] 0) = Ok result /\
     writeOutcome (mkWorld [] 0)
       [(resetPacket, 1); (writeBytePacket 7 0x55, 4); (resetPacket, 3)]
       [(resetPacket, 1); (writeBytePacket 7 0x55, 4); (resetPacket, 3);
        (verifyBytePacket 7 0x55, 5); (resetPacket, 3)]
       result) /\
  (exists result,
     writeProgCVBit (fun k => if decide (k < 600)%nat then 500 else 0)
                    2000 7 3 true (mkWorld [] 0) = Ok result /\
     writeOutcome (mkWorld [] 0)
       [(resetPacket, 1); (writeBitPacket 7 3 true, 4); (resetPacket, 3)]
       [(resetPacket, 1); (writeBitPacket 7 3 true, 4); (resetPacket, 3);
        (verifyWrittenBitPacket 7 3 true, 5); (resetPacket, 3)]
       result).
Proof.
  apply (service_write_is_bounded
           (fun k => if decide (k < 600)%nat then 500 else 0)
           2000 7 0x55 3 true (mkWorld [] 0)).
  - lia.
  - lia.
  - lia.
Defined.

(** A board that reports 0 mA: both functions stop at the division
    before any packet is handed over. *)
Example service_write_divides_by_zero :
  writeProgCVByte (fun _ => 500) 0 7 0x55 (mkWorld [] 0) = Fail DivideByZero /\
  writeProgCVBit (fun _ => 500) 0 7 3 true (mkWorld [] 0) = Fail DivideByZero.
Proof. split; reflexivity. Qed.

(** ** Operations-mode writes *)

Lemma lor_long_address x : 0 <= x < 64 -> Z.lor 192 x = 192 + x.
Proof.
  intros Hx.
  assert (Forall (fun y => Z.lor 192 y = 192 + y) (seqZ 0 64)) as Hall.
  { apply (bool_decide_unpack _). vm_compute. exact I. }
  apply (proj1 (Forall_forall _ _) Hall). apply elem_of_seqZ. lia.
Qed.

Lemma highByte_div w : 0 <= w < 65536 -> highByte w = w / 256.
Proof.
  intros Hw. unfold highByte, u8. rewrite Z.shiftr_div_pow2 by lia.
  change (2 ^ 8) with 256. apply Z.mod_small. split.
  - apply Z.div_pos; lia.
  - apply Z.div_lt_upper_bound; lia.
Qed.

(** The bytes the two functions hand to loadBytePacket. *)
Lemma writeOpsCVByte_payload locoNumber cv cvValue g :
  0 <= locoNumber <= 10239 ->
  1 <= cv <= 1024 ->
  writeOpsCVByte locoNumber cv cvValue g =
    loadPacket (opsBytePayload locoNumber cv cvValue) 4 g.
Proof.
  intros Hl Hcv. unfold writeOpsCVByte, opsBytePayload, opsAddress, loadBytePacket.
  destruct (decide (locoNumber > 127)).
  - rewrite decide_True by (simpl; lia). cbn [take app].
    rewrite cvHeader_div, !lowByte_mod, highByte_div by lia.
    assert (0 <= locoNumber / 256 < 40) as Hq.
    { split; [apply Z.div_pos; lia | apply Z.div_lt_upper_bound; lia]. }
    rewrite lor_long_address by lia.
    unfold u8. rewrite (Z.mod_small (192 + _)) by lia. reflexivity.
  - rewrite decide_True by (simpl; lia). cbn [take app].
    rewrite cvHeader_div, !lowByte_mod by lia.
    rewrite (Z.mod_small locoNumber) by lia. reflexivity.
Qed.

Lemma writeOpsCVBit_payload locoNumber cv bit value g :
  0 <= locoNumber <= 10239 ->
  1 <= cv <= 1024 ->
  0 <= bit <= 7 ->
  writeOpsCVBit locoNumber cv bit value g =
    loadPacket (opsBitPayload locoNumber cv bit value) 4 g.
Proof.
  intros Hl Hcv Hbit.
  unfold writeOpsCVBit, opsBitPayload, opsAddress, loadBytePacket.
  destruct (decide (locoNumber > 127)).
  - rewrite decide_True by (simpl; lia). cbn [take app].
    rewrite cvHeader_div, !lowByte_mod, highByte_div by lia.
    assert (0 <= locoNumber / 256 < 40) as Hq.
    { split; [apply Z.div_pos; lia | apply Z.div_lt_upper_bound; lia]. }
    rewrite lor_long_address by lia.
    rewrite (bit_byte_small 240) by lia.
    unfold u8. rewrite (Z.mod_small (192 + _)) by lia. reflexivity.
  - rewrite decide_True by (simpl; lia). cbn [take app].
    rewrite cvHeader_div, !lowByte_mod by lia.
    rewrite (bit_byte_small 240) by lia.
    rewrite (Z.mod_small locoNumber) by lia. reflexivity.
Qed.

Lemma opsAddress_bytes locoNumber :
  0 <= locoNumber <= 10239 ->
  Forall is_u8 (opsAddress locoNumber) /\
  length (opsAddress locoNumber) = if decide (locoNumber > 127) then 2%nat else 1%nat.
Proof.
  intros Hl. unfold opsAddress, is_u8.
  destruct (decide (locoNumber > 127)).
  - assert (0 <= locoNumber / 256 < 40) as Hq.
    { split; [apply Z.div_pos; lia | apply Z.div_lt_upper_bound; lia]. }
    pose proof (Z.mod_pos_bound locoNumber 256).
    split; [repeat constructor; lia | done].
  - split; [repeat constructor; lia | done].
Qed.

Lemma cv_bytes cv :
  1 <= cv <= 1024 -> 0 <= (cv - 1) / 256 < 4 /\ 0 <= (cv - 1) mod 256 < 256.
Proof.
  intros Hcv. split; [|apply Z.mod_pos_bound; lia].
  split; [apply Z.div_pos; lia | apply Z.div_lt_upper_bound; lia].
Qed.

Lemma opsBytePayload_bytes locoNumber cv cvValue :
  0 <= locoNumber <= 10239 -> 1 <= cv <= 1024 -> is_u8 cvValue ->
  Forall is_u8 (opsBytePayload locoNumber cv cvValue) /\
  length (opsBytePayload locoNumber cv cvValue) =
    if decide (locoNumber > 127) then 5%nat else 4%nat.
Proof.
  intros Hl Hcv Hv.
  destruct (opsAddress_bytes locoNumber Hl) as [Haddr Halen].
  destruct (cv_bytes cv Hcv) as [Hhi Hlo].
  unfold opsBytePayload. split.
  - apply Forall_app. split; [done|]. unfold is_u8 in *. repeat constructor; lia.
  - rewrite length_app, Halen. by destruct (decide (locoNumber > 127)).
Qed.

Lemma opsBitPayload_bytes locoNumber cv bit value :
  0 <= locoNumber <= 10239 -> 1 <= cv <= 1024 -> 0 <= bit <= 7 ->
  Forall is_u8 (opsBitPayload locoNumber cv bit value) /\
  length (opsBitPayload locoNumber cv bit value) =
    if decide (locoNumber > 127) then 5%nat else 4%nat.
Proof.
  intros Hl Hcv Hb.
  destruct (opsAddress_bytes locoNumber Hl) as [Haddr Halen].
  destruct (cv_bytes cv Hcv) as [Hhi Hlo].
  unfold opsBitPayload. split.
  - apply Forall_app. split; [done|]. unfold is_u8 in *.
    repeat constructor; destruct value; simpl; lia.
  - rewrite length_app, Halen. by destruct (decide (locoNumber > 127)).
Qed.

(** writeOpsCVByte queues one packet with 4 repeats whose buffer carries,
    behind the preamble, the address bytes (one for addresses up to 127,
    two with the 11 prefix above), 111011 with the two high bits of
    cv - 1, the low byte of cv - 1, the value and the XOR checksum, each
    byte most significant bit first behind a 0 bit. *)
Theorem writeOpsCVByte_on_track g i avail p locoNumber cv cvValue :
  _availablePackets g = i :: avail ->
  _pool g !! i = Some p ->
  length (buffer p) = MAX_BYTES_IN_PACKET ->
  0 <= locoNumber <= 10239 ->
  1 <= cv <= 1024 ->
  is_u8 cvValue ->
  exists g' q,
    writeOpsCVByte locoNumber cv cvValue g = Ok g' /\
    _toSend g' = _toSend g ++ [i] /\
    _pool g' !! i = Some q /\
    numberOfRepeats q = 4 /\
    currentBit q = 0 /\
    numberOfBits q = (if decide (locoNumber > 127) then 76 else 67) /\
    (forall k j d,
       (opsBytePayload locoNumber cv cvValue ++
          [xorAll (opsBytePayload locoNumber cv cvValue)]) !! k = Some d ->
       0 <= j < 8 ->
       bitAt q (23 + 9 * Z.of_nat k + j) = Ok (Z.testbit d (7 - j))) /\
    (forall k, (k <= length (opsBytePayload locoNumber cv cvValue))%nat ->
       bitAt q (22 + 9 * Z.of_nat k) = Ok false).
Proof.
  intros Ha Hp Hlen Hl Hcv Hv.
  rewrite writeOpsCVByte_payload by done.
  destruct (opsBytePayload_bytes locoNumber cv cvValue Hl Hcv Hv) as [Hbytes Hdl].
  destruct (loadPacket_on_track g i avail p
              (opsBytePayload locoNumber cv cvValue) 4 Ha Hp Hlen Hbytes)
    as (g' & q & H1 & H2 & H3 & H4 & H5 & H6 & H7 & H8).
  { rewrite Hdl. destruct (decide (locoNumber > 127)); lia. }
  exists g', q. repeat (split; [done|]). split; [|done].
  rewrite H6, Hdl. by destruct (decide (locoNumber > 127)).
Qed.

Lemma writeOpsCVByte_on_track_witness :
  exists g' q,
    writeOpsCVByte 3000 29 0x06 (allocatePackets 2 idleSingleton) = Ok g' /\
    _toSend g' = [] ++ [0%nat] /\
    _pool g' !! 0%nat = Some q /\
    numberOfRepeats q = 4 /\
    currentBit q = 0 /\
    numberOfBits q = (if decide (3000 > 127) then 76 else 67) /\
    (forall k j d,
       (opsBytePayload 3000 29 0x06 ++
          [xorAll (opsBytePayload 3000 29 0x06)]) !! k = Some d ->
       0 <= j < 8 ->
       bitAt q (23 + 9 * Z.of_nat k + j) = Ok (Z.testbit d (7 - j))) /\
    (forall k, (k <= length (opsBytePayload 3000 29 0x06))%nat ->
       bitAt q (22 + 9 * Z.of_nat k) = Ok false).
Proof.
  apply (writeOpsCVByte_on_track
           (allocatePackets 2 idleSingleton) 0%nat [1%nat] newPacket 3000 29 0x06).
  - reflexivity.
  - reflexivity.
  - reflexivity.
  - lia.
  - lia.
  - unfold is_u8. lia.
Defined.

(** The long-address example of the operations-mode write: locomotive
    3000, CV 29, value 6. *)
Example opsBytePayload_long_address :
  opsBytePayload 3000 29 0x06 = [0xCB; 0xB8; 0xEC; 0x1C; 0x06] /\
  xorAll (opsBytePayload 3000 29 0x06) = 0x85.
Proof. split; reflexivity. Qed.

(** writeOpsCVBit does the same with 111010 in the instruction byte and
    1111 v bbb in the data byte, for bit number bbb and bit value v. *)
Theorem writeOpsCVBit_on_track g i avail p locoNumber cv bit value :
  _availablePackets g = i :: avail ->
  _pool g !! i = Some p ->
  length (buffer p) = MAX_BYTES_IN_PACKET ->
  0 <= locoNumber <= 10239 ->
  1 <= cv <= 1024 ->
  0 <= bit <= 7 ->
  exists g' q,
    writeOpsCVBit locoNumber cv bit value g = Ok g' /\
    _toSend g' = _toSend g ++ [i] /\
    _pool g' !! i = Some q /\
    numberOfRepeats q = 4 /\
    currentBit q = 0 /\
    numberOfBits q = (if decide (locoNumber > 127) then 76 else 67) /\
    (forall k j d,
       (opsBitPayload locoNumber cv bit value ++
          [xorAll (opsBitPayload locoNumber cv bit value)]) !! k = Some d ->
       0 <= j < 8 ->
       bitAt q (23 + 9 * Z.of_nat k + j) = Ok (Z.testbit d (7 - j))) /\
    (forall k, (k <= length (opsBitPayload locoNumber cv bit value))%nat ->
       bitAt q (22 + 9 * Z.of_nat k) = Ok false).
Proof.
  intros Ha Hp Hlen Hl Hcv Hb.
  rewrite writeOpsCVBit_payload by done.
  destruct (opsBitPayload_bytes locoNumber cv bit value Hl Hcv Hb) as [Hbytes Hdl].
  destruct (loadPacket_on_track g i avail p
              (opsBitPayload locoNumber cv bit value) 4 Ha Hp Hlen Hbytes)
    as (g' & q & H1 & H2 & H3 & H4 & H5 & H6 & H7 & H8).
  { rewrite Hdl. destruct (decide (locoNumber > 127)); lia. }
  exists g', q. repeat (split; [done|]). split; [|done].
  rewrite H6, Hdl. by destruct (decide (locoNumber > 127)).
Qed.

Lemma writeOpsCVBit_on_track_witness :
  exists g' q,
    writeOpsCVBit 3 1 2 true (allocatePackets 2 idleSingleton) = Ok g' /\
    _toSend g' = [] ++ [0%nat] /\
    _pool g' !! 0%nat = Some q /\
    numberOfRepeats q = 4 /\
    currentBit q = 0 /\
    numberOfBits q = (if decide (3 > 127) then 76 else 67) /\
    (forall k j d,
       (opsBitPayload 3 1 2 true ++ [xorAll (opsBitPayload 3 1 2 true)]) !! k = Some d ->
       0 <= j < 8 ->
       bitAt q (23 + 9 * Z.of_nat k + j) = Ok (Z.testbit d (7 - j))) /\
    (forall k, (k <= length (opsBitPayload 3 1 2 true))%nat ->
       bitAt q (22 + 9 * Z.of_nat k) = Ok false).
Proof.
  apply (writeOpsCVBit_on_track
           (allocatePackets 2 idleSingleton) 0%nat [1%nat] newPacket 3 1 2 true).
  - reflexivity.
  - reflexivity.
  - reflexivity.
  - lia.
  - lia.
  - lia.
Defined.

(** Within the address range 0..10239, CV numbers 1..1024 and byte
    values, the payload of a byte write determines locomotive, CV and
    value, that of a bit write locomotive, CV, bit number and bit value,
    and no byte write shares its payload with a bit write. *)
Lemma ops_payloads_are_distinct l1 cv1 v1 b1 x1 l2 cv2 v2 b2 x2 :
  0 <= l1 <= 10239 -> 0 <= l2 <= 10239 ->
  1 <= cv1 <= 1024 -> 1 <= cv2 <= 1024 ->
  is_u8 v1 -> is_u8 v2 ->
  0 <= b1 <= 7 -> 0 <= b2 <= 7 ->
  (opsBytePayload l1 cv1 v1 = opsBytePayload l2 cv2 v2 ->
   l1 = l2 /\ cv1 = cv2 /\ v1 = v2) /\
  (opsBitPayload l1 cv1 b1 x1 = opsBitPayload l2 cv2 b2 x2 ->
   l1 = l2 /\ cv1 = cv2 /\ b1 = b2 /\ x1 = x2) /\
  opsBytePayload l1 cv1 v1 <> opsBitPayload l2 cv2 b2 x2.
Proof.
  intros Hl1 Hl2 Hc1 Hc2 Hv1 Hv2 Hb1 Hb2.
  destruct (cv_bytes cv1 Hc1) as [Hh1 Hlo1].
  destruct (cv_bytes cv2 Hc2) as [Hh2 Hlo2].
  assert (forall l, 0 <= l <= 10239 -> 0 <= l / 256 < 40 /\ 0 <= l mod 256 < 256)
    as Hsplit.
  { intros l Hl. split; [|apply Z.mod_pos_bound; lia].
    split; [apply Z.div_pos; lia | apply Z.div_lt_upper_bound; lia]. }
  destruct (Hsplit l1 Hl1) as [Hq1 Hr1]. destruct (Hsplit l2 Hl2) as [Hq2 Hr2].
  pose proof (Z.div_mod l1 256 ltac:(lia)) as Hd1.
  pose proof (Z.div_mod l2 256 ltac:(lia)) as Hd2.
  pose proof (Z.div_mod (cv1 - 1) 256 ltac:(lia)) as Hcd1.
  pose proof (Z.div_mod (cv2 - 1) 256 ltac:(lia)) as Hcd2.
  unfold opsBytePayload, opsBitPayload, opsAddress, is_u8 in *.
  split; [|split].
  - destruct (decide (l1 > 127)), (decide (l2 > 127)); simpl; intros E;
      injection E as ?; repeat split; lia.
  - destruct (decide (l1 > 127)), (decide (l2 > 127)); simpl; intros E;
      injection E as ?; destruct x1, x2; simpl in *; repeat split;
      (lia || done).
  - destruct (decide (l1 > 127)), (decide (l2 > 127)); simpl; intros E;
      injection E as ?; lia.
Qed.

(** ** The free queue and the pending queue *)

Lemma loadPacket_frame_layout_witness :
  exists g' q,
    loadPacket [0x03; 0x3F; 0x80] 4 (allocatePackets 2 idleSingleton) = Ok g' /\
    _pool g' !! 0%nat = Some q /\
    (forall k j d,
       ([0x03; 0x3F; 0x80] ++ [xorAll [0x03; 0x3F; 0x80]]) !! k = Some d ->
       0 <= j < 8 ->
       bitAt q (23 + 9 * Z.of_nat k + j) = Ok (Z.testbit d (7 - j))) /\
    (forall k, (k <= length [0x03; 0x3F; 0x80])%nat ->
       bitAt q (22 + 9 * Z.of_nat k) = Ok false).
Proof.
  apply (loadPacket_frame_layout
           (allocatePackets 2 idleSingleton) 0%nat [1%nat] newPacket
           [0x03; 0x3F; 0x80] 4).
  - reflexivity.
  - reflexivity.
  - reflexivity.
  - unfold is_u8. repeat constructor; lia.
  - simpl. lia.
Defined.

Lemma producer_and_isr_conserve_witness :
  conserved demoState /\ packetCount demoState = 3%nat.
Proof.
  apply (producer_and_isr_conserve demoOps 3 idleSingleton demoState).
  - repeat constructor.
  - reflexivity.
Defined.

(** loadPacket calls with no interrupt in between use up the free queue
    front to back. *)
Lemma loads_until_empty ops : forall g a m,
  Forall (fun o => match o with
                   | Load data _ => (2 <= length data)%nat
                   | _ => False
                   end) ops ->
  slotsOk g ->
  _availablePackets g = seq a m ->
  (a + m <= length (_pool g))%nat ->
  if decide (length ops <= m)%nat then
    exists g',
      run ops g = Ok g' /\
      _availablePackets g' = seq (a + length ops) (m - length ops) /\
      _toSend g' = _toSend g ++ seq a (length ops) /\
      _currentPacket g' = _currentPacket g
  else run ops g = Fail PoolEmpty.
Proof.
  induction ops as [|o ops IH]; intros g a m Hops Hslots Ha Hin.
  - simpl. exists g. rewrite Nat.add_0_r, Nat.sub_0_r, app_nil_r. done.
  - apply Forall_cons in Hops as [Ho Hops].
    destruct o as [data r| |]; [|done|done].
    cbn [run step length].
    destruct m as [|m].
    + rewrite decide_False by lia.
      unfold loadPacket. rewrite Ha. reflexivity.
    + cbn [seq] in Ha.
      destruct (lookup_lt_is_Some_2 (_pool g) a ltac:(lia)) as [p Hp].
      pose proof (Forall_lookup_1 _ _ _ _ Hslots Hp) as Hlen. cbn beta in Hlen.
      destruct (loadPacket_Ok g a (seq (S a) m) p data r Ha Hp Hlen Ho)
        as (q & Hq & ->).
      cbn [bind].
      apply fillBuffer_inv in Hq as (Hlq & _ & _); [|done].
      match goal with
      | |- context [run ops ?g1] =>
        specialize (IH g1 (S a) m Hops)
      end.
      cbn [_pool _availablePackets _toSend _currentPacket] in IH.
      specialize (IH ltac:(by apply Forall_insert) eq_refl
                     ltac:(rewrite length_insert; lia)).
      destruct (decide (length ops <= m)%nat) as [Hle|Hgt].
      * rewrite decide_True by lia.
        destruct IH as (g' & Hrun & Ha' & Hs' & Hc').
        exists g'. split; [done|].
        split; [by rewrite Ha'; f_equal; lia|].
        split; [|done].
        rewrite Hs', <- app_assoc. done.
      * rewrite decide_False by lia. done.
Qed.

(** From a fresh pool of [n] packets, up to [n] loadPacket calls go
    through without an interrupt in between and take packets 0, 1, ...
    from the free queue in order; one call more finds the free queue
    empty and spins until an interrupt releases a packet. *)
Theorem pool_exhaustion n idle ops :
  Forall (fun o => match o with
                   | Load data _ => (2 <= length data)%nat
                   | _ => False
                   end) ops ->
  ((length ops <= n)%nat ->
     exists g,
       run ops (allocatePackets n idle) = Ok g /\
       _availablePackets g = seq (length ops) (n - length ops) /\
       _toSend g = seq 0 (length ops) /\
       _currentPacket g = None) /\
  ((n < length ops)%nat ->
     run ops (allocatePackets n idle) = Fail PoolEmpty).
Proof.
  intros Hops.
  pose proof (loads_until_empty ops (allocatePackets n idle) 0 n Hops) as H.
  cbn [allocatePackets _pool _availablePackets _toSend _currentPacket] in H.
  specialize (H ltac:(by apply Forall_replicate) eq_refl
                ltac:(rewrite length_replicate; lia)).
  split; intros Hn.
  - rewrite decide_True in H by done. exact H.
  - rewrite decide_False in H by lia. exact H.
Qed.

Lemma pool_exhaustion_witness :
  ((length [Load resetPacket 20; Load idlePacket 10; Load idlePacket 0] <= 2)%nat ->
     exists g,
       run [Load resetPacket 20; Load idlePacket 10; Load idlePacket 0]
           (allocatePackets 2 idleSingleton) = Ok g /\
       _availablePackets g =
         seq (length [Load resetPacket 20; Load idlePacket 10; Load idlePacket 0])
             (2 - length [Load resetPacket 20; Load idlePacket 10; Load idlePacket 0]) /\
       _toSend g =
         seq 0 (length [Load resetPacket 20; Load idlePacket 10; Load idlePacket 0]) /\
       _currentPacket g = None) /\
  ((2 < length [Load resetPacket 20; Load idlePacket 10; Load idlePacket 0])%nat ->
     run [Load resetPacket 20; Load idlePacket 10; Load idlePacket 0]
         (allocatePackets 2 idleSingleton) = Fail PoolEmpty).
Proof.
  apply (pool_exhaustion 2 idleSingleton
           [Load resetPacket 20; Load idlePacket 10; Load idlePacket 0]).
  repeat constructor; simpl; lia.
Defined.

(** isQueueEmpty looks at the pending queue only: from the interrupt that
    takes the last pending packet until the last bit of its last repeat,
    the queue reports empty while the packet is still the current one and
    not yet back in the free queue. *)
Theorem queue_reports_empty_while_last_packet_plays g g1 i p m :
  releaseFinished g = Ok g1 ->
  _currentPacket g1 = None ->
  _toSend g1 = [i] ->
  _pool g1 !! i = Some p ->
  currentBit p = 0 ->
  bitsInBuffer p ->
  (1 <= m <= playTime p)%nat ->
  exists gm,
    sendBits m g = Ok (take m (playBits p), gm) /\
    isQueueEmpty gm = true /\
    _currentPacket gm = Some (PoolRef i) /\
    _availablePackets gm = _availablePackets g1.
Proof.
  intros Hrel Hcur Hsend Hp Hc Hb Hm.
  destruct (play_all g g1 i [] p Hrel Hcur Hsend Hp Hc Hb) as [Hall _].
  destruct (Hall m Hm) as (gm & Hrun & Hcm & Ham & Hsm).
  exists gm. split; [exact Hrun|]. split; [|done].
  unfold isQueueEmpty. by rewrite Hsm.
Qed.

Lemma queue_reports_empty_while_last_packet_plays_witness :
  exists gm,
    sendBits 100
      (mkGen [bootPacket0; bootPacket1] idleSingleton [0%nat] [1%nat] None) =
      Ok (take 100 (playBits bootPacket1), gm) /\
    isQueueEmpty gm = true /\
    _currentPacket gm = Some (PoolRef 1) /\
    _availablePackets gm = [0%nat].
Proof.
  apply (queue_reports_empty_while_last_packet_plays
           (mkGen [bootPacket0; bootPacket1] idleSingleton [0%nat] [1%nat] None)
           (mkGen [bootPacket0; bootPacket1] idleSingleton [0%nat] [1%nat] None)
           1%nat bootPacket1 100%nat).
  - reflexivity.
  - reflexivity.
  - reflexivity.
  - reflexivity.
  - reflexivity.
  - unfold bitsInBuffer. simpl. lia.
  - unfold playTime. simpl. lia.
Defined.

(** Round trip: what loadPacket writes for a payload of 2 to 5 bytes, a
    decoder reads back as the payload followed by its XOR checksum. *)
Theorem loadPacket_round_trip g i avail p data r :
  _availablePackets g = i :: avail ->
  _pool g !! i = Some p ->
  length (buffer p) = MAX_BYTES_IN_PACKET ->
  Forall is_u8 data ->
  (2 <= length data <= 5)%nat ->
  exists g' q,
    loadPacket data r g = Ok g' /\
    _pool g' !! i = Some q /\
    decodePacket q = Ok (data ++ [xorAll data]) /\
    numberOfRepeats q = r.
Proof.
  intros Ha Hp Hlen Hbytes Hn.
  destruct (loadPacket_on_track g i avail p data r Ha Hp Hlen Hbytes Hn)
    as (g' & q & Hload & _ & Hq & Hr & _ & Hbits & Hlay & _).
  exists g', q. split; [done|]. split; [done|]. split; [|done].
  apply decodePacket_layout; [| |done].
  - apply Forall_app. split; [done|]. by apply Forall_singleton, xorAll_u8.
  - rewrite Hbits, length_app. simpl. do 3 f_equal. lia.
Qed.

Lemma loadPacket_round_trip_witness :
  exists g' q,
    loadPacket [0x03; 0x3F; 0x80] 4 (allocatePackets 2 idleSingleton) = Ok g' /\
    _pool g' !! 0%nat = Some q /\
    decodePacket q = Ok ([0x03; 0x3F; 0x80] ++ [xorAll [0x03; 0x3F; 0x80]]) /\
    numberOfRepeats q = 4.
Proof.
  apply (loadPacket_round_trip
           (allocatePackets 2 idleSingleton) 0%nat [1%nat] newPacket
           [0x03; 0x3F; 0x80] 4).
  - reflexivity.
  - reflexivity.
  - reflexivity.
  - unfold is_u8. repeat constructor; lia.
  - simpl. lia.
Defined.

(** Two loadPacket calls that leave the same generator were given the
    same payload and repeat count. *)
Lemma loadPacket_injective g i avail p d1 r1 d2 r2 :
  _availablePackets g = i :: avail ->
  _pool g !! i = Some p ->
  length (buffer p) = MAX_BYTES_IN_PACKET ->
  Forall is_u8 d1 -> (2 <= length d1 <= 5)%nat ->
  Forall is_u8 d2 -> (2 <= length d2 <= 5)%nat ->
  loadPacket d1 r1 g = loadPacket d2 r2 g ->
  d1 = d2 /\ r1 = r2.
Proof.
  intros Ha Hp Hlen Hu1 Hn1 Hu2 Hn2 Heq.
  destruct (loadPacket_on_track g i avail p d1 r1 Ha Hp Hlen Hu1 Hn1)
    as (g1 & q1 & Hl1 & _ & Hq1 & Hr1 & _ & Hb1 & Hlay1 & _).
  destruct (loadPacket_on_track g i avail p d2 r2 Ha Hp Hlen Hu2 Hn2)
    as (g2 & q2 & Hl2 & _ & Hq2 & Hr2 & _ & Hb2 & Hlay2 & _).
  rewrite Hl1, Hl2 in Heq. injection Heq as ->.
  rewrite Hq1 in Hq2. injection Hq2 as ->.
  split; [|congruence].
  assert (decodePacket q2 = Ok (d1 ++ [xorAll d1])) as Hdec1.
  { apply decodePacket_layout; [| |done].
    - apply Forall_app. split; [done|]. by apply Forall_singleton, xorAll_u8.
    - rewrite Hb1, length_app. simpl. do 3 f_equal. lia. }
  assert (decodePacket q2 = Ok (d2 ++ [xorAll d2])) as Hdec2.
  { apply decodePacket_layout; [| |done].
    - apply Forall_app. split; [done|]. by apply Forall_singleton, xorAll_u8.
    - rewrite Hb2, length_app. simpl. do 3 f_equal. lia. }
  rewrite Hdec1 in Hdec2. injection Hdec2 as Hfr.
  by apply app_inj_tail in Hfr as [? _].
Qed.

(** Different requests give different packets: for locomotive addresses
    0..10239, CV numbers 1..1024, byte values and bit numbers 0..7, two
    writeOpsCVByte calls that leave the same generator state were given
    the same locomotive, CV and value; two writeOpsCVBit calls the same
    locomotive, CV, bit number and bit value; and a writeOpsCVByte call
    never leaves the state of a writeOpsCVBit call. *)
Theorem ops_writes_are_distinct g i avail p l1 cv1 v1 b1 x1 l2 cv2 v2 b2 x2 :
  _availablePackets g = i :: avail ->
  _pool g !! i = Some p ->
  length (buffer p) = MAX_BYTES_IN_PACKET ->
  0 <= l1 <= 10239 -> 0 <= l2 <= 10239 ->
  1 <= cv1 <= 1024 -> 1 <= cv2 <= 1024 ->
  is_u8 v1 -> is_u8 v2 ->
  0 <= b1 <= 7 -> 0 <= b2 <= 7 ->
  (writeOpsCVByte l1 cv1 v1 g = writeOpsCVByte l2 cv2 v2 g ->
   l1 = l2 /\ cv1 = cv2 /\ v1 = v2) /\
  (writeOpsCVBit l1 cv1 b1 x1 g = writeOpsCVBit l2 cv2 b2 x2 g ->
   l1 = l2 /\ cv1 = cv2 /\ b1 = b2 /\ x1 = x2) /\
  writeOpsCVByte l1 cv1 v1 g <> writeOpsCVBit l2 cv2 b2 x2 g.
Proof.
  intros Ha Hp Hlen Hl1 Hl2 Hc1 Hc2 Hv1 Hv2 Hb1 Hb2.
  destruct (ops_payloads_are_distinct l1 cv1 v1 b1 x1 l2 cv2 v2 b2 x2)
    as (Hbyte & Hbit & Hmixed); try done.
  destruct (opsBytePayload_bytes l1 cv1 v1 Hl1 Hc1 Hv1) as [Hu1 Hn1].
  destruct (opsBytePayload_bytes l2 cv2 v2 Hl2 Hc2 Hv2) as [Hu2 Hn2].
  destruct (opsBitPayload_bytes l1 cv1 b1 x1 Hl1 Hc1 Hb1) as [Hu3 Hn3].
  destruct (opsBitPayload_bytes l2 cv2 b2 x2 Hl2 Hc2 Hb2) as [Hu4 Hn4].
  assert (forall (l : Z) (n : nat),
            n = (if decide (l > 127) then 5%nat else 4%nat) -> (2 <= n <= 5)%nat)
    as Hrange.
  { intros l n ->. destruct (decide (l > 127)); lia. }
  rewrite !writeOpsCVByte_payload, !writeOpsCVBit_payload by done.
  split; [|split].
  - intros Heq. apply Hbyte.
    by destruct (loadPacket_injective g i avail p _ 4 _ 4 Ha Hp Hlen
                   Hu1 (Hrange _ _ Hn1) Hu2 (Hrange _ _ Hn2) Heq).
  - intros Heq. apply Hbit.
    by destruct (loadPacket_injective g i avail p _ 4 _ 4 Ha Hp Hlen
                   Hu3 (Hrange _ _ Hn3) Hu4 (Hrange _ _ Hn4) Heq).
  - intros Heq. apply Hmixed.
    by destruct (loadPacket_injective g i avail p _ 4 _ 4 Ha Hp Hlen
                   Hu1 (Hrange _ _ Hn1) Hu4 (Hrange _ _ Hn4) Heq).
Qed.

Lemma ops_writes_are_distinct_witness :
  (writeOpsCVByte 3000 29 6 (allocatePackets 2 idleSingleton) =
   writeOpsCVByte 3 29 6 (allocatePackets 2 idleSingleton) ->
   3000 = 3 /\ 29 = 29 /\ 6 = 6) /\
  (writeOpsCVBit 3000 29 2 true (allocatePackets 2 idleSingleton) =
   writeOpsCVBit 3 29 2 false (allocatePackets 2 idleSingleton) ->
   3000 = 3 /\ 29 = 29 /\ 2 = 2 /\ true = false) /\
  writeOpsCVByte 3000 29 6 (allocatePackets 2 idleSingleton) <>
  writeOpsCVBit 3 29 2 false (allocatePackets 2 idleSingleton).
Proof.
  apply (ops_writes_are_distinct
           (allocatePackets 2 idleSingleton) 0%nat [1%nat] newPacket
           3000 29 6 2 true 3 29 6 2 false);
    first [reflexivity | unfold is_u8; lia].
Defined.
